(** * vegdetect: NDVI computation and thresholded rendering

    A shallow embedding of [compute_ndvi] and [apply_ndvi_threshold] from
    [vegdetect.py].  NumPy's [float64] is IEEE 754 binary64, modelled by the
    standard library's [spec_float] at precision 53 and exponent bound 1024;
    NumPy arrays are a shape together with a row-major buffer; the arrays
    the function binds live in a store, so that "allocates a new array" and
    "writes into an existing one" are different things in the model.

    The display functions and the body of the script are embedded as
    programs that record, in order, the calls on [matplotlib.pyplot] that
    have returned; what a function draws, saves and shows is read off that
    record.  A call that raises ends the function, as reading a band that
    is missing does. *)

From Stdlib Require Import ZArith List Bool Lia Ascii String DecimalString.
From Stdlib Require Import Floats.SpecFloat.
Import ListNotations.

(** ** binary64 *)

Definition float : Type := spec_float.

Module F64.

Definition prec : Z := 53.
Definition emax : Z := 1024.

Definition add : float -> float -> float := SFadd prec emax.
Definition sub : float -> float -> float := SFsub prec emax.
Definition div : float -> float -> float := SFdiv prec emax.
Definition opp : float -> float := SFopp.

(** IEEE comparisons: [==], [<=], [<] of Python floats. *)
Definition eqb : float -> float -> bool := SFeqb.
Definition leb : float -> float -> bool := SFleb.
Definition ltb : float -> float -> bool := SFltb.

(** Conversion of an integer sample, rounding to nearest even as the
    C cast behind [astype(float)] does. *)
Definition of_Z (z : Z) : float := binary_normalize prec emax z 0 false.

Definition zero : float := S754_zero false.
Definition one : float := S754_finite false 4503599627370496 (-52).
Definition half : float := S754_finite false 4503599627370496 (-53).
Definition nan : float := S754_nan.

Definition valid (x : float) : bool := valid_binary prec emax x.

Definition is_finite (x : float) : bool :=
  match x with
  | S754_zero _ | S754_finite _ _ _ => true
  | S754_infinity _ | S754_nan => false
  end.

Definition is_nan (x : float) : bool :=
  match x with S754_nan => true | _ => false end.

Definition is_inf (x : float) : bool :=
  match x with S754_infinity _ => true | _ => false end.

(** [-1 <= x <= 1] in IEEE comparisons. *)
Definition in_unit_interval (x : float) : bool :=
  leb (opp one) x && leb x one.

(** *** The format: digits, exponents, values

    Notions used to reason about rounding: the number of binary digits
    of a mantissa, the exponent the format gives to a magnitude, and an
    order on values [m * 2^e] that stays within the integers. *)

Local Open Scope Z_scope.

Definition digits (m : Z) : Z := Zdigits2 m.

(** What [j] right shifts keep: the quotient, and whether anything was
    lost. *)
Definition shifted (m : Z) (r s : bool) (j : Z) (x : shr_record) : Prop :=
  shr_m x = m / 2 ^ j /\
  (shr_r x || shr_s x = true -> r || s = true \/ m mod 2 ^ j <> 0) /\
  (r || s = false -> m mod 2 ^ j = 0 -> shr_r x || shr_s x = false).

Definition fexp (e : Z) : Z := SpecFloat.fexp prec emax e.

Definition loc_exact (l : location) : bool :=
  match l with loc_Exact => true | _ => false end.

(** A result of magnitude at most one: a zero, or [m * 2^t] with
    [m <= 2^(-t)]. *)
Definition le_one (z : spec_float) : Prop :=
  match z with
  | S754_zero _ => True
  | S754_finite _ m t => t <= -52 /\ Zpos m <= 2 ^ (- t)
  | _ => False
  end.

(** [m1 * 2^e1 <= m2 * 2^e2], said at every scale [2^c] at which both
    sides are integers. *)
Definition vle (m1 e1 m2 e2 : Z) : Prop :=
  forall c, c <= e1 -> c <= e2 -> m1 * 2 ^ (e1 - c) <= m2 * 2 ^ (e2 - c).

(** A mantissa and exponent in the format's normal form. *)
Definition canonical (m e : Z) : Prop := fexp (digits m + e) = e.

(** A sample the formula is meant for: a proper binary64 value, finite and
    not negative. *)
Definition nonneg_sample (x : float) : bool :=
  valid x && is_finite x && leb zero x.

(** A proper binary64 value that is finite, of either sign. *)
Definition finite_sample (x : float) : bool :=
  valid x && is_finite x.

(** The mantissa of [m * 2^e] once written with the exponent [e0 <= e]. *)
Definition aligned (m : positive) (e e0 : Z) : Z := Zpos m * 2 ^ (e - e0).

(** Results that a representable number [mR * 2^eR] bounds from above or
    from below, in magnitude. *)
Definition below (x : float) (mR eR : Z) : Prop :=
  match x with
  | S754_zero _ => True
  | S754_finite _ m t => vle (Zpos m) t mR eR
  | _ => False
  end.

Definition above (y : float) (mR eR : Z) : Prop :=
  match y with
  | S754_infinity _ => True
  | S754_finite _ m t => vle mR eR (Zpos m) t
  | _ => False
  end.

(** Two results that are equal as numbers, or are both not a number. *)
Definition same_number (x y : float) : Prop :=
  eqb x y = true \/ (is_nan x = true /\ is_nan y = true).

End F64.

(** ** NumPy arrays (two-dimensional) *)

Record ndarray (A : Type) : Type := mk_ndarray {
  shape : nat * nat;
  data : list A
}.

Arguments mk_ndarray {A} shape data.
Arguments shape {A} n.
Arguments data {A} n.

Definition rows {A} (a : ndarray A) : nat := fst (shape a).
Definition cols {A} (a : ndarray A) : nat := snd (shape a).

(** The buffer holds exactly rows * cols items. *)
Definition wf_array {A} (a : ndarray A) : Prop :=
  List.length (data a) = rows a * cols a.

Definition item {A} (d : A) (a : ndarray A) (i j : nat) : A :=
  nth (i * cols a + j) (data a) d.

Definition tabulate {A} (r c : nat) (f : nat -> nat -> A) : list A :=
  flat_map (fun i => map (f i) (seq 0 c)) (seq 0 r).

Definition of_rows {A} (c : nat) (l : list (list A)) : ndarray A :=
  mk_ndarray (List.length l, c) (List.concat l).

Definition amap {A B} (f : A -> B) (a : ndarray A) : ndarray B :=
  mk_ndarray (shape a) (map f (data a)).

(** *** Errors the program can end in *)

Inductive error : Type :=
| RasterioIOError      (* the file cannot be opened *)
| IndexError           (* band index out of range *)
| ValueError           (* operands could not be broadcast together;
                          an argument that pyplot refuses *)
| StaleReference       (* a location that is not in the store *)
| OSError.             (* a file that cannot be written *)

Inductive result (A : Type) : Type :=
| Ok (a : A)
| Err (e : error).

Arguments Ok {A} a.
Arguments Err {A} e.

Definition rbind {A B} (r : result A) (k : A -> result B) : result B :=
  match r with
  | Ok a => k a
  | Err e => Err e
  end.

(** *** Broadcasting of binary element-wise operations *)

Definition broadcast_dim (n m : nat) : option nat :=
  if Nat.eqb n m then Some n
  else if Nat.eqb n 1 then Some m
  else if Nat.eqb m 1 then Some n
  else None.

Definition broadcast_shapes (s t : nat * nat) : option (nat * nat) :=
  match broadcast_dim (fst s) (fst t), broadcast_dim (snd s) (snd t) with
  | Some r, Some c => Some (r, c)
  | _, _ => None
  end.

(** An axis of length one is stretched: its only index is 0. *)
Definition stretch (n i : nat) : nat := if Nat.eqb n 1 then 0 else i.

Definition broadcast_to (a : ndarray float) (s : nat * nat) : ndarray float :=
  mk_ndarray s
    (tabulate (fst s) (snd s)
       (fun i j => item F64.nan a (stretch (rows a) i) (stretch (cols a) j))).

Fixpoint zip_with {A B C} (f : A -> B -> C) (l : list A) (m : list B) : list C :=
  match l, m with
  | x :: l', y :: m' => f x y :: zip_with f l' m'
  | _, _ => []
  end.

Definition binop (f : float -> float -> float) (a b : ndarray float)
  : result (ndarray float) :=
  match broadcast_shapes (shape a) (shape b) with
  | None => Err ValueError
  | Some s =>
      Ok (mk_ndarray s
            (zip_with f (data (broadcast_to a s)) (data (broadcast_to b s))))
  end.

(** ** The raster file *)

(** A band as read from the file: integer digital numbers or floating-point
    samples, according to the raster's data type. *)
Inductive band : Type :=
| IntBand (a : ndarray Z)
| FloatBand (a : ndarray float).

Definition band_shape (b : band) : nat * nat :=
  match b with
  | IntBand a => shape a
  | FloatBand a => shape a
  end.

(** [.astype(float)] *)
Definition astype_float (b : band) : ndarray float :=
  match b with
  | IntBand a => amap F64.of_Z a
  | FloatBand a => amap (fun x => x) a
  end.

Record dataset : Type := mk_dataset {
  height : nat;
  width : nat;
  bands : list band
}.

Definition wf_band (h w : nat) (b : band) : Prop :=
  band_shape b = (h, w) /\
  match b with
  | IntBand a => wf_array a
  | FloatBand a => wf_array a
  end.

(** Every band of a raster has the raster's height and width. *)
Definition wf_dataset (d : dataset) : Prop :=
  Forall (wf_band (height d) (width d)) (bands d).

(** [src.read(i)]: bands are numbered from 1. *)
Definition read (src : dataset) (i : nat) : result band :=
  match i with
  | 0 => Err IndexError
  | S k =>
      match nth_error (bands src) k with
      | Some b => Ok b
      | None => Err IndexError
      end
  end.

(** ** The store and the program monad *)

Definition loc := nat.

Record world : Type := mk_world {
  files : list (string * dataset);
  heap : list (ndarray float)
}.

Definition M (A : Type) : Type := world -> result A * world.

Definition ret {A} (a : A) : M A := fun w => (Ok a, w).

Definition bind {A B} (m : M A) (k : A -> M B) : M B :=
  fun w =>
    match m w with
    | (Ok a, w') => k a w'
    | (Err e, w') => (Err e, w')
    end.

Declare Scope prog_scope.
Delimit Scope prog_scope with prog.
Notation "x <- m ;; k" := (bind m (fun x => k))
  (at level 61, m at next level, right associativity) : prog_scope.

Definition lift {A} (r : result A) : M A := fun w => (r, w).

Fixpoint lookup_file (p : string) (fs : list (string * dataset)) : option dataset :=
  match fs with
  | [] => None
  | (q, d) :: fs' => if String.eqb p q then Some d else lookup_file p fs'
  end.

(** [rasterio.open(image_path)] in read mode. *)
Definition rasterio_open (image_path : string) : M dataset :=
  fun w =>
    match lookup_file image_path (files w) with
    | Some d => (Ok d, w)
    | None => (Err RasterioIOError, w)
    end.

(** A new array object: the store grows by one cell. *)
Definition alloc (a : ndarray float) : M loc :=
  fun w => (Ok (List.length (heap w)), mk_world (files w) (heap w ++ [a])).

Definition load (l : loc) : M (ndarray float) :=
  fun w =>
    match nth_error (heap w) l with
    | Some a => (Ok a, w)
    | None => (Err StaleReference, w)
    end.

Definition np_binop (f : float -> float -> float) (x y : loc) : M loc :=
  (a <- load x ;;
   b <- load y ;;
   c <- lift (binop f a b) ;;
   alloc c)%prog.

Definition np_subtract := np_binop F64.sub.
Definition np_add := np_binop F64.add.
Definition np_true_divide := np_binop F64.div.

(** ** compute_ndvi *)

(** The expression [(nir - red) / (nir + red)] on array values. *)
Definition ndvi_arrays (red nir : ndarray float) : result (ndarray float) :=
  rbind (binop F64.sub nir red) (fun d =>
  rbind (binop F64.add nir red) (fun s =>
  binop F64.div d s)).

(** One pixel of it. *)
Definition ndvi_pixel (red nir : float) : float :=
  F64.div (F64.sub nir red) (F64.add nir red).

Definition compute_ndvi (image_path : string) : M loc :=
  (src <- rasterio_open image_path ;;
   b3 <- lift (read src 3) ;;
   red <- alloc (astype_float b3) ;;
   b4 <- lift (read src 4) ;;
   nir <- alloc (astype_float b4) ;;
   d <- np_subtract nir red ;;
   s <- np_add nir red ;;
   ndvi <- np_true_divide d s ;;
   ret ndvi)%prog.

(** ** matplotlib.pyplot: the figure being built and the files written *)

Record colormap : Type := mk_colormap {
  cmap_name : string;
  bad_color : string
}.

Record image_layer : Type := mk_image_layer {
  img_data : ndarray float;
  img_cmap : colormap;
  img_vmin : option Z;
  img_vmax : option Z
}.

Record hline : Type := mk_hline {
  hline_y : float;
  hline_color : string;
  hline_style : string
}.

Record figure : Type := mk_figure {
  figsize : Z * Z;
  images : list image_layer;
  colorbar_label : option string;
  axis_on : bool;
  title : string;
  hlines : list hline
}.

(** The module keeps a current figure; [plt.cm.bwr] is one shared colormap
    object, which [set_bad] updates in place. *)
Record pyplot : Type := mk_pyplot {
  cm_bwr : colormap;
  gcf : figure;
  saved : list (string * figure);
  shown : list figure
}.

Definition plt_figure (size : Z * Z) (p : pyplot) : pyplot :=
  mk_pyplot (cm_bwr p) (mk_figure size [] None true EmptyString [])
            (saved p) (shown p).

Definition with_gcf (f : figure -> figure) (p : pyplot) : pyplot :=
  mk_pyplot (cm_bwr p) (f (gcf p)) (saved p) (shown p).

Definition cmap_set_bad (color : string) (p : pyplot) : pyplot :=
  mk_pyplot (mk_colormap (cmap_name (cm_bwr p)) color) (gcf p)
            (saved p) (shown p).

Definition plt_imshow (a : ndarray float) (cmap : colormap)
    (vmin vmax : option Z) : pyplot -> pyplot :=
  with_gcf (fun g =>
    mk_figure (figsize g)
              (images g ++ [mk_image_layer a cmap vmin vmax])
              (colorbar_label g) (axis_on g) (title g) (hlines g)).

Definition plt_colorbar (label : string) : pyplot -> pyplot :=
  with_gcf (fun g =>
    mk_figure (figsize g) (images g) (Some label) (axis_on g) (title g)
              (hlines g)).

Definition plt_axis_off : pyplot -> pyplot :=
  with_gcf (fun g =>
    mk_figure (figsize g) (images g) (colorbar_label g) false (title g)
              (hlines g)).

Definition plt_title (s : string) : pyplot -> pyplot :=
  with_gcf (fun g =>
    mk_figure (figsize g) (images g) (colorbar_label g) (axis_on g) s
              (hlines g)).

Definition plt_axhline (y : float) (color style : string) : pyplot -> pyplot :=
  with_gcf (fun g =>
    mk_figure (figsize g) (images g) (colorbar_label g) (axis_on g) (title g)
              (hlines g ++ [mk_hline y color style])).

Definition plt_savefig (path : string) (p : pyplot) : pyplot :=
  mk_pyplot (cm_bwr p) (gcf p) ((path, gcf p) :: saved p) (shown p).

Definition plt_show (p : pyplot) : pyplot :=
  mk_pyplot (cm_bwr p) (gcf p) (saved p) (gcf p :: shown p).

(** ** apply_ndvi_threshold *)

Definition apply_ndvi_threshold (ndvi : ndarray float) (threshold : float)
    (save_path : string) (p : pyplot) : pyplot :=
  let p := plt_figure (8, 8)%Z p in
  let p := cmap_set_bad "gray" p in
  let cmap := cm_bwr p in
  let p := plt_imshow ndvi cmap (Some (-1)%Z) (Some 1%Z) p in
  let p := plt_colorbar "NDVI" p in
  let p := plt_axis_off p in
  let p := plt_title "NDVI Threshold" p in
  let p := plt_axhline F64.half "black" "--" p in
  let p := plt_savefig save_path p in
  plt_show p.



(** ** The formula as the specification words it *)

Definition samples_as_float (b : band) : list float :=
  match b with
  | IntBand a => map F64.of_Z (data a)
  | FloatBand a => data a
  end.

(** Per pixel, [(nir - red) / (nir + red)] over the converted samples. *)
Definition spec_ndvi (red nir : band) : ndarray float :=
  mk_ndarray (band_shape red)
    (zip_with (fun r n => F64.div (F64.sub n r) (F64.add n r))
              (samples_as_float red) (samples_as_float nir)).

(** ** What a run does; domains; sample inputs *)

(** The value the run ends in and the arrays it creates, in order; both
    depend on the file system only. *)
Definition ndvi_effects (fs : list (string * dataset)) (image_path : string)
  : result (ndarray float) * list (ndarray float) :=
  match lookup_file image_path fs with
  | None => (Err RasterioIOError, [])
  | Some src =>
      match read src 3 with
      | Err e => (Err e, [])
      | Ok b3 =>
          let red := astype_float b3 in
          match read src 4 with
          | Err e => (Err e, [red])
          | Ok b4 =>
              let nir := astype_float b4 in
              match binop F64.sub nir red with
              | Err e => (Err e, [red; nir])
              | Ok d =>
                  match binop F64.add nir red with
                  | Err e => (Err e, [red; nir; d])
                  | Ok s =>
                      match binop F64.div d s with
                      | Err e => (Err e, [red; nir; d; s])
                      | Ok out => (Ok out, [red; nir; d; s; out])
                      end
                  end
              end
          end
      end
  end.

(** Sample grids used to instantiate the statements below. *)
Definition red_2x2 : ndarray Z := of_rows 2 [[100; 50]; [0; 100]]%Z.
Definition nir_2x2 : ndarray Z := of_rows 2 [[200; 50]; [100; 100]]%Z.
Definition red_2x2_f : ndarray float := astype_float (IntBand red_2x2).
Definition nir_2x2_f : ndarray float := astype_float (IntBand nir_2x2).

Definition sample_dataset : dataset :=
  mk_dataset 2 2
    [IntBand nir_2x2; IntBand red_2x2; IntBand red_2x2; IntBand nir_2x2].

Definition sample_world : world :=
  mk_world [("west_campus.tif"%string, sample_dataset)] [].

(** The outcome a caller observes: the returned array, or the error. *)
Definition outcome (image_path : string) (w : world) : result (ndarray float) :=
  match compute_ndvi image_path w with
  | (Ok l, w') =>
      match nth_error (heap w') l with
      | Some a => Ok a
      | None => Err StaleReference
      end
  | (Err e, _) => Err e
  end.

(** Python's [1/3]: the quotient of the binary64 values 1.0 and 3.0. *)
Definition one_third : float := F64.div (F64.of_Z 1) (F64.of_Z 3).

Definition zeros_2x2 : ndarray float :=
  astype_float (IntBand (of_rows 2 [[0; 0]; [0; 0]]%Z)).

(** Two axis lengths that NumPy accepts together. *)
Definition compatible_dim (n m : nat) : Prop := n = m \/ n = 1 \/ m = 1.

(** A red grid of one row next to a NIR grid of two. *)
Definition red_1x2_f : ndarray float :=
  astype_float (IntBand (of_rows 2 [[100; 50]]%Z)).

(** The two bands of a pixel fit the formula: both samples are finite
    binary64 values that are not negative, and their sum is not zero. *)
Definition pixel_in_domain (red nir : float) : Prop :=
  F64.nonneg_sample red = true /\
  F64.nonneg_sample nir = true /\
  F64.eqb (F64.add nir red) F64.zero = false.

Definition no_zero_sum (red nir : float) : Prop :=
  F64.eqb (F64.add nir red) F64.zero = false.

(** One row holding the three special pixels: red == nir > 0; red == 0
    and nir > 0; nir == 0 and red > 0. *)
Definition red_special : ndarray float :=
  astype_float (IntBand (of_rows 3 [[50; 0; 70]]%Z)).
Definition nir_special : ndarray float :=
  astype_float (IntBand (of_rows 3 [[50; 100; 0]]%Z)).

(** Grids with a negative sample (red = -50, nir = 100), an infinite one,
    and a sample that is not a number. *)
Definition red_negative : ndarray float :=
  astype_float (IntBand (of_rows 1 [[-50]]%Z)).
Definition nir_hundred : ndarray float :=
  astype_float (IntBand (of_rows 1 [[100]]%Z)).
Definition grid_inf : ndarray float :=
  astype_float (FloatBand (of_rows 1 [[S754_infinity false]])).
Definition grid_zero : ndarray float :=
  astype_float (IntBand (of_rows 1 [[0]]%Z)).
Definition grid_nan : ndarray float :=
  astype_float (FloatBand (of_rows 1 [[S754_nan]])).

(** ** Stacks of bands: three-dimensional arrays *)

(** One value of a raster, with the data type of its band. *)
Inductive sample : Type :=
| IntSample (z : Z)
| FloatSample (x : float).

Definition no_sample : sample := FloatSample F64.nan.

Record ndarray3 (A : Type) : Type := mk_ndarray3 {
  shape3 : nat * nat * nat;
  data3 : list A
}.

Arguments mk_ndarray3 {A} shape3 data3.
Arguments shape3 {A} n.
Arguments data3 {A} n.

Definition item3 {A} (d : A) (a : ndarray3 A) (i j k : nat) : A :=
  let '(_, n1, n2) := shape3 a in
  nth ((i * n1 + j) * n2 + k) (data3 a) d.

Definition tabulate3 {A} (n0 n1 n2 : nat) (f : nat -> nat -> nat -> A)
  : list A :=
  flat_map (fun i => tabulate n1 n2 (f i)) (seq 0 n0).

(** The values of a band as the file holds them. *)
Definition band_samples (b : band) : ndarray sample :=
  match b with
  | IntBand a => amap IntSample a
  | FloatBand a => amap FloatSample a
  end.

Fixpoint read_each (src : dataset) (indexes : list nat) : result (list band) :=
  match indexes with
  | [] => Ok []
  | i :: rest =>
      rbind (read src i) (fun b =>
      rbind (read_each src rest) (fun bs => Ok (b :: bs)))
  end.

(** [src.read(indexes)] with a list of band numbers: the bands, along a
    new first axis. *)
Definition read_bands (src : dataset) (indexes : list nat)
  : result (ndarray3 sample) :=
  rbind (read_each src indexes) (fun bs =>
    Ok (mk_ndarray3 (List.length indexes, height src, width src)
          (flat_map (fun b => data (band_samples b)) bs))).

(** [a.transpose(1, 2, 0)]: the first axis becomes the last. *)
Definition transpose_1_2_0 (a : ndarray3 sample) : ndarray3 sample :=
  let '(n0, n1, n2) := shape3 a in
  mk_ndarray3 (n1, n2, n0)
    (tabulate3 n1 n2 n0 (fun i j k => item3 no_sample a k i j)).

Definition shape_eqb (s t : nat * nat) : bool :=
  Nat.eqb (fst s) (fst t) && Nat.eqb (snd s) (snd t).

(** [np.stack(arrays, axis=-1)] of two-dimensional arrays: they must all
    have one shape, and there must be one at least. *)
Definition np_stack_last (arrays : list (ndarray sample))
  : result (ndarray3 sample) :=
  match arrays with
  | [] => Err ValueError
  | a :: rest =>
      if forallb (fun b => shape_eqb (shape b) (shape a)) rest
      then Ok (mk_ndarray3 (rows a, cols a, List.length arrays)
                 (tabulate3 (rows a) (cols a) (List.length arrays)
                    (fun i j k => item no_sample (nth k arrays a) i j)))
      else Err ValueError
  end.

(** ** The script: calls on pyplot, in order

    Two of the calls the program makes on pyplot can raise.  [plt.savefig]
    raises for a path it cannot write: ValueError for a format it does not
    know, OSError for a directory that is missing or closed to it.
    [plt.imshow] raises ValueError for a colormap name that is not
    registered.  What the file system and the colormap registry hold is not
    the program's to decide: it is the environment of a run.  Two things
    are fixed for every environment: a file name with no directory part and
    the extension [.png] can be written (PNG is the format pyplot always
    has, and the working directory is taken to be writable), and the two
    colormaps the program names, 'gray' and 'RdYlGn', are matplotlib's
    own.  The other calls of the program return. *)

Inductive image : Type :=
| Image2 (b : band)               (* one value per pixel *)
| Image3 (a : ndarray3 sample).   (* height x width x channels *)

Inductive cmap_arg : Type :=
| CmapDefault                     (* no cmap argument *)
| CmapName (name : string)
| CmapBwr.                        (* the object plt.cm.bwr *)

Inductive plt_call : Type :=
| PltFigure (size : Z * Z)
| PltSubplot (nrows ncols index : nat)
| PltSetBad (color : string)
| PltImshow (img : image) (cmap : cmap_arg) (vmin vmax : option Z)
| PltColorbar (label : string)
| PltAxisOff
| PltTitle (s : string)
| PltSuptitle (s : string)
| PltAxhline (y : float) (color style : string)
| PltSavefig (path : string)
| PltShow.

Inductive save_outcome : Type :=
| Saved
| UnknownFormat        (* ValueError *)
| CannotWrite.         (* OSError *)

Class pyplot_env : Type := {
  savefig_outcome : string -> save_outcome;
  registered_cmap : string -> bool
}.

Fixpoint has_separator (s : string) : bool :=
  match s with
  | EmptyString => false
  | String c s' =>
      Ascii.eqb c "/"%char || Ascii.eqb c "\"%char || has_separator s'
  end.

Definition ends_with (suffix s : string) : bool :=
  String.eqb suffix
    (substring (String.length s - String.length suffix)
               (String.length suffix) s).

Definition plain_png (path : string) : bool :=
  negb (has_separator path) && ends_with ".png" path.

Definition builtin_cmap (name : string) : bool :=
  String.eqb name "gray" || String.eqb name "RdYlGn".

(** The error a call raises, if it raises. *)
Definition call_error {E : pyplot_env} (c : plt_call) : option error :=
  match c with
  | PltSavefig path =>
      if plain_png path then None
      else match savefig_outcome path with
           | Saved => None
           | UnknownFormat => Some ValueError
           | CannotWrite => Some OSError
           end
  | PltImshow _ (CmapName name) _ _ =>
      if builtin_cmap name || registered_cmap name then None
      else Some ValueError
  | _ => None
  end.

(** A run of the script: the store, and the calls on pyplot that have
    returned so far. *)
Record session : Type := mk_session {
  store : world;
  calls : list plt_call
}.

Definition Script (A : Type) : Type := session -> result A * session.

Definition sret {A} (a : A) : Script A := fun s => (Ok a, s).

Definition sbind {A B} (m : Script A) (k : A -> Script B) : Script B :=
  fun s =>
    match m s with
    | (Ok a, s') => k a s'
    | (Err e, s') => (Err e, s')
    end.

Declare Scope script_scope.
Delimit Scope script_scope with script.
Notation "x <- m ;; k" := (sbind m (fun x => k))
  (at level 61, m at next level, right associativity) : script_scope.
Notation "m ;; k" := (sbind m (fun _ => k))
  (at level 61, right associativity) : script_scope.

Definition from_M {A} (m : M A) : Script A :=
  fun s => let (r, w) := m (store s) in (r, mk_session w (calls s)).

Definition slift {A} (r : result A) : Script A := fun s => (r, s).

(** A call on pyplot: it raises, or it returns and is recorded. *)
Definition emit {E : pyplot_env} (c : plt_call) : Script unit :=
  fun s =>
    match call_error c with
    | Some e => (Err e, s)
    | None => (Ok tt, mk_session (store s) (calls s ++ [c]))
    end.

Fixpoint emit_all {E : pyplot_env} (cs : list plt_call) : Script unit :=
  match cs with
  | [] => sret tt
  | c :: cs' => (emit c ;; emit_all cs')%script
  end.

Fixpoint for_each {A} (l : list A) (body : A -> Script unit) : Script unit :=
  match l with
  | [] => sret tt
  | x :: l' => (body x ;; for_each l' body)%script
  end.

(** [str(n)] *)
Definition str_nat (n : nat) : string :=
  NilEmpty.string_of_uint (Nat.to_uint n).

Definition display_original_image {E : pyplot_env}
    (image_path save_path : string) : Script unit :=
  (src <- from_M (rasterio_open image_path) ;;
   emit (PltFigure (8, 8)%Z) ;;
   a <- slift (read_bands src [1; 2; 3]) ;;
   emit (PltImshow (Image3 (transpose_1_2_0 a)) CmapDefault None None) ;;
   emit PltAxisOff ;;
   emit (PltTitle "Original Image") ;;
   emit (PltSavefig save_path) ;;
   emit PltShow)%script.

Definition display_color_channels {E : pyplot_env}
    (image_path save_path : string) : Script unit :=
  (src <- from_M (rasterio_open image_path) ;;
   emit (PltFigure (12, 8)%Z) ;;
   for_each (seq 1 4) (fun i =>
     emit (PltSubplot 2 2 i) ;;
     b <- slift (read src i) ;;
     emit (PltImshow (Image2 b) (CmapName "gray") None None) ;;
     emit (PltTitle ("Channel " ++ str_nat i)) ;;
     emit PltAxisOff) ;;
   emit (PltSuptitle "Color Channels") ;;
   emit (PltSavefig save_path) ;;
   emit PltShow)%script.

Definition display_false_color_image {E : pyplot_env}
    (image_path save_path : string) : Script unit :=
  (src <- from_M (rasterio_open image_path) ;;
   red <- slift (read src 4) ;;
   green <- slift (read src 3) ;;
   blue <- slift (read src 2) ;;
   false_color_image <-
     slift (np_stack_last
              [band_samples red; band_samples green; band_samples blue]) ;;
   emit (PltFigure (8, 8)%Z) ;;
   emit (PltImshow (Image3 false_color_image) CmapDefault None None) ;;
   emit PltAxisOff ;;
   emit (PltTitle "False Color Image") ;;
   emit (PltSavefig save_path) ;;
   emit PltShow)%script.

(** [cmap] is [None] when the caller leaves the argument out. *)
Definition display_ndvi {E : pyplot_env} (ndvi : ndarray float)
    (save_path : string) (cmap : option string) : Script unit :=
  let cmap := match cmap with Some c => c | None => "RdYlGn"%string end in
  (emit (PltFigure (8, 8)%Z) ;;
   emit (PltImshow (Image2 (FloatBand ndvi)) (CmapName cmap) None None) ;;
   emit (PltColorbar "NDVI") ;;
   emit PltAxisOff ;;
   emit (PltTitle "NDVI Visualization") ;;
   emit (PltSavefig save_path) ;;
   emit PltShow)%script.

(** The calls of [apply_ndvi_threshold], in the order of the source. *)
Definition apply_ndvi_threshold_calls (ndvi : ndarray float)
    (threshold : float) (save_path : string) : list plt_call :=
  [PltFigure (8, 8)%Z;
   PltSetBad "gray";
   PltImshow (Image2 (FloatBand ndvi)) CmapBwr (Some (-1)%Z) (Some 1%Z);
   PltColorbar "NDVI";
   PltAxisOff;
   PltTitle "NDVI Threshold";
   PltAxhline F64.half "black" "--";
   PltSavefig save_path;
   PltShow].

(** The body run under [if __name__ == "__main__"]. *)
Definition main {E : pyplot_env} : Script unit :=
  let image_path := "west_campus.tif"%string in
  (display_original_image image_path "original_image.png" ;;
   display_color_channels image_path "color_channels.png" ;;
   display_false_color_image image_path "false_color_image.png" ;;
   l <- from_M (compute_ndvi image_path) ;;
   ndvi <- from_M (load l) ;;
   display_ndvi ndvi "ndvi_visualization.png" None ;;
   emit_all (apply_ndvi_threshold_calls ndvi F64.half "ndvi_threshold.png")
  )%script.

(** *** Reading a list of calls *)

Definition saved_paths (cs : list plt_call) : list string :=
  flat_map (fun c => match c with PltSavefig p => [p] | _ => [] end) cs.

Definition shown_images (cs : list plt_call) : list image :=
  flat_map (fun c => match c with PltImshow i _ _ _ => [i] | _ => [] end) cs.

Definition titles (cs : list plt_call) : list string :=
  flat_map (fun c => match c with PltTitle t => [t] | _ => [] end) cs.

Definition is_figure (c : plt_call) : bool :=
  match c with PltFigure _ => true | _ => false end.

Definition is_show (c : plt_call) : bool :=
  match c with PltShow => true | _ => false end.

(** The calls that draw band [b] as panel [i] of the 2 x 2 grid. *)
Definition panel_calls (i : nat) (b : band) : list plt_call :=
  [PltSubplot 2 2 i;
   PltImshow (Image2 b) (CmapName "gray") None None;
   PltTitle ("Channel " ++ str_nat i);
   PltAxisOff].

(** Calls that open one figure, draw on it, then save it under
    [save_path] and show it, in this order, once each. *)
Definition renders_once (save_path : string) (cs : list plt_call) : Prop :=
  exists size body,
    cs = PltFigure size :: body ++ [PltSavefig save_path; PltShow] /\
    saved_paths body = [] /\
    filter is_figure body = [] /\
    filter is_show body = [].

(** The calls applied one by one to the figure being built, for the calls
    that draw a single image of floating-point values with the colormap
    object [plt.cm.bwr]. *)
Definition replay_call (c : plt_call) (p : pyplot) : option pyplot :=
  match c with
  | PltFigure size => Some (plt_figure size p)
  | PltSetBad color => Some (cmap_set_bad color p)
  | PltImshow (Image2 (FloatBand a)) CmapBwr vmin vmax =>
      Some (plt_imshow a (cm_bwr p) vmin vmax p)
  | PltColorbar label => Some (plt_colorbar label p)
  | PltAxisOff => Some (plt_axis_off p)
  | PltTitle s => Some (plt_title s p)
  | PltAxhline y color style => Some (plt_axhline y color style p)
  | PltSavefig path => Some (plt_savefig path p)
  | PltShow => Some (plt_show p)
  | _ => None
  end.

Fixpoint replay (cs : list plt_call) (p : pyplot) : option pyplot :=
  match cs with
  | [] => Some p
  | c :: cs' =>
      match replay_call c p with
      | Some p' => replay cs' p'
      | None => None
      end
  end.

(** The environment used in the examples: pyplot knows no format but PNG,
    no directory can be written but the working one, and no colormap is
    registered beyond the two the program names.  The format is looked at
    before the file system is. *)
Definition bare_env : pyplot_env :=
  {| savefig_outcome := fun path =>
       if ends_with ".png" path then CannotWrite else UnknownFormat;
     registered_cmap := fun _ => false |}.

(** A raster of three bands only, and the store that holds it under the
    name the script opens. *)
Definition rgb_dataset : dataset :=
  mk_dataset 2 2 [IntBand nir_2x2; IntBand red_2x2; IntBand red_2x2].

Definition rgb_world : world :=
  mk_world [("west_campus.tif"%string, rgb_dataset)] [].

(** * Lists and arrays *)

Section ListFacts.

Context {A B C : Type}.

Lemma zip_with_length (f : A -> B -> C) (l : list A) (m : list B) :
  List.length (zip_with f l m) = Nat.min (List.length l) (List.length m).
Proof.
  revert m; induction l as [|x l IH]; intros [|y m]; simpl; auto.
Qed.

Lemma nth_zip_with (f : A -> B -> C) (l : list A) (m : list B) k dA dB dC :
  k < List.length l -> k < List.length m ->
  nth k (zip_with f l m) dC = f (nth k l dA) (nth k m dB).
Proof.
  revert m k; induction l as [|x l IH]; intros [|y m] [|k]; simpl;
    try lia; auto.
  intros; apply IH; lia.
Qed.

Lemma Forall_zip_with (P : A -> B -> Prop) (Q : C -> Prop)
    (f : A -> B -> C) (l : list A) (m : list B) :
  (forall x y, P x y -> Q (f x y)) ->
  Forall2 P l m -> Forall Q (zip_with f l m).
Proof.
  intros HPQ H; induction H; simpl; constructor; auto.
Qed.

End ListFacts.

Lemma zip_with_fuse {A B C D E : Type} (f : C -> D -> E) (g : A -> B -> C)
    (h : A -> B -> D) (l : list A) (m : list B) :
  zip_with f (zip_with g l m) (zip_with h l m)
  = zip_with (fun x y => f (g x y) (h x y)) l m.
Proof.
  revert m; induction l as [|x l IH]; intros [|y m]; simpl; auto.
  now rewrite IH.
Qed.

Lemma zip_with_flip {A B C : Type} (f : A -> B -> C) (l : list A) (m : list B) :
  zip_with (fun y x => f x y) m l = zip_with f l m.
Proof.
  revert m; induction l as [|x l IH]; intros [|y m]; simpl; auto.
  now rewrite IH.
Qed.

Lemma tabulate_S {A} r c (f : nat -> nat -> A) :
  tabulate (S r) c f
  = map (f 0) (seq 0 c) ++ tabulate r c (fun i => f (S i)).
Proof.
  unfold tabulate; simpl; f_equal.
  rewrite <- seq_shift, !flat_map_concat_map, map_map; reflexivity.
Qed.

Lemma tabulate_length {A} r c (f : nat -> nat -> A) :
  List.length (tabulate r c f) = r * c.
Proof.
  revert f; induction r as [|r IH]; intros f; [reflexivity|].
  rewrite tabulate_S, length_app, length_map, length_seq, IH; lia.
Qed.

Lemma tabulate_ext {A} r c (f g : nat -> nat -> A) :
  (forall i j, i < r -> j < c -> f i j = g i j) ->
  tabulate r c f = tabulate r c g.
Proof.
  revert f g; induction r as [|r IH]; intros f g H; [reflexivity|].
  rewrite !tabulate_S; f_equal.
  - apply map_ext_in; intros j Hj; apply in_seq in Hj; apply H; lia.
  - apply IH; intros; apply H; lia.
Qed.

Lemma map_nth_seq {A} (d : A) (l : list A) c :
  c <= List.length l -> map (fun j => nth j l d) (seq 0 c) = firstn c l.
Proof.
  revert c; induction l as [|x l IH]; intros [|c] H; simpl in *;
    try lia; auto.
  f_equal. rewrite <- seq_shift, map_map. apply IH; lia.
Qed.

Lemma nth_skipn_add {A} (d : A) (l : list A) c k :
  nth (c + k) l d = nth k (skipn c l) d.
Proof.
  revert l; induction c as [|c IH]; intros [|x l]; simpl; auto.
  destruct k; reflexivity.
Qed.

(** Reading a buffer back by row and column gives the buffer. *)
Lemma tabulate_nth {A} (d : A) r c (l : list A) :
  List.length l = r * c ->
  tabulate r c (fun i j => nth (i * c + j) l d) = l.
Proof.
  revert l; induction r as [|r IH]; intros l H.
  - destruct l; [reflexivity | discriminate].
  - rewrite tabulate_S.
    etransitivity; [| apply (firstn_skipn c l)]; f_equal.
    + simpl; apply map_nth_seq; simpl in H; lia.
    + rewrite <- (IH (skipn c l)) by (rewrite length_skipn; simpl in H; lia).
      apply tabulate_ext; intros i j _ _.
      rewrite <- nth_skipn_add; f_equal; simpl; lia.
Qed.

Lemma broadcast_dim_same n : broadcast_dim n n = Some n.
Proof. unfold broadcast_dim; now rewrite Nat.eqb_refl. Qed.

Lemma broadcast_shapes_same s : broadcast_shapes s s = Some s.
Proof.
  unfold broadcast_shapes; rewrite !broadcast_dim_same; now destruct s.
Qed.

Lemma stretch_id n i : i < n -> stretch n i = i.
Proof.
  unfold stretch; destruct (Nat.eqb_spec n 1); lia.
Qed.

(** Broadcasting an array to its own shape leaves it as it is. *)
Lemma broadcast_to_same (a : ndarray float) :
  wf_array a -> broadcast_to a (shape a) = a.
Proof.
  intros H; destruct a as [[r c] l]; unfold wf_array, rows, cols in H.
  simpl in H; unfold broadcast_to, item, rows, cols; simpl; f_equal.
  etransitivity; [| apply (tabulate_nth F64.nan r c l H)].
  apply tabulate_ext; intros i j Hi Hj.
  now rewrite !stretch_id.
Qed.

Lemma binop_same_shape f (a b : ndarray float) :
  wf_array a -> wf_array b -> shape a = shape b ->
  binop f a b = Ok (mk_ndarray (shape a) (zip_with f (data a) (data b))).
Proof.
  intros Ha Hb E; unfold binop.
  rewrite <- E, broadcast_shapes_same, (broadcast_to_same _ Ha).
  rewrite E, (broadcast_to_same _ Hb); reflexivity.
Qed.

Lemma wf_zip_with (f : float -> float -> float) (a b : ndarray float) :
  wf_array a -> wf_array b -> shape a = shape b ->
  wf_array (mk_ndarray (shape a) (zip_with f (data a) (data b))).
Proof.
  unfold wf_array, rows, cols; simpl; intros Ha Hb E.
  rewrite zip_with_length, Ha, Hb, E; lia.
Qed.

(** On grids of one shape the expression is the per-pixel formula. *)
Lemma ndvi_arrays_same_shape (red nir : ndarray float) :
  wf_array red -> wf_array nir -> shape red = shape nir ->
  ndvi_arrays red nir
  = Ok (mk_ndarray (shape red) (zip_with ndvi_pixel (data red) (data nir))).
Proof.
  intros Hr Hn E; unfold ndvi_arrays.
  rewrite !(binop_same_shape _ _ _ Hn Hr (eq_sym E)); simpl.
  rewrite binop_same_shape; simpl; try reflexivity;
    try (apply wf_zip_with; auto).
  rewrite zip_with_fuse, E.
  f_equal; f_equal; exact (zip_with_flip ndvi_pixel (data red) (data nir)).
Qed.

(** On grids of one shape the expression succeeds. *)
Lemma ndvi_arrays_ok (red nir : ndarray float) :
  wf_array red -> wf_array nir -> shape red = shape nir ->
  exists out : ndarray float,
    ndvi_arrays red nir = Ok out /\ shape out = shape red /\ wf_array out.
Proof.
  intros Hr Hn E; eexists; split;
    [apply (ndvi_arrays_same_shape _ _ Hr Hn E)|].
  split; [reflexivity | apply (wf_zip_with ndvi_pixel _ _ Hr Hn E)].
Qed.

Lemma item_ndvi (red nir out : ndarray float) i j :
  wf_array red -> wf_array nir -> shape red = shape nir ->
  ndvi_arrays red nir = Ok out ->
  i < rows red -> j < cols red ->
  item F64.nan out i j
  = ndvi_pixel (item F64.nan red i j) (item F64.nan nir i j).
Proof.
  intros Hr Hn E H Hi Hj.
  rewrite (ndvi_arrays_same_shape _ _ Hr Hn E) in H; injection H as <-.
  unfold item, cols; simpl; rewrite <- E.
  assert (i * snd (shape red) + j < rows red * cols red).
  { unfold rows, cols in *; nia. }
  apply nth_zip_with.
  - now rewrite Hr.
  - rewrite Hn; unfold rows, cols in *; now rewrite <- E.
Qed.

(** * Running compute_ndvi *)

Arguments read : simpl never.
Arguments binop : simpl never.
Arguments astype_float : simpl never.

Lemma nth_error_last {A} (h : list A) a :
  nth_error (h ++ [a]) (List.length h) = Some a.
Proof.
  rewrite nth_error_app2, Nat.sub_diag by lia; reflexivity.
Qed.

Lemma nth_error_keep {A} (h : list A) a l x :
  nth_error h l = Some x -> nth_error (h ++ [a]) l = Some x.
Proof.
  intros H; rewrite nth_error_app1; auto.
  apply nth_error_Some; congruence.
Qed.

Lemma compute_ndvi_effects image_path (w : world) :
  compute_ndvi image_path w
  = (match fst (ndvi_effects (files w) image_path) with
     | Ok _ => Ok (List.length (heap w) + 4)
     | Err e => Err e
     end,
     mk_world (files w) (heap w ++ snd (ndvi_effects (files w) image_path))).
Proof.
  destruct w as [fs h]; unfold compute_ndvi, ndvi_effects; simpl.
  unfold bind at 1; unfold rasterio_open; simpl.
  destruct (lookup_file image_path fs) as [src|]; simpl;
    [| now rewrite app_nil_r].
  unfold bind at 1; unfold lift at 1.
  destruct (read src 3) as [b3|e]; simpl; [| now rewrite app_nil_r].
  unfold bind at 1; unfold alloc at 1; simpl.
  unfold bind at 1; unfold lift at 1.
  destruct (read src 4) as [b4|e]; simpl; [| reflexivity].
  unfold bind at 1; unfold alloc at 1; simpl.
  set (red := astype_float b3); set (nir := astype_float b4).
  unfold bind at 1; unfold np_subtract, np_binop.
  unfold bind at 1; unfold load at 1; simpl.
  rewrite nth_error_last.
  unfold bind at 1; unfold load at 1; simpl.
  rewrite (nth_error_keep _ _ _ _ (nth_error_last h red)).
  unfold bind at 1; unfold lift at 1.
  destruct (binop F64.sub nir red) as [d|e]; simpl;
    [| now rewrite <- app_assoc].
  unfold bind at 1; unfold np_add, np_binop.
  unfold bind at 1; unfold load at 1; simpl.
  rewrite (nth_error_keep _ _ _ _ (nth_error_last _ nir)).
  unfold bind at 1; unfold load at 1; simpl.
  rewrite (nth_error_keep _ _ _ _ (@nth_error_keep _ _ _ _ _ (nth_error_last h red))).
  unfold bind at 1; unfold lift at 1.
  destruct (binop F64.add nir red) as [s|e]; simpl;
    [| now rewrite <- !app_assoc].
  unfold bind at 1; unfold np_true_divide, np_binop.
  unfold bind at 1; unfold load at 1; simpl.
  rewrite (nth_error_keep _ _ _ _ (nth_error_last _ d)).
  unfold bind at 1; unfold load at 1; simpl.
  rewrite nth_error_last.
  unfold bind at 1; unfold lift at 1.
  destruct (binop F64.div d s) as [out|e]; simpl;
    [| now rewrite <- !app_assoc].
  unfold alloc, ret; simpl.
  rewrite !length_app; simpl.
  rewrite <- !app_assoc; simpl.
  f_equal; f_equal; lia.
Qed.

Lemma astype_float_spec (b : band) :
  astype_float b = mk_ndarray (band_shape b) (samples_as_float b).
Proof.
  destruct b as [a|a]; unfold astype_float, amap; simpl; [reflexivity|].
  now rewrite map_id.
Qed.

Lemma wf_astype_float h w (b : band) :
  wf_band h w b -> wf_array (astype_float b) /\ shape (astype_float b) = (h, w).
Proof.
  intros [Hs Hw]; rewrite astype_float_spec; split; [| exact Hs].
  destruct b as [a|a]; unfold wf_array, rows, cols in *; simpl in *;
    [rewrite length_map |]; exact Hw.
Qed.

Lemma read_band src k b :
  nth_error (bands src) k = Some b -> read src (S k) = Ok b.
Proof. unfold read; now intros ->. Qed.

Lemma wf_read src k b :
  wf_dataset src -> read src k = Ok b -> wf_band (height src) (width src) b.
Proof.
  unfold read, wf_dataset; intros H; destruct k as [|k]; [discriminate|].
  destruct (nth_error (bands src) k) as [b'|] eqn:E; [| discriminate].
  intros [= <-]; apply nth_error_In in E.
  rewrite Forall_forall in H; auto.
Qed.

(** When both reads succeed on a well-formed raster, the effects are the
    three element-wise operations on two grids of the raster's shape. *)
Lemma ndvi_effects_ok fs image_path src b3 b4 :
  lookup_file image_path fs = Some src ->
  wf_dataset src ->
  read src 3 = Ok b3 -> read src 4 = Ok b4 ->
  let red := astype_float b3 in
  let nir := astype_float b4 in
  let d := mk_ndarray (shape nir) (zip_with F64.sub (data nir) (data red)) in
  let s := mk_ndarray (shape nir) (zip_with F64.add (data nir) (data red)) in
  ndvi_effects fs image_path
  = (Ok (spec_ndvi b3 b4), [red; nir; d; s; spec_ndvi b3 b4]).
Proof.
  intros Hf Hwf H3 H4 red nir d s; unfold ndvi_effects.
  rewrite Hf, H3, H4; fold red nir.
  destruct (wf_astype_float _ _ _ (wf_read _ _ _ Hwf H3)) as [Wr Sr].
  destruct (wf_astype_float _ _ _ (wf_read _ _ _ Hwf H4)) as [Wn Sn].
  fold red in Wr, Sr; fold nir in Wn, Sn.
  assert (E : shape nir = shape red) by congruence.
  rewrite !(binop_same_shape _ _ _ Wn Wr E); fold d s.
  rewrite binop_same_shape; try (apply wf_zip_with; auto); try reflexivity.
  assert (Es : mk_ndarray (shape d)
                 (zip_with F64.div (data d) (data s)) = spec_ndvi b3 b4).
  { unfold spec_ndvi, d, s; simpl; rewrite zip_with_fuse.
    unfold red, nir; rewrite !astype_float_spec; simpl.
    f_equal.
    - unfold red, nir in Sr, Sn; rewrite astype_float_spec in Sr, Sn;
      simpl in *; congruence.
    - exact (zip_with_flip
               (fun r n => F64.div (F64.sub n r) (F64.add n r))
               (samples_as_float b3) (samples_as_float b4)). }
  now rewrite Es.
Qed.

(** * Rounding in binary64

    What the claims need of IEEE arithmetic, derived from the definitions
    of [SpecFloat]: how many digits a mantissa has, what the right shifts
    of the rounding step keep, and how the result of a rounding compares
    with the number rounded. *)

Module Rounding.

Local Open Scope Z_scope.
Import F64.

Lemma digits_pos_bounds (p : positive) :
  2 ^ (Zpos (digits2_pos p) - 1) <= Zpos p < 2 ^ Zpos (digits2_pos p).
Proof.
  induction p as [p IH|p IH|]; simpl digits2_pos.
  - rewrite Pos2Z.inj_succ.
    replace (Z.succ (Zpos (digits2_pos p)) - 1) with (Zpos (digits2_pos p)) by lia.
    rewrite Z.pow_succ_r by lia.
    replace (2 ^ Zpos (digits2_pos p)) with (2 * 2 ^ (Zpos (digits2_pos p) - 1)) in *
      by (rewrite <- Z.pow_succ_r by lia; f_equal; lia).
    lia.
  - rewrite Pos2Z.inj_succ.
    replace (Z.succ (Zpos (digits2_pos p)) - 1) with (Zpos (digits2_pos p)) by lia.
    rewrite Z.pow_succ_r by lia.
    replace (2 ^ Zpos (digits2_pos p)) with (2 * 2 ^ (Zpos (digits2_pos p) - 1)) in *
      by (rewrite <- Z.pow_succ_r by lia; f_equal; lia).
    lia.
  - simpl. lia.
Qed.

Lemma digits_bounds (m : Z) :
  0 < m -> 0 < digits m /\ 2 ^ (digits m - 1) <= m < 2 ^ digits m.
Proof.
  destruct m as [|p|p]; try lia; intros _; simpl; split; [lia|].
  apply digits_pos_bounds.
Qed.

Lemma digits_nonneg m : 0 <= digits m.
Proof. destruct m; simpl; lia. Qed.

Lemma pow2_lt_inv a b : 0 <= b -> 2 ^ a < 2 ^ b -> a < b.
Proof.
  intros Hb H; destruct (Z.lt_ge_cases a b) as [|G]; auto.
  apply (Z.pow_le_mono_r 2) in G; lia.
Qed.

(** The number of digits is determined by the binade. *)
Lemma digits_unique m d :
  0 < d -> 2 ^ (d - 1) <= m < 2 ^ d -> digits m = d.
Proof.
  intros Hd [L U].
  assert (0 < m) by (pose proof (Z.pow_pos_nonneg 2 (d - 1)); lia).
  destruct (digits_bounds m H) as [Hp [L' U']].
  assert (d - 1 < digits m) by (apply pow2_lt_inv; lia).
  assert (digits m - 1 < d) by (apply pow2_lt_inv; lia).
  lia.
Qed.

Lemma digits_le m n : 0 < m -> m <= n -> digits m <= digits n.
Proof.
  intros Hm Hn.
  destruct (digits_bounds m Hm) as [_ [L _]].
  destruct (digits_bounds n ltac:(lia)) as [Hp [_ U]].
  assert (digits m - 1 < digits n) by (apply pow2_lt_inv; lia).
  lia.
Qed.

Lemma digits_mul_pow2 m k :
  0 < m -> 0 <= k -> digits (m * 2 ^ k) = digits m + k.
Proof.
  intros Hm Hk; destruct (digits_bounds m Hm) as [Hp [L U]].
  apply digits_unique; [lia|].
  replace (digits m + k - 1) with (digits m - 1 + k) by lia.
  rewrite !Z.pow_add_r by lia.
  pose proof (Z.pow_pos_nonneg 2 k); nia.
Qed.

Lemma digits_div_pow2 m k :
  0 <= k -> 2 ^ k <= m -> digits (m / 2 ^ k) = digits m - k.
Proof.
  intros Hk Hm.
  assert (P : 0 < 2 ^ k) by (apply Z.pow_pos_nonneg; lia).
  destruct (digits_bounds m ltac:(lia)) as [Hp [L U]].
  assert (k < digits m) by (apply pow2_lt_inv; lia).
  apply digits_unique; [lia|]; split.
  - apply Z.div_le_lower_bound; [lia|].
    rewrite <- Z.pow_add_r by lia.
    replace (k + (digits m - k - 1)) with (digits m - 1) by lia; lia.
  - apply Z.div_lt_upper_bound; [lia|].
    rewrite <- Z.pow_add_r by lia.
    replace (k + (digits m - k)) with (digits m) by lia; lia.
Qed.

(** ** Right shifts with a round bit and a sticky bit *)

Lemma iter_pos_nat {A} (f : A -> A) (p : positive) (x : A) :
  iter_pos f p x = Nat.iter (Pos.to_nat p) f x.
Proof.
  revert x; induction p as [p IH|p IH|]; intros x; simpl iter_pos.
  - rewrite !IH, Pos2Nat.inj_xI.
    replace (S (2 * Pos.to_nat p))%nat
      with (Pos.to_nat p + (Pos.to_nat p + 1))%nat by lia.
    rewrite !Nat.iter_add; reflexivity.
  - rewrite !IH, Pos2Nat.inj_xO.
    replace (2 * Pos.to_nat p)%nat with (Pos.to_nat p + Pos.to_nat p)%nat by lia.
    rewrite Nat.iter_add; reflexivity.
  - reflexivity.
Qed.

Lemma shr_1_nonneg m r s :
  0 <= m ->
  shr_1 (Build_shr_record m r s) = Build_shr_record (m / 2) (Z.odd m) (r || s).
Proof.
  intros Hm; destruct m as [|[p|p|]|p]; try lia; simpl shr_1; f_equal.
  - apply (Z.div_unique_pos _ _ _ 1); lia.
  - apply (Z.div_unique_pos _ _ _ 0); lia.
Qed.

Lemma mod_pow2_succ m j :
  0 <= j -> m mod 2 ^ (j + 1) = m mod 2 ^ j + 2 ^ j * ((m / 2 ^ j) mod 2).
Proof.
  intros Hj; rewrite Z.pow_add_r, Z.pow_1_r by lia.
  rewrite Z.rem_mul_r by (try apply Z.pow_nonzero; lia); reflexivity.
Qed.

Lemma iter_shr_1 m r s (j : nat) :
  0 <= m ->
  shifted m r s (Z.of_nat j) (Nat.iter j shr_1 (Build_shr_record m r s)).
Proof.
  intros Hm; induction j as [|j IH].
  - simpl; unfold shifted; simpl shr_m; simpl shr_r; simpl shr_s.
    rewrite Z.div_1_r, Z.mod_1_r; repeat split; auto.
  - rewrite Nat2Z.inj_succ, <- Z.add_1_r; simpl Nat.iter.
    destruct (Nat.iter j shr_1 _) as [m' r' s'].
    destruct IH as [Em [Hi He]]; simpl in Em, Hi, He.
    assert (P : 0 < 2 ^ Z.of_nat j) by (apply Z.pow_pos_nonneg; lia).
    assert (0 <= m') by (subst m'; apply Z.div_pos; lia).
    rewrite shr_1_nonneg by assumption.
    unfold shifted; simpl shr_m; simpl shr_r; simpl shr_s.
    pose proof (mod_pow2_succ m (Z.of_nat j) ltac:(lia)) as Hmod.
    pose proof (Z.mod_pos_bound m (2 ^ Z.of_nat j) P) as Hb.
    pose proof (Z.mod_pos_bound (m / 2 ^ Z.of_nat j) 2 ltac:(lia)) as Hb2.
    rewrite <- Em in Hmod, Hb2.
    assert (Ho : Z.odd m' = true <-> m' mod 2 = 1).
    { rewrite Zmod_odd; destruct (Z.odd m'); split; intros; auto; discriminate. }
    repeat split.
    + subst m'; rewrite Z.pow_add_r, Z.pow_1_r, Z.div_div by lia; reflexivity.
    + intros X; apply orb_true_iff in X; destruct X as [X|X].
      * right; apply Ho in X; nia.
      * destruct (Hi X) as [?|?]; [now left | right; nia].
    + intros H0 H1.
      assert (H2 : m mod 2 ^ Z.of_nat j = 0) by nia.
      assert (H3 : m' mod 2 = 0) by nia.
      rewrite (He H0 H2).
      destruct (Z.odd m') eqn:E; [| reflexivity].
      destruct Ho as [Ho _]; specialize (Ho eq_refl); lia.
Qed.

Lemma shr_spec m r s e n :
  0 <= m ->
  let k := Z.max n 0 in
  snd (shr (Build_shr_record m r s) e n) = e + k /\
  shifted m r s k (fst (shr (Build_shr_record m r s) e n)).
Proof.
  intros Hm k; unfold shr; destruct n as [|p|p]; simpl fst; simpl snd.
  - split; [unfold k; lia|].
    unfold k; simpl Z.max.
    apply (iter_shr_1 m r s 0 Hm).
  - split; [unfold k; lia|].
    rewrite iter_pos_nat.
    replace k with (Z.of_nat (Pos.to_nat p)) by (unfold k; lia).
    apply iter_shr_1; assumption.
  - split; [unfold k; lia|].
    unfold k; simpl Z.max.
    apply (iter_shr_1 m r s 0 Hm).
Qed.

(** ** The rounding step *)

Lemma fexp_eq e : fexp e = Z.max (e - 53) (-1074).
Proof. reflexivity. Qed.

Lemma fexp_le a b : a <= b -> fexp a <= fexp b.
Proof. rewrite !fexp_eq; lia. Qed.

Lemma shr_record_of_loc_bits m l :
  exists r s, shr_record_of_loc m l = Build_shr_record m r s /\
              (r || s = negb (loc_exact l)).
Proof.
  destruct l as [|[]]; simpl; eauto.
Qed.

Lemma round_nearest_even_cases m (x : shr_record) :
  shr_m x = m ->
  let m1 := round_nearest_even (shr_m x) (loc_of_shr_record x) in
  m <= m1 <= m + 1 /\
  (m1 = m + 1 -> shr_r x || shr_s x = true) /\
  (shr_r x || shr_s x = false -> m1 = m).
Proof.
  intros <-; destruct x as [m [] []]; simpl; try destruct (Z.even m);
    repeat split; intros; try lia; auto.
Qed.

(** The result of rounding a non-negative mantissa, read off the two
    shifts: [m1] is the mantissa after the first shift and the rounding. *)
Lemma binary_round_aux_spec sx m e l :
  0 <= m ->
  let t := Z.max e (fexp (digits m + e)) in
  let m0 := m / 2 ^ (t - e) in
  exists m1,
    m0 <= m1 <= m0 + 1 /\
    (m1 = m0 + 1 -> loc_exact l = false \/ m mod 2 ^ (t - e) <> 0) /\
    (loc_exact l = true -> m mod 2 ^ (t - e) = 0 -> m1 = m0) /\
    let t2 := Z.max t (fexp (digits m1 + t)) in
    binary_round_aux F64.prec F64.emax sx m e l
    = match m1 / 2 ^ (t2 - t) with
      | Z0 => S754_zero sx
      | Zpos p =>
          if t2 <=? F64.emax - F64.prec then S754_finite sx p t2
          else S754_infinity sx
      | Zneg _ => S754_nan
      end.
Proof.
  intros Hm t m0; unfold binary_round_aux, shr_fexp.
  destruct (shr_record_of_loc_bits m l) as [r [s [-> Hrs]]].
  fold (digits m); fold (fexp (digits m + e)).
  pose proof (shr_spec m r s e (fexp (digits m + e) - e) Hm) as H.
  destruct (shr _ e _) as [x e1]; simpl in H; destruct H as [He1 [Hx [Hi Hz]]].
  replace (Z.max (fexp (digits m + e) - e) 0) with (t - e) in *
    by (unfold t; lia).
  replace (e + (t - e)) with t in He1 by lia; subst e1.
  fold m0 in Hx.
  destruct (round_nearest_even_cases m0 x Hx) as [Hb [Hup Hsame]].
  set (m1 := round_nearest_even (shr_m x) (loc_of_shr_record x)) in *.
  exists m1; split; [exact Hb|]; split; [| split].
  - intros E; destruct (Hi (Hup E)) as [X|X]; [left | now right].
    rewrite Hrs in X; now destruct (loc_exact l).
  - intros El Emod; apply Hsame, Hz; auto.
    rewrite Hrs, El; reflexivity.
  - cbv zeta; set (t2 := Z.max t (fexp (digits m1 + t))).
    assert (0 <= m0) by (apply Z.div_pos; [lia | apply Z.pow_pos_nonneg; unfold t; lia]).
    unfold shr_record_of_loc.
    fold (digits m1); fold (fexp (digits m1 + t)).
    pose proof (shr_spec m1 false false t (fexp (digits m1 + t) - t) ltac:(lia)) as H2.
    destruct (shr _ t _) as [y e2]; simpl in H2; destruct H2 as [He2 [Hy _]].
    replace (Z.max (fexp (digits m1 + t) - t) 0) with (t2 - t) in *
      by (unfold t2; lia).
    replace (t + (t2 - t)) with t2 in He2 by lia; subst e2.
    rewrite Hy; reflexivity.
Qed.

Lemma digits_pow2 k : 0 <= k -> digits (2 ^ k) = k + 1.
Proof.
  intros Hk; apply digits_unique; [lia|].
  replace (k + 1 - 1) with k by lia; split; [lia|].
  apply Z.pow_lt_mono_r; lia.
Qed.

(** A mantissa below a power of two has at most that many digits. *)
Lemma digits_le_pow2 m k : 0 <= m -> 0 <= k -> m <= 2 ^ k -> digits m <= k + 1.
Proof.
  intros Hm Hk H; destruct (Z.eq_dec m 0) as [->|N]; [simpl; lia|].
  rewrite <- (digits_pow2 k Hk); apply digits_le; lia.
Qed.

(** ** Quotients that do not exceed one *)

Lemma round_aux_le_one sx q e l :
  0 <= q -> e <= -53 -> q <= 2 ^ (- e) ->
  (q = 2 ^ (- e) -> loc_exact l = true) ->
  le_one (binary_round_aux F64.prec F64.emax sx q e l).
Proof.
  intros Hq He Hle Hex.
  destruct (binary_round_aux_spec sx q e l Hq) as [m1 [Hb [Hup [_ ->]]]].
  set (t := Z.max e (fexp (digits q + e))) in *.
  set (m0 := q / 2 ^ (t - e)) in *.
  assert (Dq : digits q <= - e + 1) by (apply digits_le_pow2; lia).
  assert (Ht : t <= -52).
  { unfold t; pose proof (fexp_le (digits q + e) 1 ltac:(lia)) as F.
    rewrite (fexp_eq 1) in F; lia. }
  assert (Hte : e <= t) by (unfold t; lia).
  assert (P : 0 < 2 ^ (t - e)) by (apply Z.pow_pos_nonneg; lia).
  assert (Esplit : 2 ^ (- e) = 2 ^ (- t) * 2 ^ (t - e)).
  { rewrite <- Z.pow_add_r by lia; f_equal; lia. }
  assert (H0 : 0 <= m0) by (apply Z.div_pos; lia).
  assert (Hm0 : m0 <= 2 ^ (- t)).
  { unfold m0; apply Z.div_le_upper_bound; [lia|]; rewrite Esplit in Hle; lia. }
  assert (Hm1 : m1 <= 2 ^ (- t)).
  { destruct (Z.eq_dec m1 (m0 + 1)) as [E|E]; [| lia].
    destruct (Z.eq_dec m0 (2 ^ (- t))) as [E0|E0]; [| lia].
    exfalso.
    pose proof (Z.mul_div_le q (2 ^ (t - e)) P) as Hd; fold m0 in Hd.
    assert (Eq : q = 2 ^ (- e)) by nia.
    destruct (Hup E) as [X|X].
    - rewrite (Hex Eq) in X; discriminate.
    - apply X; rewrite Eq, Esplit; apply Z.mod_mul; lia. }
  set (t2 := Z.max t (fexp (digits m1 + t))).
  assert (D1 : digits m1 <= - t + 1) by (apply digits_le_pow2; lia).
  assert (Ht2 : t2 <= -52).
  { unfold t2; pose proof (fexp_le (digits m1 + t) 1 ltac:(lia)) as F.
    rewrite (fexp_eq 1) in F; lia. }
  assert (Htt : t <= t2) by (unfold t2; lia).
  assert (P2 : 0 < 2 ^ (t2 - t)) by (apply Z.pow_pos_nonneg; lia).
  assert (Hm2 : m1 / 2 ^ (t2 - t) <= 2 ^ (- t2)).
  { apply Z.div_le_upper_bound; [lia|].
    rewrite <- Z.pow_add_r by lia.
    replace (t2 - t + - t2) with (- t) by lia; exact Hm1. }
  assert (0 <= m1 / 2 ^ (t2 - t)) by (apply Z.div_pos; lia).
  destruct (m1 / 2 ^ (t2 - t)) as [|p|p] eqn:E2; simpl; auto; try lia.
  destruct (Z.leb_spec t2 971); [| lia].
  unfold le_one; split; lia.
Qed.

(** ** Comparing values [m * 2^e] without leaving the integers *)

Lemma vle_intro c m1 e1 m2 e2 :
  c <= e1 -> c <= e2 ->
  m1 * 2 ^ (e1 - c) <= m2 * 2 ^ (e2 - c) -> vle m1 e1 m2 e2.
Proof.
  intros H1 H2 H c' H1' H2'.
  set (c0 := Z.min c c').
  assert (P : 0 < 2 ^ (c - c0)) by (apply Z.pow_pos_nonneg; unfold c0; lia).
  assert (P' : 0 < 2 ^ (c' - c0)) by (apply Z.pow_pos_nonneg; unfold c0; lia).
  assert (X : m1 * 2 ^ (e1 - c0) <= m2 * 2 ^ (e2 - c0)).
  { replace (e1 - c0) with (e1 - c + (c - c0)) by lia.
    replace (e2 - c0) with (e2 - c + (c - c0)) by lia.
    rewrite !Z.pow_add_r by (unfold c0; lia); nia. }
  replace (e1 - c0) with (e1 - c' + (c' - c0)) in X by lia.
  replace (e2 - c0) with (e2 - c' + (c' - c0)) in X by lia.
  rewrite !Z.pow_add_r in X by (unfold c0; lia); nia.
Qed.

Lemma vle_trans m1 e1 m2 e2 m3 e3 :
  vle m1 e1 m2 e2 -> vle m2 e2 m3 e3 -> vle m1 e1 m3 e3.
Proof.
  intros H12 H23.
  apply (vle_intro (Z.min e1 (Z.min e2 e3))); try lia.
  etransitivity; [apply H12 | apply H23]; lia.
Qed.

Lemma vle_digits m1 e1 m2 e2 :
  0 < m1 -> 0 < m2 -> vle m1 e1 m2 e2 -> digits m1 + e1 <= digits m2 + e2.
Proof.
  intros H1 H2 H; specialize (H (Z.min e1 e2) ltac:(lia) ltac:(lia)).
  assert (0 < 2 ^ (e1 - Z.min e1 e2)) by (apply Z.pow_pos_nonneg; lia).
  apply digits_le in H; [| nia].
  rewrite !digits_mul_pow2 in H by lia; lia.
Qed.

(** ** Division *)

Lemma new_location_exact n k : loc_exact (new_location n k) = (k =? 0).
Proof.
  unfold new_location, new_location_even, new_location_odd.
  destruct (Z.even n), (k =? 0); reflexivity.
Qed.

Lemma div_eucl_div_mod a b : Z.div_eucl a b = (a / b, a mod b).
Proof.
  unfold Z.div, Z.modulo; destruct (Z.div_eucl a b); reflexivity.
Qed.

Lemma SFdiv_core_binary_spec m1 e1 m2 e2 :
  0 < m1 ->
  let e' := Z.min (fexp (digits m1 + e1 - (digits m2 + e2))) (e1 - e2) in
  let m' := m1 * 2 ^ (e1 - e2 - e') in
  SFdiv_core_binary F64.prec F64.emax m1 e1 m2 e2
  = (m' / m2, e', new_location m2 (m' mod m2)).
Proof.
  intros H1 e' m'; unfold SFdiv_core_binary.
  fold (digits m1) (digits m2).
  fold (fexp (digits m1 + e1 - (digits m2 + e2))); fold e'.
  assert (Hs : 0 <= e1 - e2 - e') by (unfold e'; lia).
  assert (E : match e1 - e2 - e' with
              | Z0 => m1
              | Zpos _ => Z.shiftl m1 (e1 - e2 - e')
              | Zneg _ => 0
              end = m').
  { unfold m'; destruct (e1 - e2 - e') as [|p|p] eqn:Es; try lia.
    rewrite Z.shiftl_mul_pow2 by lia; reflexivity. }
  rewrite E, div_eucl_div_mod; reflexivity.
Qed.

(** A quotient of two finite numbers, the first not larger than the
    second in magnitude, is at most one in magnitude. *)
Lemma div_le_one sx mx ex sy my ey :
  vle (Zpos mx) ex (Zpos my) ey ->
  le_one (SFdiv F64.prec F64.emax (S754_finite sx mx ex) (S754_finite sy my ey)).
Proof.
  intros H; unfold SFdiv.
  rewrite SFdiv_core_binary_spec by lia.
  set (e' := Z.min (fexp (digits (Zpos mx) + ex - (digits (Zpos my) + ey)))
                   (ex - ey)).
  set (m' := Zpos mx * 2 ^ (ex - ey - e')).
  pose proof (vle_digits (Zpos mx) ex (Zpos my) ey ltac:(lia) ltac:(lia) H)
    as Hd.
  assert (He : e' <= -53).
  { unfold e'.
    pose proof (fexp_le (digits (Zpos mx) + ex - (digits (Zpos my) + ey)) 0
                  ltac:(lia)) as F.
    rewrite (fexp_eq 0) in F; lia. }
  assert (Hs : 0 <= ex - ey - e') by (unfold e'; lia).
  assert (Hm : m' <= Zpos my * 2 ^ (- e')).
  { specialize (H (ey + e') ltac:(lia) ltac:(lia)).
    unfold m'.
    replace (ex - (ey + e')) with (ex - ey - e') in H by lia.
    replace (ey - (ey + e')) with (- e') in H by lia; exact H. }
  assert (0 < 2 ^ (ex - ey - e')) by (apply Z.pow_pos_nonneg; lia).
  assert (0 < m') by (unfold m'; nia).
  apply round_aux_le_one.
  - apply Z.div_pos; lia.
  - exact He.
  - apply Z.div_le_upper_bound; lia.
  - intros Eq; rewrite new_location_exact; apply Z.eqb_eq.
    pose proof (Z.div_mod m' (Zpos my) ltac:(lia)) as Dm.
    pose proof (Z.mod_pos_bound m' (Zpos my) ltac:(lia)).
    rewrite Eq in Dm; lia.
Qed.

Lemma le_one_in_unit_interval (z : spec_float) :
  le_one z ->
  SFleb (SFopp (S754_finite false 4503599627370496 (-52))) z
  && SFleb z (S754_finite false 4503599627370496 (-52)) = true.
Proof.
  destruct z as [s|s| |s m t]; simpl; try tauto.
  intros [Ht Hm]; unfold SFleb, SFcompare; simpl negb.
  destruct s.
  - destruct (Z.compare_spec (-52) t) as [E|E|E];
      try reflexivity; try lia.
    subst t; change (2 ^ (- -52)) with 4503599627370496 in Hm.
    rewrite Pos.compare_cont_spec; simpl.
    destruct (Pos.compare_spec 4503599627370496 m) as [E|E|E];
      try reflexivity; lia.
  - destruct (Z.compare_spec t (-52)) as [E|E|E];
      try reflexivity; try lia.
    subst t; change (2 ^ (- -52)) with 4503599627370496 in Hm.
    rewrite Pos.compare_cont_spec; simpl.
    destruct (Pos.compare_spec m 4503599627370496) as [E|E|E];
      try reflexivity; lia.
Qed.

(** ** Rounding an integer mantissa: addition and subtraction *)

Lemma pos_iter_xO m d : Zpos (Pos.iter xO m d) = Zpos m * 2 ^ Zpos d.
Proof.
  induction d as [|d IH] using Pos.peano_ind.
  - simpl; lia.
  - rewrite Pos.iter_succ, Pos2Z.inj_xO, IH, Pos2Z.inj_succ.
    rewrite Z.pow_succ_r by lia; lia.
Qed.

Lemma shl_align_spec mx ex ex' :
  snd (shl_align mx ex ex') = Z.min ex ex' /\
  Zpos (fst (shl_align mx ex ex'))
  = Zpos mx * 2 ^ (ex - Z.min ex ex').
Proof.
  unfold shl_align; destruct (ex' - ex) as [|d|d] eqn:E; simpl fst; simpl snd.
  - replace (Z.min ex ex') with ex by lia.
    rewrite Z.sub_diag, Z.pow_0_r; lia.
  - replace (Z.min ex ex') with ex by lia.
    rewrite Z.sub_diag, Z.pow_0_r; lia.
  - replace (Z.min ex ex') with ex' by lia.
    split; [reflexivity|].
    rewrite pos_iter_xO; replace (ex - ex') with (Zpos d) by lia; reflexivity.
Qed.

(** When the mantissa fits, rounding only changes the representation. *)
Lemma binary_round_exact sx p e :
  let f := fexp (digits (Zpos p) + e) in
  f <= e ->
  exists m,
    Zpos m = Zpos p * 2 ^ (e - f) /\
    binary_round F64.prec F64.emax sx p e
    = if f <=? 971 then S754_finite sx m f else S754_infinity sx.
Proof.
  intros f Hf; unfold binary_round.
  change (Zpos (digits2_pos p)) with (digits (Zpos p)).
  fold (fexp (digits (Zpos p) + e)); fold f.
  destruct (shl_align_spec p e f) as [Ez Em].
  destruct (shl_align p e f) as [mz ez]; cbn [fst snd] in Ez, Em.
  replace (Z.min e f) with f in * by lia; subst ez.
  exists mz; split; [exact Em|].
  destruct (binary_round_aux_spec sx (Zpos mz) f loc_Exact ltac:(lia))
    as [m1 [Hb [_ [Hex ->]]]].
  assert (Dz : digits (Zpos mz) + f = digits (Zpos p) + e).
  { rewrite Em, digits_mul_pow2 by lia; lia. }
  rewrite Dz in *; fold f in Hb, Hex |- *.
  replace (Z.max f f) with f in * by lia.
  rewrite Z.sub_diag, Z.pow_0_r, Z.div_1_r in *.
  rewrite (Hex eq_refl (Z.mod_1_r _)).
  rewrite Dz; fold f.
  replace (Z.max f f) with f by lia.
  rewrite Z.sub_diag, Z.pow_0_r, Z.div_1_r; reflexivity.
Qed.

(** When it does not fit, the mantissa is cut down to 53 digits, rounded
    up or down by one unit, and renormalised if that carried. *)
Lemma binary_round_inexact sx p e :
  -1074 <= e ->
  e < fexp (digits (Zpos p) + e) ->
  let k := digits (Zpos p) - 53 in
  let f := e + k in
  let m0 := Zpos p / 2 ^ k in
  0 < k /\ 2 ^ 52 <= m0 < 2 ^ 53 /\
  exists m1,
    m0 <= m1 <= m0 + 1 /\
    (m1 = m0 + 1 -> Zpos p mod 2 ^ k <> 0) /\
    binary_round F64.prec F64.emax sx p e
    = if m1 <? 2 ^ 53
      then (if f <=? 971 then S754_finite sx (Z.to_pos m1) f
            else S754_infinity sx)
      else (if f + 1 <=? 971 then S754_finite sx (Z.to_pos (2 ^ 52)) (f + 1)
            else S754_infinity sx).
Proof.
  intros He Hf k f m0.
  assert (Ef : fexp (digits (Zpos p) + e) = f).
  { rewrite fexp_eq in Hf |- *; unfold f, k; lia. }
  assert (Hk : 0 < k) by (rewrite Ef in Hf; unfold f in Hf; lia).
  destruct (digits_bounds (Zpos p) ltac:(lia)) as [_ [Lp Up]].
  assert (P : 0 < 2 ^ k) by (apply Z.pow_pos_nonneg; lia).
  assert (Pk : 2 ^ k <= Zpos p).
  { etransitivity; [| exact Lp]; apply Z.pow_le_mono_r; unfold k; lia. }
  assert (D0 : digits m0 = 53).
  { unfold m0; rewrite digits_div_pow2 by lia; unfold k; lia. }
  assert (B0 : 2 ^ 52 <= m0 < 2 ^ 53).
  { assert (0 < m0).
    { unfold m0; apply Z.div_str_pos; lia. }
    destruct (digits_bounds m0 ltac:(lia)) as [_ X]; rewrite D0 in X; exact X. }
  split; [exact Hk|]; split; [exact B0|].
  unfold binary_round.
  change (Zpos (digits2_pos p)) with (digits (Zpos p)).
  fold (fexp (digits (Zpos p) + e)); rewrite Ef.
  destruct (shl_align_spec p e f) as [Ez Em].
  destruct (shl_align p e f) as [mz ez]; cbn [fst snd] in Ez, Em.
  replace (Z.min e f) with e in * by (unfold f; lia); subst ez.
  rewrite Z.sub_diag, Z.pow_0_r, Z.mul_1_r in Em.
  injection Em as ->.
  destruct (binary_round_aux_spec sx (Zpos p) e loc_Exact ltac:(lia))
    as [m1 [Hb [Hup [_ ->]]]].
  rewrite Ef in *.
  replace (Z.max e f) with f in * by (unfold f; lia).
  replace (f - e) with k in * by (unfold f; lia).
  fold m0 in Hb, Hup.
  exists m1; split; [exact Hb|]; split.
  { intros E; destruct (Hup E) as [X|X]; [discriminate | exact X]. }
  destruct (Z.ltb_spec m1 (2 ^ 53)) as [Lt|Ge].
  - assert (D1 : digits m1 = 53) by (apply digits_unique; lia).
    rewrite D1.
    replace (fexp (53 + f)) with f by (rewrite fexp_eq; unfold f; lia).
    replace (Z.max f f) with f by lia.
    rewrite Z.sub_diag, Z.pow_0_r, Z.div_1_r.
    destruct m1 as [|q|q]; try lia; reflexivity.
  - assert (E1 : m1 = 2 ^ 53) by lia.
    rewrite E1, (digits_pow2 53) by lia.
    replace (fexp (53 + 1 + f)) with (f + 1)
      by (rewrite fexp_eq; unfold f; lia).
    replace (Z.max f (f + 1)) with (f + 1) by lia.
    replace (f + 1 - f) with 1 by lia.
    reflexivity.
Qed.

Lemma canonical_digits m e : canonical m e -> digits m <= 53 /\ -1074 <= e.
Proof. unfold canonical; rewrite fexp_eq; lia. Qed.

(** Rounding [p * 2^e] gives [V * 2^e] for an integer [V] that no
    representable number separates from [p]. *)
Lemma binary_round_spec sx p e :
  -1074 <= e ->
  exists m t V,
    binary_round F64.prec F64.emax sx p e
    = (if t <=? 971 then S754_finite sx m t else S754_infinity sx) /\
    canonical (Zpos m) t /\ 0 < V /\
    Zpos m * 2 ^ (t - Z.min t e) = V * 2 ^ (e - Z.min t e) /\
    (forall mR eR, 0 < mR -> e <= eR -> canonical mR eR ->
       Zpos p <= mR * 2 ^ (eR - e) -> V <= mR * 2 ^ (eR - e)) /\
    (forall mR eR, 0 < mR -> e <= eR -> canonical mR eR ->
       mR * 2 ^ (eR - e) <= Zpos p -> mR * 2 ^ (eR - e) <= V).
Proof.
  intros He.
  destruct (Z.le_gt_cases (fexp (digits (Zpos p) + e)) e) as [Hf|Hf].
  - destruct (binary_round_exact sx p e Hf) as [m [Em ->]].
    set (f := fexp (digits (Zpos p) + e)) in *.
    exists m, f, (Zpos p); split; [reflexivity|]; split; [| split; [lia|]].
    { unfold canonical; rewrite Em, digits_mul_pow2 by lia.
      replace (digits (Zpos p) + (e - f) + f) with (digits (Zpos p) + e) by lia.
      reflexivity. }
    split; [| split; auto].
    replace (Z.min f e) with f by lia.
    rewrite Z.sub_diag, Z.pow_0_r; lia.
  - destruct (binary_round_inexact sx p e He ltac:(lia))
      as [Hk [B0 [m1 [Hb [Hup ->]]]]].
    set (k := digits (Zpos p) - 53) in *.
    set (m0 := Zpos p / 2 ^ k) in *.
    assert (P : 0 < 2 ^ k) by (apply Z.pow_pos_nonneg; lia).
    pose proof (Z.div_mod (Zpos p) (2 ^ k) ltac:(lia)) as Dm; fold m0 in Dm.
    pose proof (Z.mod_pos_bound (Zpos p) (2 ^ k) P) as Bm.
    assert (U : forall mR eR, 0 < mR -> e <= eR -> canonical mR eR ->
                  Zpos p <= mR * 2 ^ (eR - e) -> m1 * 2 ^ k <= mR * 2 ^ (eR - e)).
    { intros mR eR HR HeR HC Hle.
      destruct (canonical_digits _ _ HC) as [DR _].
      assert (PR : 0 < 2 ^ (eR - e)) by (apply Z.pow_pos_nonneg; lia).
      pose proof (digits_le (Zpos p) _ ltac:(lia) Hle) as Dle.
      rewrite digits_mul_pow2 in Dle by lia.
      assert (Hke : k <= eR - e) by (unfold k; lia).
      replace (eR - e) with (eR - e - k + k) in * by lia.
      rewrite Z.pow_add_r in * by lia.
      assert (0 < 2 ^ (eR - e - k)) by (apply Z.pow_pos_nonneg; lia).
      rewrite Z.mul_assoc in *.
      set (R' := mR * 2 ^ (eR - e - k)) in *.
      assert (m0 <= R') by nia.
      destruct (Z.eq_dec m1 (m0 + 1)) as [E|E].
      - specialize (Hup E).
        assert (m0 < R') by nia.
        apply Z.mul_le_mono_nonneg_r; lia.
      - apply Z.mul_le_mono_nonneg_r; lia. }
    assert (L : forall mR eR, 0 < mR -> e <= eR -> canonical mR eR ->
                  mR * 2 ^ (eR - e) <= Zpos p -> mR * 2 ^ (eR - e) <= m1 * 2 ^ k).
    { intros mR eR HR HeR HC Hle.
      destruct (canonical_digits _ _ HC) as [DR _].
      destruct (Z.le_gt_cases k (eR - e)) as [Hke|Hke].
      - replace (eR - e) with (eR - e - k + k) in * by lia.
        rewrite Z.pow_add_r in * by lia.
        assert (0 < 2 ^ (eR - e - k)) by (apply Z.pow_pos_nonneg; lia).
        rewrite Z.mul_assoc in *.
        set (R' := mR * 2 ^ (eR - e - k)) in *.
        assert (R' <= m0) by nia.
        apply Z.mul_le_mono_nonneg_r; lia.
      - destruct (digits_bounds mR HR) as [DRp [_ UR]].
        assert (X : mR * 2 ^ (eR - e) < 2 ^ (digits mR + (eR - e))).
        { rewrite Z.pow_add_r by lia.
          assert (0 < 2 ^ (eR - e)) by (apply Z.pow_pos_nonneg; lia); nia. }
        assert (Y : 2 ^ (digits mR + (eR - e)) <= 2 ^ (52 + k))
          by (apply Z.pow_le_mono_r; lia).
        assert (Y2 : 2 ^ (52 + k) = 2 ^ 52 * 2 ^ k)
          by (apply Z.pow_add_r; lia).
        assert (Y3 : 2 ^ 52 * 2 ^ k <= m1 * 2 ^ k)
          by (apply Z.mul_le_mono_nonneg_r; lia).
        lia. }
    set (f := e + k) in *.
    destruct (Z.ltb_spec m1 (2 ^ 53)) as [Lt|Ge].
    + exists (Z.to_pos m1), f, (m1 * 2 ^ k).
      rewrite Z2Pos.id by lia.
      split; [reflexivity|]; split; [| split; [nia|]].
      { unfold canonical; rewrite (digits_unique m1 53) by lia.
        rewrite fexp_eq; unfold f; lia. }
      split; [| split; assumption].
      replace (Z.min f e) with e by (unfold f; lia).
      rewrite Z.sub_diag, Z.pow_0_r.
      replace (f - e) with k by (unfold f; lia); lia.
    + exists (Z.to_pos (2 ^ 52)), (f + 1), (m1 * 2 ^ k).
      rewrite Z2Pos.id by lia.
      split; [reflexivity|]; split; [| split; [nia|]].
      { unfold canonical; rewrite (digits_pow2 52) by lia.
        rewrite fexp_eq; unfold f; lia. }
      split; [| split; assumption].
      replace (Z.min (f + 1) e) with e by (unfold f; lia).
      rewrite Z.sub_diag, Z.pow_0_r.
      replace (f + 1 - e) with (k + 1) by (unfold f; lia).
      rewrite Z.pow_add_r by lia.
      assert (m1 = 2 ^ 53) by lia; subst m1.
      change (2 ^ 53) with (2 ^ 52 * 2 ^ 1); lia.
Qed.

Lemma value_eq_digits m t V e :
  0 < m -> 0 < V ->
  m * 2 ^ (t - Z.min t e) = V * 2 ^ (e - Z.min t e) ->
  digits m + t = digits V + e.
Proof.
  intros Hm HV E.
  assert (D : digits (m * 2 ^ (t - Z.min t e))
              = digits (V * 2 ^ (e - Z.min t e))) by now rewrite E.
  rewrite !digits_mul_pow2 in D by lia; lia.
Qed.

(** Rounding something below a representable number stays below it, and
    does not overflow. *)
Lemma binary_round_upper sx p e mR eR :
  -1074 <= e -> 0 < mR -> e <= eR -> canonical mR eR -> eR <= 971 ->
  Zpos p <= mR * 2 ^ (eR - e) ->
  exists m t,
    binary_round F64.prec F64.emax sx p e = S754_finite sx m t /\
    canonical (Zpos m) t /\ t <= 971 /\
    vle (Zpos m) t mR eR.
Proof.
  intros He HR HeR HC HeR' Hle.
  destruct (binary_round_spec sx p e He)
    as [m [t [V [-> [Cm [HV [EV [U _]]]]]]]].
  specialize (U mR eR HR HeR HC Hle).
  assert (P : 0 < 2 ^ (eR - e)) by (apply Z.pow_pos_nonneg; lia).
  pose proof (value_eq_digits (Zpos m) t V e ltac:(lia) HV EV) as Dv.
  pose proof (digits_le V _ HV U) as DV.
  rewrite digits_mul_pow2 in DV by lia.
  assert (Ht : t <= eR).
  { unfold canonical in Cm, HC; rewrite <- Cm, <- HC; apply fexp_le; lia. }
  exists m, t.
  destruct (Z.leb_spec t 971); [| lia].
  split; [reflexivity|]; split; [exact Cm|]; split; [lia|].
  apply (vle_intro (Z.min t e)); try lia.
  rewrite EV.
  replace (eR - Z.min t e) with (eR - e + (e - Z.min t e)) by lia.
  rewrite Z.pow_add_r, Z.mul_assoc by lia.
  apply Z.mul_le_mono_nonneg_r; [apply Z.pow_nonneg|]; lia.
Qed.

(** Rounding something above a representable number stays above it. *)
Lemma binary_round_lower sx p e mR eR :
  -1074 <= e -> 0 < mR -> e <= eR -> canonical mR eR ->
  mR * 2 ^ (eR - e) <= Zpos p ->
  binary_round F64.prec F64.emax sx p e = S754_infinity sx \/
  exists m t,
    binary_round F64.prec F64.emax sx p e = S754_finite sx m t /\
    canonical (Zpos m) t /\ t <= 971 /\
    vle mR eR (Zpos m) t.
Proof.
  intros He HR HeR HC Hle.
  destruct (binary_round_spec sx p e He)
    as [m [t [V [-> [Cm [HV [EV [_ L]]]]]]]].
  specialize (L mR eR HR HeR HC Hle).
  destruct (Z.leb_spec t 971); [right | now left].
  exists m, t; split; [reflexivity|]; split; [exact Cm|]; split; [lia|].
  apply (vle_intro (Z.min t e)); try lia.
  rewrite EV.
  replace (eR - Z.min t e) with (eR - e + (e - Z.min t e)) by lia.
  rewrite Z.pow_add_r, Z.mul_assoc by lia.
  apply Z.mul_le_mono_nonneg_r; [apply Z.pow_nonneg|]; lia.
Qed.

End Rounding.

Lemma eqb_zero_inv (y : float) :
  F64.eqb y F64.zero = true -> exists s, y = S754_zero s.
Proof.
  destruct y as [s|[]| |[] m e]; simpl; try discriminate.
  intros _; now exists s.
Qed.

(** * Arithmetic on samples *)

Module Samples.

Import F64.
Import Rounding.
Local Open Scope Z_scope.

Lemma valid_finite s m e :
  F64.valid (S754_finite s m e) = true ->
  canonical (Zpos m) e /\ e <= 971.
Proof.
  unfold F64.valid, valid_binary, bounded, canonical_mantissa.
  intros H; apply andb_true_iff in H; destruct H as [H1 H2].
  apply Z.eqb_eq in H1; apply Z.leb_le in H2; split; assumption.
Qed.

Lemma aligned_pos m e e0 : e0 <= e -> 0 < aligned m e e0.
Proof.
  intros H; unfold aligned.
  assert (0 < 2 ^ (e - e0)) by (apply Z.pow_pos_nonneg; lia); nia.
Qed.

Lemma shl_align_aligned m e e0 :
  e0 <= e -> Zpos (fst (shl_align m e e0)) = aligned m e e0.
Proof.
  intros H; destruct (shl_align_spec m e e0) as [_ E].
  rewrite E; unfold aligned; now replace (Z.min e e0) with e0 by lia.
Qed.

Lemma add_finite sa ma ea sb mb eb :
  let e := Z.min ea eb in
  F64.add (S754_finite sa ma ea) (S754_finite sb mb eb)
  = binary_normalize F64.prec F64.emax
      (cond_Zopp sa (aligned ma ea e) + cond_Zopp sb (aligned mb eb e))
      e false.
Proof.
  intros e; unfold F64.add, SFadd; fold e.
  rewrite !shl_align_aligned by (unfold e; lia); reflexivity.
Qed.

Lemma sub_finite sa ma ea sb mb eb :
  let e := Z.min ea eb in
  F64.sub (S754_finite sa ma ea) (S754_finite sb mb eb)
  = binary_normalize F64.prec F64.emax
      (cond_Zopp sa (aligned ma ea e) - cond_Zopp sb (aligned mb eb e))
      e false.
Proof.
  intros e; unfold F64.sub, SFsub; fold e.
  rewrite !shl_align_aligned by (unfold e; lia); reflexivity.
Qed.

Lemma normalize_below z e mR eR :
  -1074 <= e -> 0 < mR -> e <= eR -> canonical mR eR -> eR <= 971 ->
  Z.abs z <= mR * 2 ^ (eR - e) ->
  below (binary_normalize F64.prec F64.emax z e false) mR eR.
Proof.
  intros He HR HeR HC HeR' Hz; destruct z as [|p|p]; simpl; auto.
  - destruct (binary_round_upper false p e mR eR He HR HeR HC HeR'
                ltac:(lia)) as [m [t [-> [_ [_ V]]]]]; exact V.
  - destruct (binary_round_upper true p e mR eR He HR HeR HC HeR'
                ltac:(lia)) as [m [t [-> [_ [_ V]]]]]; exact V.
Qed.

Lemma normalize_above z e mR eR :
  -1074 <= e -> 0 < mR -> e <= eR -> canonical mR eR ->
  mR * 2 ^ (eR - e) <= Z.abs z ->
  above (binary_normalize F64.prec F64.emax z e false) mR eR.
Proof.
  intros He HR HeR HC Hz.
  assert (0 < 2 ^ (eR - e)) by (apply Z.pow_pos_nonneg; lia).
  destruct z as [|p|p]; simpl; try nia.
  - destruct (binary_round_lower false p e mR eR He HR HeR HC ltac:(lia))
      as [->|[m [t [-> [_ [_ V]]]]]]; simpl; auto.
  - destruct (binary_round_lower true p e mR eR He HR HeR HC ltac:(lia))
      as [->|[m [t [-> [_ [_ V]]]]]]; simpl; auto.
Qed.

(** A quotient whose numerator lies below, and whose denominator lies
    above, one and the same number is at most one in magnitude. *)
Lemma div_sandwich (x y : float) mR eR :
  below x mR eR -> above y mR eR -> le_one (F64.div x y).
Proof.
  destruct x as [sx|sx| |sx mx ex], y as [sy|sy| |sy my ey];
    simpl; try tauto.
  intros Hx Hy; apply div_le_one; eapply vle_trans; eauto.
Qed.

Lemma vle_refl m e : vle m e m e.
Proof. intros c _ _; lia. Qed.

Lemma vle_aligned m e e0 mR eR :
  e0 <= e -> e0 <= eR ->
  aligned m e e0 <= mR * 2 ^ (eR - e0) -> vle (Zpos m) e mR eR.
Proof. intros H1 H2 H; apply (vle_intro e0); auto. Qed.

Lemma nonneg_finite_inv s m e :
  nonneg_sample (S754_finite s m e) = true ->
  s = false /\ canonical (Zpos m) e /\ e <= 971.
Proof.
  unfold nonneg_sample; intros H.
  apply andb_true_iff in H; destruct H as [H Hs].
  apply andb_true_iff in H; destruct H as [Hv _].
  destruct (valid_finite _ _ _ Hv); destruct s; [discriminate | auto].
Qed.

(** The quotient of the formula on two samples that are not negative. *)
Lemma ndvi_pixel_le_one (red nir : float) :
  nonneg_sample red = true -> nonneg_sample nir = true ->
  F64.eqb (F64.add nir red) F64.zero = false ->
  le_one (ndvi_pixel red nir).
Proof.
  unfold ndvi_pixel.
  destruct red as [sr|sr| |sr mr er], nir as [sn|sn| |sn mn en];
    try discriminate; intros Hr Hn Hs.
  - destruct sr, sn; discriminate.
  - apply nonneg_finite_inv in Hn; destruct Hn as [-> _].
    change (le_one (SFdiv F64.prec F64.emax (S754_finite false mn en)
                      (S754_finite false mn en))).
    apply div_le_one, vle_refl.
  - apply nonneg_finite_inv in Hr; destruct Hr as [-> _].
    change (le_one (SFdiv F64.prec F64.emax (S754_finite true mr er)
                      (S754_finite false mr er))).
    apply div_le_one, vle_refl.
  - apply nonneg_finite_inv in Hr; destruct Hr as [-> [Cr Br]].
    apply nonneg_finite_inv in Hn; destruct Hn as [-> [Cn Bn]].
    destruct (canonical_digits _ _ Cr) as [_ Er].
    destruct (canonical_digits _ _ Cn) as [_ En].
    rewrite sub_finite, add_finite; simpl cond_Zopp.
    set (e := Z.min en er).
    pose proof (aligned_pos mn en e ltac:(unfold e; lia)) as Pn.
    pose proof (aligned_pos mr er e ltac:(unfold e; lia)) as Pr.
    destruct (Z.le_gt_cases (aligned mr er e) (aligned mn en e)) as [L|G].
    + apply (div_sandwich _ _ (Zpos mn) en).
      * apply normalize_below; unfold e; try lia; auto.
        fold e; fold (aligned mn en e); lia.
      * apply normalize_above; unfold e; try lia; auto.
        fold e; fold (aligned mn en e); lia.
    + apply (div_sandwich _ _ (Zpos mr) er).
      * apply normalize_below; unfold e; try lia; auto.
        fold e; fold (aligned mr er e); lia.
      * apply normalize_above; unfold e; try lia; auto.
        fold e; fold (aligned mr er e); lia.
Qed.

(** *** Integer samples *)

Lemma finite_valid s m t :
  canonical (Zpos m) t -> t <= 971 -> F64.valid (S754_finite s m t) = true.
Proof.
  intros C B; unfold F64.valid, valid_binary, bounded, canonical_mantissa.
  apply andb_true_iff; split; [apply Z.eqb_eq; exact C | apply Z.leb_le; exact B].
Qed.

Lemma canonical_max : canonical (2 ^ 52) 971.
Proof. reflexivity. Qed.

(** Every integer a NumPy integer type can hold converts to a finite
    binary64 value of the same sign. *)
Lemma of_Z_finite_sample z :
  Z.abs z < 2 ^ 64 ->
  finite_sample (F64.of_Z z) = true /\
  (0 <= z -> nonneg_sample (F64.of_Z z) = true).
Proof.
  intros Hz.
  assert (B : 2 ^ 64 <= 2 ^ 52 * 2 ^ (971 - 0))
    by (vm_compute; discriminate).
  unfold F64.of_Z; destruct z as [|p|p]; simpl binary_normalize.
  - split; [reflexivity | intros _; reflexivity].
  - destruct (binary_round_upper false p 0 (2 ^ 52) 971) as
      [m [t [-> [C [Bt _]]]]]; try lia; try exact canonical_max.
    unfold finite_sample, nonneg_sample.
    rewrite (finite_valid false m t C Bt); split; reflexivity.
  - destruct (binary_round_upper true p 0 (2 ^ 52) 971) as
      [m [t [-> [C [Bt _]]]]]; try lia; try exact canonical_max.
    unfold finite_sample.
    rewrite (finite_valid true m t C Bt); split; [reflexivity | lia].
Qed.

(** *** Exact quotients *)

Lemma new_location_zero n : new_location n 0 = loc_Exact.
Proof.
  unfold new_location, new_location_even, new_location_odd.
  destruct (Z.even n); reflexivity.
Qed.

(** Two numbers of the same magnitude have quotient 1 or -1. *)
Lemma div_same_magnitude sx sy m e :
  F64.div (S754_finite sx m e) (S754_finite sy m e)
  = S754_finite (xorb sx sy) 4503599627370496 (-52).
Proof.
  unfold F64.div, SFdiv.
  rewrite SFdiv_core_binary_spec by lia.
  rewrite !Z.sub_diag.
  change (Z.min (fexp 0) 0) with (-53).
  change (0 - -53) with 53.
  replace (Zpos m * 2 ^ 53 / Zpos m) with (2 ^ 53)
    by (rewrite Z.mul_comm, Z.div_mul; lia).
  replace ((Zpos m * 2 ^ 53) mod Zpos m) with 0
    by (rewrite Z.mul_comm, Z.mod_mul; lia).
  rewrite new_location_zero.
  destruct sx, sy; vm_compute; reflexivity.
Qed.

Lemma normalize_not_nan z e :
  -1074 <= e ->
  F64.is_nan (binary_normalize F64.prec F64.emax z e false) = false.
Proof.
  intros He; destruct z as [|p|p]; simpl binary_normalize; [reflexivity| |].
  - destruct (binary_round_spec false p e He) as [m [t [V [-> _]]]].
    destruct (t <=? 971); reflexivity.
  - destruct (binary_round_spec true p e He) as [m [t [V [-> _]]]].
    destruct (t <=? 971); reflexivity.
Qed.

Lemma above_not_zero y mR eR :
  above y mR eR -> F64.is_nan y = false /\ F64.eqb y F64.zero = false.
Proof.
  destruct y as [s|[]| |[] m t]; simpl; try tauto; split; reflexivity.
Qed.

(** The sum of a positive value with itself is not zero: it is a finite
    number or an infinity. *)
Lemma add_self_above m e :
  canonical (Zpos m) e ->
  above (F64.add (S754_finite false m e) (S754_finite false m e)) (Zpos m) e.
Proof.
  intros C; destruct (canonical_digits _ _ C) as [_ He].
  rewrite add_finite; simpl cond_Zopp.
  replace (Z.min e e) with e by lia.
  apply normalize_above; try lia; auto.
  unfold aligned; rewrite Z.sub_diag, Z.pow_0_r; lia.
Qed.

(** *** Signs *)

Lemma opp_binary_round_aux s m e l :
  F64.opp (binary_round_aux F64.prec F64.emax s m e l)
  = binary_round_aux F64.prec F64.emax (negb s) m e l.
Proof.
  unfold binary_round_aux.
  destruct (shr_fexp F64.prec F64.emax m e l) as [x e1].
  destruct (shr_fexp F64.prec F64.emax _ e1 loc_Exact) as [y e2].
  destruct (shr_m y); try reflexivity.
  destruct (e2 <=? F64.emax - F64.prec); reflexivity.
Qed.

Lemma opp_binary_round s p e :
  F64.opp (binary_round F64.prec F64.emax s p e)
  = binary_round F64.prec F64.emax (negb s) p e.
Proof.
  unfold binary_round.
  destruct (shl_align p e _) as [mz ez]; apply opp_binary_round_aux.
Qed.

Lemma opp_normalize z e :
  z <> 0 ->
  binary_normalize F64.prec F64.emax (- z) e false
  = F64.opp (binary_normalize F64.prec F64.emax z e false).
Proof.
  intros Hz; destruct z as [|p|p]; [lia| |]; simpl;
    now rewrite opp_binary_round.
Qed.

Lemma add_comm (x y : float) : F64.add x y = F64.add y x.
Proof.
  destruct x as [sx|sx| |sx mx ex], y as [sy|sy| |sy my ey];
    try reflexivity; try (destruct sx, sy; reflexivity).
  rewrite !add_finite, Z.min_comm, Z.add_comm; reflexivity.
Qed.

(** Swapping the operands of a subtraction negates the difference, unless
    both differences are the zero [+0]. *)
Lemma sub_swap (x y : float) :
  F64.sub y x = F64.opp (F64.sub x y) \/
  (F64.sub x y = F64.zero /\ F64.sub y x = F64.zero).
Proof.
  destruct x as [sx|sx| |sx mx ex], y as [sy|sy| |sy my ey];
    try (left; reflexivity);
    try (destruct sx, sy; (left; reflexivity) || (right; split; reflexivity)).
  rewrite !sub_finite, (Z.min_comm ey ex).
  set (e := Z.min ex ey).
  set (a := cond_Zopp sx (aligned mx ex e)).
  set (b := cond_Zopp sy (aligned my ey e)).
  destruct (Z.eq_dec (a - b) 0) as [E|E].
  - right; replace (b - a) with 0 by lia; rewrite E; split; reflexivity.
  - left; replace (b - a) with (- (a - b)) by lia.
    apply opp_normalize; exact E.
Qed.

Lemma div_opp_l (x y : float) :
  F64.div (F64.opp x) y = F64.opp (F64.div x y).
Proof.
  destruct x as [sx|sx| |sx mx ex], y as [sy|sy| |sy my ey];
    try reflexivity; try (destruct sx, sy; reflexivity).
  unfold F64.div, F64.opp, SFopp at 1, SFdiv.
  destruct (SFdiv_core_binary F64.prec F64.emax (Zpos mx) ex (Zpos my) ey)
    as [[mz ez] lz].
  fold F64.opp; rewrite opp_binary_round_aux, negb_xorb_l; reflexivity.
Qed.

Lemma eqb_refl (z : float) : F64.is_nan z = false -> F64.eqb z z = true.
Proof.
  destruct z as [s|[]| |[] m e]; simpl; try discriminate; intros _;
    try reflexivity; unfold F64.eqb, SFeqb, SFcompare;
    rewrite Z.compare_refl, Pos.compare_cont_refl; reflexivity.
Qed.

Lemma div_zero_l s (y : float) :
  F64.is_nan (F64.div (S754_zero s) y) = false ->
  exists s', F64.div (S754_zero s) y = S754_zero s'.
Proof.
  destruct y as [sy|sy| |sy my ey]; simpl; try discriminate; intros _;
    eexists; reflexivity.
Qed.

Lemma is_nan_opp (z : float) : F64.is_nan (F64.opp z) = F64.is_nan z.
Proof. destruct z; reflexivity. Qed.

(** Swapping the two bands negates the quotient. *)
Lemma ndvi_pixel_swap (red nir : float) :
  (F64.is_nan (ndvi_pixel red nir) = false ->
   F64.eqb (ndvi_pixel nir red) (F64.opp (ndvi_pixel red nir)) = true) /\
  same_number (ndvi_pixel nir red) (F64.opp (ndvi_pixel red nir)).
Proof.
  assert (G : F64.is_nan (ndvi_pixel red nir) = false ->
              F64.eqb (ndvi_pixel nir red) (F64.opp (ndvi_pixel red nir))
              = true /\
              True).
  { intros N; split; auto; revert N; unfold ndvi_pixel.
    rewrite (add_comm red nir).
    destruct (sub_swap nir red) as [->|[-> ->]].
    - rewrite div_opp_l; intros N; apply eqb_refl.
      now rewrite is_nan_opp.
    - unfold F64.zero; intros N; destruct (div_zero_l _ _ N) as [s' ->].
      destruct s'; reflexivity. }
  split; [intros N; apply G; exact N|].
  destruct (F64.is_nan (ndvi_pixel red nir)) eqn:N.
  - right; rewrite is_nan_opp; split; [| exact N].
    revert N; unfold ndvi_pixel; rewrite (add_comm red nir).
    destruct (sub_swap nir red) as [->|[-> ->]]; auto.
    now rewrite div_opp_l, is_nan_opp.
  - left; apply G; reflexivity.
Qed.

(** *** Quotients that are numbers *)

Lemma round_aux_not_nan s m e l :
  0 <= m -> F64.is_nan (binary_round_aux F64.prec F64.emax s m e l) = false.
Proof.
  intros Hm.
  destruct (binary_round_aux_spec s m e l Hm) as [m1 [Hb [_ [_ ->]]]].
  set (t := Z.max e (fexp (digits m + e))) in *.
  set (t2 := Z.max t (fexp (digits m1 + t))).
  assert (0 <= m / 2 ^ (t - e))
    by (apply Z.div_pos; [lia | apply Z.pow_pos_nonneg; unfold t; lia]).
  assert (0 <= m1 / 2 ^ (t2 - t))
    by (apply Z.div_pos; [lia | apply Z.pow_pos_nonneg; unfold t2; lia]).
  destruct (m1 / 2 ^ (t2 - t)); try lia; try reflexivity.
  destruct (t2 <=? F64.emax - F64.prec); reflexivity.
Qed.

Lemma div_finite_not_nan sx mx ex sy my ey :
  F64.is_nan (F64.div (S754_finite sx mx ex) (S754_finite sy my ey)) = false.
Proof.
  unfold F64.div, SFdiv; rewrite SFdiv_core_binary_spec by lia.
  apply round_aux_not_nan, Z.div_pos; [| lia].
  apply Z.mul_nonneg_nonneg; [lia | apply Z.pow_nonneg; lia].
Qed.

Lemma finite_sample_inv s m e :
  finite_sample (S754_finite s m e) = true ->
  canonical (Zpos m) e /\ e <= 971.
Proof.
  unfold finite_sample; intros H.
  apply andb_true_iff in H; destruct H as [Hv _].
  exact (valid_finite s m e Hv).
Qed.

Lemma below_not_inf x mR eR : below x mR eR -> F64.is_inf x = false.
Proof. destruct x; simpl; tauto. Qed.

(** On finite samples whose sum is not zero the quotient is a number: of
    the difference and the sum, one at least does not overflow. *)
Lemma ndvi_pixel_not_nan (red nir : float) :
  finite_sample red = true -> finite_sample nir = true ->
  F64.eqb (F64.add nir red) F64.zero = false ->
  F64.is_nan (ndvi_pixel red nir) = false.
Proof.
  unfold ndvi_pixel.
  destruct red as [sr|sr| |sr mr er], nir as [sn|sn| |sn mn en];
    try discriminate; intros Hr Hn Hs.
  - destruct sr, sn; discriminate.
  - apply (div_finite_not_nan sn mn en sn mn en).
  - apply (div_finite_not_nan (negb sr) mr er sr mr er).
  - apply finite_sample_inv in Hr; destruct Hr as [Cr Br].
    apply finite_sample_inv in Hn; destruct Hn as [Cn Bn].
    destruct (canonical_digits _ _ Cr) as [_ Er].
    destruct (canonical_digits _ _ Cn) as [_ En].
    revert Hs; rewrite sub_finite, add_finite.
    set (e := Z.min en er).
    pose proof (aligned_pos mn en e ltac:(unfold e; lia)) as Pn.
    pose proof (aligned_pos mr er e ltac:(unfold e; lia)) as Pr.
    set (a := cond_Zopp sn (aligned mn en e)).
    set (b := cond_Zopp sr (aligned mr er e)).
    assert (He : -1074 <= e) by (unfold e; lia).
    pose proof (normalize_not_nan (a - b) e He) as Nx.
    pose proof (normalize_not_nan (a + b) e He) as Ny.
    assert (B : F64.is_inf (binary_normalize F64.prec F64.emax (a - b) e false)
                = false \/
                F64.is_inf (binary_normalize F64.prec F64.emax (a + b) e false)
                = false).
    { destruct (Z.le_gt_cases (aligned mr er e) (aligned mn en e)) as [L|G].
      - assert (X : Z.abs (a - b) <= Zpos mn * 2 ^ (en - e) \/
                    Z.abs (a + b) <= Zpos mn * 2 ^ (en - e)).
        { fold (aligned mn en e); unfold a, b; destruct sn, sr; simpl; lia. }
        destruct X as [X|X]; [left | right];
          apply (below_not_inf _ (Zpos mn) en);
          apply normalize_below; unfold e; try lia; auto.
      - assert (X : Z.abs (a - b) <= Zpos mr * 2 ^ (er - e) \/
                    Z.abs (a + b) <= Zpos mr * 2 ^ (er - e)).
        { fold (aligned mr er e); unfold a, b; destruct sn, sr; simpl; lia. }
        destruct X as [X|X]; [left | right];
          apply (below_not_inf _ (Zpos mr) er);
          apply normalize_below; unfold e; try lia; auto. }
    destruct (binary_normalize F64.prec F64.emax (a - b) e false)
      as [s1|s1| |s1 m1 e1];
      destruct (binary_normalize F64.prec F64.emax (a + b) e false)
        as [s2|s2| |s2 m2 e2];
      try discriminate; try reflexivity; intros Hs.
    + destruct B; discriminate.
    + apply div_finite_not_nan.
Qed.

(** *** The three special pixels *)

Lemma add_self_positive m e :
  canonical (Zpos m) e ->
  F64.add (S754_finite false m e) (S754_finite false m e)
  = S754_infinity false \/
  exists m' t,
    F64.add (S754_finite false m e) (S754_finite false m e)
    = S754_finite false m' t.
Proof.
  intros C; destruct (canonical_digits _ _ C) as [_ He].
  rewrite add_finite; simpl cond_Zopp.
  replace (Z.min e e) with e by lia.
  pose proof (aligned_pos m e e ltac:(lia)) as P.
  destruct (aligned m e e + aligned m e e) as [|p|p] eqn:E; try lia.
  simpl binary_normalize.
  destruct (binary_round_spec false p e He) as [m' [t [V [-> _]]]].
  destruct (t <=? 971); [right; eauto | now left].
Qed.

Lemma positive_finite_inv (x : float) :
  finite_sample x = true -> F64.ltb F64.zero x = true ->
  exists m e, x = S754_finite false m e /\ canonical (Zpos m) e.
Proof.
  destruct x as [s|s| |s m e]; try discriminate; intros Hf Hp.
  destruct s; [discriminate|].
  exists m, e; split; [reflexivity|].
  now destruct (finite_sample_inv _ _ _ Hf).
Qed.

Lemma eqb_finite_inv m1 e1 m2 e2 :
  F64.eqb (S754_finite false m1 e1) (S754_finite false m2 e2) = true ->
  m1 = m2 /\ e1 = e2.
Proof.
  unfold F64.eqb, SFeqb, SFcompare.
  destruct (Z.compare_spec e1 e2); try discriminate.
  rewrite Pos.compare_cont_spec; simpl.
  destruct (Pos.compare_spec m1 m2); try discriminate; auto.
Qed.

(** red == nir > 0 *)
Lemma ndvi_pixel_equal (red nir : float) :
  finite_sample red = true -> finite_sample nir = true ->
  F64.eqb red nir = true ->
  F64.ltb F64.zero red = true -> F64.ltb F64.zero nir = true ->
  ndvi_pixel red nir = F64.zero.
Proof.
  intros Fr Fn E Pr Pn.
  destruct (positive_finite_inv red Fr Pr) as [mr [er [-> Cr]]].
  destruct (positive_finite_inv nir Fn Pn) as [mn [en [-> Cn]]].
  destruct (eqb_finite_inv _ _ _ _ E) as [-> ->].
  unfold ndvi_pixel.
  assert (S : F64.sub (S754_finite false mn en) (S754_finite false mn en)
              = S754_zero false).
  { rewrite sub_finite, Z.sub_diag; reflexivity. }
  rewrite S.
  destruct (add_self_positive mn en Cn) as [->|[m' [t ->]]]; reflexivity.
Qed.

(** red == 0, nir > 0 *)
Lemma ndvi_pixel_red_zero (red nir : float) :
  F64.is_finite nir = true ->
  F64.eqb red F64.zero = true -> F64.ltb F64.zero nir = true ->
  ndvi_pixel red nir = F64.one.
Proof.
  intros Fn Z Pn; destruct (eqb_zero_inv _ Z) as [s ->].
  destruct nir as [sn|sn| |[] mn en]; try discriminate.
  apply (div_same_magnitude false false mn en).
Qed.

(** nir == 0, red > 0 *)
Lemma ndvi_pixel_nir_zero (red nir : float) :
  F64.is_finite red = true ->
  F64.eqb nir F64.zero = true -> F64.ltb F64.zero red = true ->
  ndvi_pixel red nir = F64.opp F64.one.
Proof.
  intros Fr Z Pr; destruct (eqb_zero_inv _ Z) as [s ->].
  destruct red as [sr|sr| |[] mr er]; try discriminate.
  apply (div_same_magnitude true false mr er).
Qed.

Lemma finite_sample_is_finite (x : float) :
  finite_sample x = true -> F64.is_finite x = true.
Proof.
  unfold finite_sample; intros H; apply andb_true_iff in H; tauto.
Qed.

End Samples.

(** * The claims *)

(** ** Shapes *)

(** C7: on red and NIR grids of identical dimensions the computation
    returns a grid of floating-point values with exactly those dimensions
    (rows and columns), its buffer filled accordingly. *)
Theorem ndvi_arrays_same_dimensions (red nir : ndarray float) :
  wf_array red -> wf_array nir -> shape red = shape nir ->
  exists out : ndarray float,
    ndvi_arrays red nir = Ok out /\
    rows out = rows red /\ cols out = cols red /\
    rows out = rows nir /\ cols out = cols nir /\
    wf_array out.
Proof.
  intros Hr Hn E.
  destruct (ndvi_arrays_ok _ _ Hr Hn E) as [out [Ho [Hs Hw]]].
  exists out; split; [exact Ho|].
  unfold rows, cols; rewrite Hs, <- E; repeat split; auto.
Qed.

Lemma ndvi_arrays_same_dimensions_witness :
  exists out : ndarray float,
    ndvi_arrays red_2x2_f nir_2x2_f = Ok out /\
    rows out = rows red_2x2_f /\ cols out = cols red_2x2_f /\
    rows out = rows nir_2x2_f /\ cols out = cols nir_2x2_f /\
    wf_array out.
Proof.
  apply ndvi_arrays_same_dimensions; reflexivity.
Defined.

(** ** Bands and conversion *)

(** C8: on a raster with at least four bands the computation takes the
    third band of the file as red and the fourth as near-infrared (bands
    counted from 1), converts the samples of both to binary64, and only then
    subtracts, adds and divides: the array it returns is the per-pixel
    formula over the converted samples, with the raster's shape. *)
Theorem compute_ndvi_reads_bands_3_4
    image_path (w : world) src b1 b2 b3 b4 rest :
  lookup_file image_path (files w) = Some src ->
  wf_dataset src ->
  bands src = b1 :: b2 :: b3 :: b4 :: rest ->
  exists l w',
    compute_ndvi image_path w = (Ok l, w') /\
    nth_error (heap w') l = Some (spec_ndvi b3 b4) /\
    shape (spec_ndvi b3 b4) = (height src, width src).
Proof.
  intros Hf Hwf Hb.
  assert (H3 : read src 3 = Ok b3) by (apply read_band; now rewrite Hb).
  assert (H4 : read src 4 = Ok b4) by (apply read_band; now rewrite Hb).
  rewrite compute_ndvi_effects, (ndvi_effects_ok _ _ _ _ _ Hf Hwf H3 H4); simpl.
  do 2 eexists; split; [reflexivity|]; simpl; split.
  - rewrite nth_error_app2 by lia.
    replace (_ + 4 - _) with 4 by lia; reflexivity.
  - apply (wf_read _ _ _ Hwf H3).
Qed.

Lemma wf_sample_dataset : wf_dataset sample_dataset.
Proof.
  unfold wf_dataset, sample_dataset; simpl.
  repeat constructor.
Qed.

Lemma compute_ndvi_reads_bands_3_4_witness :
  exists l w',
    compute_ndvi "west_campus.tif" sample_world = (Ok l, w') /\
    nth_error (heap w') l
    = Some (spec_ndvi (IntBand red_2x2) (IntBand nir_2x2)) /\
    shape (spec_ndvi (IntBand red_2x2) (IntBand nir_2x2))
    = (height sample_dataset, width sample_dataset).
Proof.
  apply (compute_ndvi_reads_bands_3_4 "west_campus.tif" sample_world
           sample_dataset (IntBand nir_2x2) (IntBand red_2x2)
           (IntBand red_2x2) (IntBand nir_2x2) []).
  - reflexivity.
  - exact wf_sample_dataset.
  - reflexivity.
Defined.

(** ** Determinism and absence of side effects *)

Lemma ndvi_effects_inputs fs image_path src b3 b4 :
  lookup_file image_path fs = Some src ->
  read src 3 = Ok b3 -> read src 4 = Ok b4 ->
  exists more,
    snd (ndvi_effects fs image_path)
    = astype_float b3 :: astype_float b4 :: more.
Proof.
  intros Hf H3 H4; unfold ndvi_effects; rewrite Hf, H3, H4.
  destruct (binop F64.sub _ _); [| now eexists].
  destruct (binop F64.add _ _); [| now eexists].
  destruct (binop F64.div _ _); now eexists.
Qed.

Lemma ndvi_effects_result fs image_path :
  match fst (ndvi_effects fs image_path) with
  | Ok out => nth_error (snd (ndvi_effects fs image_path)) 4 = Some out
  | Err _ => True
  end.
Proof.
  unfold ndvi_effects.
  destruct (lookup_file image_path fs); simpl; auto.
  destruct (read d 3); simpl; auto.
  destruct (read d 4); simpl; auto.
  destruct (binop F64.sub _ _); simpl; auto.
  destruct (binop F64.add _ _); simpl; auto.
  destruct (binop F64.div _ _); simpl; auto.
Qed.

Lemma outcome_effects image_path w :
  outcome image_path w = fst (ndvi_effects (files w) image_path).
Proof.
  unfold outcome; rewrite compute_ndvi_effects.
  pose proof (ndvi_effects_result (files w) image_path) as H.
  destruct (fst (ndvi_effects (files w) image_path)); [| reflexivity].
  simpl; rewrite nth_error_app2 by lia.
  replace (_ + 4 - _) with 4 by lia; now rewrite H.
Qed.

(** C9: the computation is deterministic and free of side effects.  A run
    leaves the file system as it was and changes no array that existed
    before it (it only creates new ones); the red and NIR grids it reads
    still hold the converted bands when it returns; and two runs on the same
    files, from whatever stores (in particular one after the other), end in
    the same error or in arrays that are equal item for item. *)
Theorem compute_ndvi_deterministic_pure image_path (w : world) :
  let w' := snd (compute_ndvi image_path w) in
  files w' = files w /\
  (forall l a, nth_error (heap w) l = Some a ->
               nth_error (heap w') l = Some a) /\
  (forall src b3 b4,
     lookup_file image_path (files w) = Some src ->
     read src 3 = Ok b3 -> read src 4 = Ok b4 ->
     nth_error (heap w') (List.length (heap w)) = Some (astype_float b3) /\
     nth_error (heap w') (S (List.length (heap w)))
     = Some (astype_float b4)) /\
  (forall w2, files w2 = files w ->
              outcome image_path w2 = outcome image_path w) /\
  outcome image_path w' = outcome image_path w.
Proof.
  intros w'; unfold w'; rewrite compute_ndvi_effects; cbn [snd files heap].
  split; [reflexivity|]; split; [| split; [| split]].
  - intros l a H; rewrite nth_error_app1; auto.
    apply nth_error_Some; congruence.
  - intros src b3 b4 Hf H3 H4.
    destruct (ndvi_effects_inputs _ _ _ _ _ Hf H3 H4) as [more ->].
    rewrite !nth_error_app2 by lia.
    rewrite Nat.sub_diag.
    replace (S _ - _) with 1 by lia; split; reflexivity.
  - intros w2 E; rewrite !outcome_effects; now rewrite E.
  - rewrite !outcome_effects; reflexivity.
Qed.

(** ** The worked example *)

(** C2: for red = [[100,50],[0,100]] in band 3 and nir =
    [[200,50],[100,100]] in band 4, whatever bands 1 and 2 hold, the
    computation returns the 2 x 2 array [[1/3, 0], [1, 0]], 1/3 being the
    binary64 value of that quotient. *)
Theorem compute_ndvi_2x2_scenario image_path b1 b2 rest h :
  let src := mk_dataset 2 2
               (b1 :: b2 :: IntBand red_2x2 :: IntBand nir_2x2 :: rest) in
  let w := mk_world [(image_path, src)] h in
  outcome image_path w
  = Ok (of_rows 2 [[one_third; F64.zero]; [F64.one; F64.zero]]) /\
  one_third = S754_finite false 6004799503160661 (-54).
Proof.
  intros src w; split; [| vm_compute; reflexivity].
  rewrite outcome_effects; unfold ndvi_effects; simpl.
  rewrite String.eqb_refl.
  vm_compute; reflexivity.
Qed.

(** ** Division by a zero sum *)

Lemma div_by_zero_nonfinite (x : float) s :
  F64.is_finite (F64.div x (S754_zero s)) = false.
Proof. destruct x; reflexivity. Qed.

(** C3: on grids of identical dimensions the computation returns an array
    (no error is raised), and at every pixel where red + nir == 0 the value
    stored in that array is the unguarded quotient, which is not finite: it
    is an infinity or not-a-number. *)
Theorem zero_sum_pixel_nonfinite (red nir : ndarray float) :
  wf_array red -> wf_array nir -> shape red = shape nir ->
  exists out : ndarray float,
    ndvi_arrays red nir = Ok out /\
    forall i j, i < rows red -> j < cols red ->
      F64.eqb (F64.add (item F64.nan nir i j) (item F64.nan red i j))
              F64.zero = true ->
      item F64.nan out i j
      = F64.div (F64.sub (item F64.nan nir i j) (item F64.nan red i j))
                (F64.add (item F64.nan nir i j) (item F64.nan red i j)) /\
      F64.is_finite (item F64.nan out i j) = false /\
      (F64.is_inf (item F64.nan out i j)
       || F64.is_nan (item F64.nan out i j)) = true.
Proof.
  intros Hr Hn E.
  destruct (ndvi_arrays_ok _ _ Hr Hn E) as [out [Ho _]].
  exists out; split; [exact Ho|]; intros i j Hi Hj Hz.
  rewrite (item_ndvi _ _ _ _ _ Hr Hn E Ho Hi Hj); unfold ndvi_pixel.
  split; [reflexivity|].
  destruct (eqb_zero_inv _ Hz) as [s ->].
  split; [apply div_by_zero_nonfinite|].
  destruct (F64.sub _ _); reflexivity.
Qed.

Lemma zero_sum_pixel_nonfinite_witness :
  exists out : ndarray float,
    ndvi_arrays zeros_2x2 zeros_2x2 = Ok out /\
    item F64.nan out 1 1 = F64.nan /\
    F64.is_finite (item F64.nan out 1 1) = false.
Proof.
  destruct (zero_sum_pixel_nonfinite zeros_2x2 zeros_2x2
              eq_refl eq_refl eq_refl) as [out [Ho H]].
  exists out; split; [exact Ho|].
  assert (Hi : 1 < rows zeros_2x2) by (vm_compute; lia).
  assert (Hj : 1 < cols zeros_2x2) by (vm_compute; lia).
  destruct (H 1 1 Hi Hj eq_refl) as [Hv [Hf _]].
  split; [exact Hv | exact Hf].
Defined.

(** ** Mismatched dimensions *)

Lemma broadcast_dim_None n m :
  broadcast_dim n m = None <-> ~ compatible_dim n m.
Proof.
  unfold broadcast_dim, compatible_dim.
  destruct (Nat.eqb_spec n m), (Nat.eqb_spec n 1), (Nat.eqb_spec m 1);
    split; intros H; try discriminate; try tauto; try reflexivity.
Qed.

Lemma broadcast_shapes_None s t :
  broadcast_shapes s t = None
  <-> ~ (compatible_dim (fst s) (fst t) /\ compatible_dim (snd s) (snd t)).
Proof.
  unfold broadcast_shapes.
  pose proof (broadcast_dim_None (fst s) (fst t)) as Hr.
  pose proof (broadcast_dim_None (snd s) (snd t)) as Hc.
  destruct (broadcast_dim (fst s) (fst t));
    destruct (broadcast_dim (snd s) (snd t));
    split; intros H; try discriminate; try reflexivity; try tauto.
  exfalso; apply H; split.
  - destruct (Nat.eq_dec (fst s) (fst t)); [now left|].
    destruct (Nat.eq_dec (fst s) 1); [now right; left|].
    destruct (Nat.eq_dec (fst t) 1); [now right; right|].
    assert (X : ~ compatible_dim (fst s) (fst t))
      by (unfold compatible_dim; tauto).
    apply Hr in X; discriminate.
  - destruct (Nat.eq_dec (snd s) (snd t)); [now left|].
    destruct (Nat.eq_dec (snd s) 1); [now right; left|].
    destruct (Nat.eq_dec (snd t) 1); [now right; right|].
    assert (X : ~ compatible_dim (snd s) (snd t))
      by (unfold compatible_dim; tauto).
    apply Hc in X; discriminate.
Qed.

(** The expression fails exactly when the first operation does, and then
    with a [ValueError]; otherwise all three operations work on the
    broadcast shape. *)
Lemma ndvi_arrays_cases (red nir : ndarray float) :
  match broadcast_shapes (shape nir) (shape red) with
  | None => ndvi_arrays red nir = Err ValueError
  | Some s => exists out, ndvi_arrays red nir = Ok out /\ shape out = s
  end.
Proof.
  unfold ndvi_arrays, binop.
  destruct (broadcast_shapes (shape nir) (shape red)) as [s|]; simpl; auto.
  rewrite broadcast_shapes_same; eexists; split; reflexivity.
Qed.

(** On arrays that are not two bands of one raster the expression follows
    NumPy's rules: dimensions that differ in an axis of length one are
    accepted and the shorter grid is repeated along that axis. *)
Lemma mismatched_grids_broadcast :
  shape red_1x2_f <> shape nir_2x2_f /\
  wf_array red_1x2_f /\ wf_array nir_2x2_f /\
  ndvi_arrays red_1x2_f nir_2x2_f
  = Ok (of_rows 2 [[one_third; F64.zero];
                   [F64.zero; one_third]]).
Proof.
  split; [discriminate|]; split; [reflexivity|]; split; [reflexivity|].
  vm_compute; reflexivity.
Qed.

(** The array expression on its own, for any two arrays: it fails, with a
    shape error and no other, exactly when in some axis the two lengths
    differ and neither is 1, and otherwise has the broadcast shape. *)
Lemma ndvi_arrays_dimension_mismatch (red nir : ndarray float) :
  (ndvi_arrays red nir = Err ValueError
   <-> ~ (compatible_dim (rows nir) (rows red) /\
          compatible_dim (cols nir) (cols red))) /\
  (forall e, ndvi_arrays red nir = Err e -> e = ValueError) /\
  (forall out, ndvi_arrays red nir = Ok out ->
     broadcast_shapes (shape nir) (shape red) = Some (shape out)).
Proof.
  pose proof (ndvi_arrays_cases red nir) as H.
  pose proof (broadcast_shapes_None (shape nir) (shape red)) as N.
  unfold rows, cols.
  destruct (broadcast_shapes (shape nir) (shape red)) as [s|].
  - destruct H as [out [-> Hs]]; repeat split.
    + discriminate.
    + intros C; apply N in C; discriminate.
    + discriminate.
    + intros o [= <-]; now rewrite Hs.
  - rewrite H; repeat split; try tauto.
    + intros e [= <-]; reflexivity.
    + discriminate.
Qed.




(** ** The threshold parameter *)

(** The figure does not depend on the threshold at all. *)
Lemma apply_ndvi_threshold_ignores_threshold ndvi t1 t2 save_path p :
  apply_ndvi_threshold ndvi t1 save_path p
  = apply_ndvi_threshold ndvi t2 save_path p.
Proof. reflexivity. Qed.


(** ** The unit interval *)

(** C1, as stated, fails: with red = -50 and nir = 100 no sum is zero and
    the index is 150 / 50 = 3. *)
Lemma negative_sample_leaves_unit_interval :
  wf_array red_negative /\ wf_array nir_hundred /\
  shape red_negative = shape nir_hundred /\
  Forall2 no_zero_sum (data red_negative) (data nir_hundred) /\
  ndvi_arrays red_negative nir_hundred = Ok (of_rows 1 [[F64.of_Z 3]]) /\
  F64.in_unit_interval (F64.of_Z 3) = false.
Proof.
  repeat split; try reflexivity.
  repeat constructor.
Qed.

(** A sample that is not a number has no zero sum either, and the index
    is not a number. *)
Lemma nan_sample_leaves_unit_interval :
  Forall2 no_zero_sum (data grid_nan) (data nir_hundred) /\
  ndvi_arrays grid_nan nir_hundred = Ok (of_rows 1 [[F64.nan]]) /\
  F64.in_unit_interval F64.nan = false.
Proof.
  repeat split; try reflexivity.
  repeat constructor.
Qed.

(** C1 (amended): for red and NIR grids of identical dimensions whose
    samples are finite and not negative and in which no pixel has
    red + nir == 0, every value of the NDVI array lies in [-1, 1]. *)
Theorem ndvi_in_unit_interval (red nir : ndarray float) :
  wf_array red -> wf_array nir -> shape red = shape nir ->
  Forall2 pixel_in_domain (data red) (data nir) ->
  exists out : ndarray float,
    ndvi_arrays red nir = Ok out /\
    Forall (fun v => F64.in_unit_interval v = true) (data out).
Proof.
  intros Hr Hn E H; eexists; split;
    [apply (ndvi_arrays_same_shape _ _ Hr Hn E)|]; simpl.
  apply (Forall_zip_with pixel_in_domain); [| exact H].
  intros r n [Dr [Dn Ds]].
  apply Rounding.le_one_in_unit_interval.
  apply Samples.ndvi_pixel_le_one; assumption.
Qed.

Lemma ndvi_in_unit_interval_witness :
  exists out : ndarray float,
    ndvi_arrays red_2x2_f nir_2x2_f = Ok out /\
    Forall (fun v => F64.in_unit_interval v = true) (data out).
Proof.
  apply ndvi_in_unit_interval; try reflexivity.
  repeat constructor.
Defined.

(** Integer samples of any NumPy integer type are in the domain of the
    theorem as soon as they are not negative. *)
Lemma integer_samples_in_domain (r n : Z) :
  (0 <= r < 2 ^ 64)%Z -> (0 <= n < 2 ^ 64)%Z ->
  F64.eqb (F64.add (F64.of_Z n) (F64.of_Z r)) F64.zero = false ->
  pixel_in_domain (F64.of_Z r) (F64.of_Z n).
Proof.
  intros Hr Hn Hs; repeat split; auto;
    apply Samples.of_Z_finite_sample; lia.
Qed.

(** ** Special pixels *)

(** C5, as stated, fails on infinite samples: with red = nir = +inf the
    two bands are equal and positive and the index is not a number; with
    red = 0 and nir = +inf it is not a number either. *)
Lemma infinite_sample_special_pixels :
  F64.eqb (S754_infinity false) (S754_infinity false) = true /\
  F64.ltb F64.zero (S754_infinity false) = true /\
  ndvi_arrays grid_inf grid_inf = Ok (of_rows 1 [[F64.nan]]) /\
  ndvi_arrays grid_zero grid_inf = Ok (of_rows 1 [[F64.nan]]) /\
  ndvi_arrays grid_inf grid_zero = Ok (of_rows 1 [[F64.nan]]) /\
  F64.eqb F64.nan F64.zero = false /\
  F64.eqb F64.nan F64.one = false /\
  F64.eqb F64.nan (F64.opp F64.one) = false.
Proof. repeat split. Qed.

(** C5 (amended): on grids of identical dimensions, at every pixel whose
    two samples are finite: where red == nir and both are > 0 the index is
    exactly 0; where red == 0 and nir > 0 it is exactly 1; where nir == 0
    and red > 0 it is exactly -1. *)
Theorem ndvi_special_pixels (red nir : ndarray float) :
  wf_array red -> wf_array nir -> shape red = shape nir ->
  exists out : ndarray float,
    ndvi_arrays red nir = Ok out /\
    forall i j, i < rows red -> j < cols red ->
      let r := item F64.nan red i j in
      let n := item F64.nan nir i j in
      let v := item F64.nan out i j in
      F64.finite_sample r = true -> F64.finite_sample n = true ->
      (F64.eqb r n = true -> F64.ltb F64.zero r = true ->
       F64.ltb F64.zero n = true -> v = F64.zero) /\
      (F64.eqb r F64.zero = true -> F64.ltb F64.zero n = true ->
       v = F64.one) /\
      (F64.eqb n F64.zero = true -> F64.ltb F64.zero r = true ->
       v = F64.opp F64.one).
Proof.
  intros Hr Hn E.
  destruct (ndvi_arrays_ok _ _ Hr Hn E) as [out [Ho _]].
  exists out; split; [exact Ho|]; intros i j Hi Hj r n v Fr Fn.
  unfold v; rewrite (item_ndvi _ _ _ _ _ Hr Hn E Ho Hi Hj); fold r n.
  repeat split; intros.
  - apply Samples.ndvi_pixel_equal; assumption.
  - apply Samples.ndvi_pixel_red_zero; auto.
    now apply Samples.finite_sample_is_finite.
  - apply Samples.ndvi_pixel_nir_zero; auto.
    now apply Samples.finite_sample_is_finite.
Qed.

Lemma ndvi_special_pixels_witness :
  exists out : ndarray float,
    ndvi_arrays red_special nir_special = Ok out /\
    item F64.nan out 0 0 = F64.zero /\
    item F64.nan out 0 1 = F64.one /\
    item F64.nan out 0 2 = F64.opp F64.one.
Proof.
  destruct (ndvi_special_pixels red_special nir_special
              eq_refl eq_refl eq_refl) as [out [Ho H]].
  exists out; split; [exact Ho|].
  assert (Hi : 0 < rows red_special) by (vm_compute; lia).
  assert (H0 : 0 < cols red_special) by (vm_compute; lia).
  assert (H1 : 1 < cols red_special) by (vm_compute; lia).
  assert (H2 : 2 < cols red_special) by (vm_compute; lia).
  split; [| split].
  - apply (H 0 0 Hi H0 eq_refl eq_refl); reflexivity.
  - apply (H 0 1 Hi H1 eq_refl eq_refl); reflexivity.
  - apply (H 0 2 Hi H2 eq_refl eq_refl); reflexivity.
Defined.

(** ** Swapping the bands *)

(** C10, as stated, fails where the index is not a number: with
    red = +inf and nir = 100 the sum is not zero, both orders give
    not-a-number, and not-a-number equals nothing. *)
Lemma infinite_sample_not_antisymmetric :
  Forall2 no_zero_sum (data grid_inf) (data nir_hundred) /\
  ndvi_arrays grid_inf nir_hundred = Ok (of_rows 1 [[F64.nan]]) /\
  ndvi_arrays nir_hundred grid_inf = Ok (of_rows 1 [[F64.nan]]) /\
  F64.eqb F64.nan (F64.opp F64.nan) = false.
Proof.
  repeat split; try reflexivity.
  repeat constructor.
Qed.

(** C10 (amended): on grids of identical dimensions, swapping the red and
    NIR inputs negates the index at every pixel whose samples are finite
    and where red + nir != 0: ndvi(nir, red) == -ndvi(red, nir); at any
    pixel whatever the two are equal or both not a number. *)
Theorem ndvi_antisymmetric (red nir : ndarray float) :
  wf_array red -> wf_array nir -> shape red = shape nir ->
  exists out swapped : ndarray float,
    ndvi_arrays red nir = Ok out /\
    ndvi_arrays nir red = Ok swapped /\
    forall i j, i < rows red -> j < cols red ->
      let r := item F64.nan red i j in
      let n := item F64.nan nir i j in
      F64.same_number (item F64.nan swapped i j)
                          (F64.opp (item F64.nan out i j)) /\
      (F64.finite_sample r = true -> F64.finite_sample n = true ->
       F64.eqb (F64.add n r) F64.zero = false ->
       F64.eqb (item F64.nan swapped i j) (F64.opp (item F64.nan out i j))
       = true).
Proof.
  intros Hr Hn E.
  destruct (ndvi_arrays_ok _ _ Hr Hn E) as [out [Ho _]].
  destruct (ndvi_arrays_ok _ _ Hn Hr (eq_sym E))
    as [swapped [Hs _]].
  exists out, swapped; split; [exact Ho|]; split; [exact Hs|].
  intros i j Hi Hj r n.
  rewrite (item_ndvi _ _ _ _ _ Hr Hn E Ho Hi Hj).
  assert (Hi' : i < rows nir) by (unfold rows in *; now rewrite <- E).
  assert (Hj' : j < cols nir) by (unfold cols in *; now rewrite <- E).
  rewrite (item_ndvi _ _ _ _ _ Hn Hr (eq_sym E) Hs Hi' Hj'); fold r n.
  destruct (Samples.ndvi_pixel_swap r n) as [Heq Hsame].
  split; [exact Hsame|]; intros Fr Fn Hz.
  apply Heq, Samples.ndvi_pixel_not_nan; assumption.
Qed.

Lemma ndvi_antisymmetric_witness :
  exists out swapped : ndarray float,
    ndvi_arrays red_2x2_f nir_2x2_f = Ok out /\
    ndvi_arrays nir_2x2_f red_2x2_f = Ok swapped /\
    F64.eqb (item F64.nan swapped 0 0) (F64.opp (item F64.nan out 0 0))
    = true.
Proof.
  destruct (ndvi_antisymmetric red_2x2_f nir_2x2_f
              eq_refl eq_refl eq_refl) as [out [swapped [Ho [Hs H]]]].
  exists out, swapped; split; [exact Ho|]; split; [exact Hs|].
  assert (Hi : 0 < rows red_2x2_f) by (vm_compute; lia).
  assert (Hj : 0 < cols red_2x2_f) by (vm_compute; lia).
  apply (H 0 0 Hi Hj); reflexivity.
Defined.

(** * Further properties *)

(** ** Values the format holds exactly *)

Module Exact.

Import F64.
Import Rounding.
Import Samples.
Local Open Scope Z_scope.

Lemma scale_cancel a b ea eb c c' :
  c <= c' -> c' <= ea -> c' <= eb ->
  a * 2 ^ (ea - c) = b * 2 ^ (eb - c) ->
  a * 2 ^ (ea - c') = b * 2 ^ (eb - c').
Proof.
  intros H1 H2 H3 E.
  replace (ea - c) with (ea - c' + (c' - c)) in E by lia.
  replace (eb - c) with (eb - c' + (c' - c)) in E by lia.
  rewrite !Z.pow_add_r, !Z.mul_assoc in E by lia.
  apply Z.mul_reg_r in E; auto.
  apply Z.neq_sym, Z.lt_neq, Z.pow_pos_nonneg; lia.
Qed.

(** A value has one normal form only. *)
Lemma canonical_unique m1 t1 m2 t2 :
  0 < m1 -> 0 < m2 -> canonical m1 t1 -> canonical m2 t2 ->
  m1 * 2 ^ (t1 - Z.min t1 t2) = m2 * 2 ^ (t2 - Z.min t1 t2) ->
  m1 = m2 /\ t1 = t2.
Proof.
  intros H1 H2 C1 C2 E.
  pose proof (value_eq_digits m1 t1 m2 t2 H1 H2 E) as D.
  assert (Et : t1 = t2) by (unfold canonical in *; congruence).
  subst t2; split; [| reflexivity].
  replace (Z.min t1 t1) with t1 in E by lia.
  rewrite Z.sub_diag, Z.pow_0_r in E; lia.
Qed.

(** Rounding a value that the format holds gives that value, in its
    normal form. *)
Lemma binary_round_canonical s p e m t :
  -1074 <= e -> canonical (Zpos m) t -> t <= 971 ->
  Zpos p * 2 ^ (e - Z.min e t) = Zpos m * 2 ^ (t - Z.min e t) ->
  binary_round prec emax s p e = S754_finite s m t.
Proof.
  intros He C Bt E.
  destruct (Z.le_gt_cases e t) as [L|G].
  - replace (Z.min e t) with e in E by lia.
    rewrite Z.sub_diag, Z.pow_0_r, Z.mul_1_r in E.
    destruct (binary_round_spec s p e He)
      as [m' [t' [V [-> [C' [HV [EV [U Lw]]]]]]]].
    assert (V = Zpos p).
    { specialize (U (Zpos m) t ltac:(lia) L C ltac:(lia)).
      specialize (Lw (Zpos m) t ltac:(lia) L C ltac:(lia)).
      lia. }
    subst V.
    assert (X : Zpos m' * 2 ^ (t' - Z.min t' t)
                = Zpos m * 2 ^ (t - Z.min t' t)).
    { apply (scale_cancel _ _ _ _ (Z.min t' e)); try lia.
      rewrite EV, E, <- Z.mul_assoc, <- Z.pow_add_r by lia.
      f_equal; f_equal; lia. }
    destruct (canonical_unique (Zpos m') t' (Zpos m) t) as [Em Et];
      try lia; auto.
    injection Em as ->; subst t'.
    destruct (Z.leb_spec t 971); [reflexivity | lia].
  - replace (Z.min e t) with t in E by lia.
    rewrite Z.sub_diag, Z.pow_0_r, Z.mul_1_r in E.
    assert (D : digits (Zpos p) + e = digits (Zpos m) + t).
    { rewrite <- E, digits_mul_pow2 by lia; lia. }
    assert (F : fexp (digits (Zpos p) + e) = t)
      by (rewrite D; exact C).
    destruct (binary_round_exact s p e ltac:(rewrite F; lia))
      as [m' [Em ->]].
    rewrite F in *.
    assert (m' = m) by lia; subst m'.
    destruct (Z.leb_spec t 971); [reflexivity | lia].
Qed.

(** *** Integer samples are held exactly *)

Lemma digits_lt_pow2 m k : 0 < m -> m < 2 ^ k -> digits m <= k.
Proof.
  intros Hm H; destruct (digits_bounds m Hm) as [Hd [L _]].
  destruct (Z.le_gt_cases 0 k) as [Hk|Hk].
  - assert (digits m - 1 < k) by (apply pow2_lt_inv; lia); lia.
  - rewrite Z.pow_neg_r in H by lia; lia.
Qed.

(** The normal form of a positive integer below 2^53. *)
Lemma binary_round_integer s p :
  Zpos p < 2 ^ 53 ->
  exists m t,
    binary_round prec emax s p 0 = S754_finite s m t /\
    canonical (Zpos m) t /\ -1074 <= t <= 0 /\
    Zpos m = Zpos p * 2 ^ (- t).
Proof.
  intros Hp.
  pose proof (digits_lt_pow2 (Zpos p) 53 ltac:(lia) Hp) as D.
  destruct (digits_bounds (Zpos p) ltac:(lia)) as [Dp _].
  assert (F : fexp (digits (Zpos p) + 0) <= 0) by (rewrite fexp_eq; lia).
  destruct (binary_round_exact s p 0 F) as [m [Em ->]].
  set (f := fexp (digits (Zpos p) + 0)) in *.
  assert (Bf : -1074 <= f) by (unfold f; rewrite fexp_eq; lia).
  exists m, f; destruct (Z.leb_spec f 971); [| lia].
  split; [reflexivity|]; split; [| split; [lia | exact Em]].
  unfold canonical; rewrite Em, digits_mul_pow2 by lia.
  replace (digits (Zpos p) + (0 - f) + f) with (digits (Zpos p) + 0) by lia.
  reflexivity.
Qed.

(** An integer written at a scale [2^e], [e <= 0], rounds to what the
    conversion of the integer gives. *)
Lemma normalize_integer d e :
  -1074 <= e <= 0 -> Z.abs d < 2 ^ 53 ->
  binary_normalize prec emax (d * 2 ^ (- e)) e false = of_Z d.
Proof.
  intros He Hd.
  assert (P : 0 < 2 ^ (- e)) by (apply Z.pow_pos_nonneg; lia).
  unfold of_Z; destruct d as [|q|q].
  - reflexivity.
  - destruct (binary_round_integer false q Hd) as [m [t [E [C [Bt Em]]]]].
    simpl binary_normalize at 2; rewrite E.
    destruct (Zpos q * 2 ^ (- e)) as [|p|p] eqn:Ep; try lia.
    simpl; apply binary_round_canonical; try lia; auto.
    rewrite <- Ep, Em, <- !Z.mul_assoc, <- !Z.pow_add_r by lia.
    f_equal; f_equal; lia.
  - destruct (binary_round_integer true q Hd) as [m [t [E [C [Bt Em]]]]].
    simpl binary_normalize at 2; rewrite E.
    destruct (Zneg q * 2 ^ (- e)) as [|p|p] eqn:Ep; try lia.
    simpl; apply binary_round_canonical; try lia; auto.
    assert (Ep' : Zpos p = Zpos q * 2 ^ (- e)) by lia.
    rewrite Ep', Em, <- !Z.mul_assoc, <- !Z.pow_add_r by lia.
    f_equal; f_equal; lia.
Qed.

(** The converted integer, as a mantissa at any scale below its own. *)
Lemma of_Z_aligned z :
  z <> 0 -> Z.abs z < 2 ^ 53 ->
  exists s m t,
    of_Z z = S754_finite s m t /\ canonical (Zpos m) t /\
    -1074 <= t <= 0 /\
    forall e, e <= t -> cond_Zopp s (aligned m t e) = z * 2 ^ (- e).
Proof.
  intros Hz Hb; unfold of_Z; destruct z as [|q|q]; [lia| |].
  - destruct (binary_round_integer false q Hb) as [m [t [E [C [Bt Em]]]]].
    exists false, m, t; simpl binary_normalize; split; [exact E|].
    split; [exact C|]; split; [exact Bt|]; intros e He.
    unfold aligned; cbn [cond_Zopp].
    rewrite Em, <- Z.mul_assoc, <- Z.pow_add_r by lia.
    f_equal; f_equal; lia.
  - destruct (binary_round_integer true q Hb) as [m [t [E [C [Bt Em]]]]].
    exists true, m, t; simpl binary_normalize; split; [exact E|].
    split; [exact C|]; split; [exact Bt|]; intros e He.
    unfold aligned; cbn [cond_Zopp].
    rewrite Em, <- Z.mul_assoc, <- Z.pow_add_r by lia.
    change (Zneg q) with (- Zpos q).
    rewrite Z.mul_opp_l; f_equal; f_equal; f_equal; lia.
Qed.

Lemma of_Z_opp z : of_Z (- z) = opp (of_Z z) \/ z = 0.
Proof.
  destruct (Z.eq_dec z 0) as [E|E]; [now right | left].
  unfold of_Z; apply opp_normalize; exact E.
Qed.

(** Differences and sums of converted integers are the converted
    differences and sums: nothing is rounded and nothing wraps around. *)
Lemma sub_of_Z n r :
  Z.abs n < 2 ^ 52 -> Z.abs r < 2 ^ 52 ->
  sub (of_Z n) (of_Z r) = of_Z (n - r).
Proof.
  intros Hn Hr.
  assert (B : 2 ^ 53 = 2 * 2 ^ 52) by reflexivity.
  destruct (Z.eq_dec r 0) as [->|Nr].
  { rewrite Z.sub_0_r; unfold of_Z at 2; simpl binary_normalize.
    destruct (of_Z n) as [[]|[]| |]; reflexivity. }
  destruct (Z.eq_dec n 0) as [->|Nn].
  { destruct (of_Z_opp r) as [E|E]; [| contradiction].
    simpl (0 - r); rewrite E.
    destruct (of_Z_aligned r Nr ltac:(lia)) as [s [m [t [-> _]]]].
    reflexivity. }
  destruct (of_Z_aligned n Nn ltac:(lia)) as [sn [mn [tn [-> [Cn [Bn An]]]]]].
  destruct (of_Z_aligned r Nr ltac:(lia)) as [sr [mr [tr [-> [Cr [Br Ar]]]]]].
  rewrite sub_finite, An, Ar by lia.
  rewrite <- Z.mul_sub_distr_r.
  apply normalize_integer; lia.
Qed.

Lemma add_of_Z n r :
  Z.abs n < 2 ^ 52 -> Z.abs r < 2 ^ 52 ->
  add (of_Z n) (of_Z r) = of_Z (n + r).
Proof.
  intros Hn Hr.
  assert (B : 2 ^ 53 = 2 * 2 ^ 52) by reflexivity.
  destruct (Z.eq_dec r 0) as [->|Nr].
  { rewrite Z.add_0_r.
    destruct (Z.eq_dec n 0) as [->|Nn]; [reflexivity|].
    destruct (of_Z_aligned n Nn ltac:(lia)) as [s [m [t [-> _]]]].
    reflexivity. }
  destruct (Z.eq_dec n 0) as [->|Nn].
  { simpl (0 + r).
    destruct (of_Z_aligned r Nr ltac:(lia)) as [s [m [t [-> _]]]].
    reflexivity. }
  destruct (of_Z_aligned n Nn ltac:(lia)) as [sn [mn [tn [-> [Cn [Bn An]]]]]].
  destruct (of_Z_aligned r Nr ltac:(lia)) as [sr [mr [tr [-> [Cr [Br Ar]]]]]].
  rewrite add_finite, An, Ar by lia.
  rewrite <- Z.mul_add_distr_r.
  apply normalize_integer; lia.
Qed.

(** Conversion keeps integers apart, and zero is the only one it sends
    to zero. *)
Lemma of_Z_inj z1 z2 :
  Z.abs z1 < 2 ^ 53 -> Z.abs z2 < 2 ^ 53 ->
  of_Z z1 = of_Z z2 -> z1 = z2.
Proof.
  intros H1 H2 E.
  destruct (Z.eq_dec z1 0) as [->|N1], (Z.eq_dec z2 0) as [->|N2]; auto.
  - destruct (of_Z_aligned z2 N2 H2) as [s [m [t [E2 _]]]].
    rewrite E2 in E; discriminate.
  - destruct (of_Z_aligned z1 N1 H1) as [s [m [t [E1 _]]]].
    rewrite E1 in E; discriminate.
  - destruct (of_Z_aligned z1 N1 H1) as [s1 [m1 [t1 [E1 [_ [B1 A1]]]]]].
    destruct (of_Z_aligned z2 N2 H2) as [s2 [m2 [t2 [E2 [_ [B2 A2]]]]]].
    rewrite E1, E2 in E; injection E as -> -> ->.
    specialize (A1 t2 ltac:(lia)); specialize (A2 t2 ltac:(lia)).
    rewrite A1 in A2.
    apply Z.mul_reg_r in A2; auto.
    apply Z.neq_sym, Z.lt_neq, Z.pow_pos_nonneg; lia.
Qed.

Lemma of_Z_eqb_zero z :
  Z.abs z < 2 ^ 53 -> (eqb (of_Z z) zero = true <-> z = 0).
Proof.
  intros Hz; split.
  - intros E; destruct (Z.eq_dec z 0) as [|N]; auto.
    destruct (of_Z_aligned z N Hz) as [s [m [t [Ez _]]]].
    rewrite Ez in E; destruct s; discriminate.
  - intros ->; reflexivity.
Qed.

End Exact.

(** ** The sign of the index, and where it is not a number *)

Module Signs.
Import F64. Import Rounding. Import Samples.
Local Open Scope Z_scope.

Lemma normalize_nonneg z e :
  -1074 <= e -> 0 <= z ->
  leb zero (binary_normalize prec emax z e false) = true.
Proof.
  intros He Hz; destruct z as [|p|p]; [reflexivity| |lia].
  simpl binary_normalize.
  destruct (binary_round_spec false p e He) as [m [t [V [-> _]]]].
  destruct (t <=? 971); reflexivity.
Qed.

Lemma normalize_nonpos z e :
  -1074 <= e -> z <= 0 ->
  leb (binary_normalize prec emax z e false) zero = true.
Proof.
  intros He Hz; destruct z as [|p|p]; [reflexivity|lia|].
  simpl binary_normalize.
  destruct (binary_round_spec true p e He) as [m [t [V [-> _]]]].
  destruct (t <=? 971); reflexivity.
Qed.

(** The comparison of two positive numbers in normal form is the
    comparison of their values. *)
Lemma leb_finite_vle m1 e1 m2 e2 :
  canonical (Zpos m1) e1 -> canonical (Zpos m2) e2 ->
  leb (S754_finite false m1 e1) (S754_finite false m2 e2) = true ->
  vle (Zpos m1) e1 (Zpos m2) e2.
Proof.
  intros C1 C2; unfold leb, SFleb, SFcompare.
  destruct (Z.compare_spec e1 e2) as [E|L|G]; [| |discriminate].
  - subst e2; rewrite Pos.compare_cont_spec; simpl.
    destruct (Pos.compare_spec m1 m2); try discriminate; intros _;
      apply (vle_intro e1); try lia; rewrite Z.sub_diag, Z.pow_0_r; lia.
  - intros _.
    destruct (canonical_digits _ _ C1) as [D1 B1].
    unfold canonical in C2; rewrite fexp_eq in C2.
    assert (D2 : digits (Zpos m2) = 53) by lia.
    destruct (digits_bounds (Zpos m1) ltac:(lia)) as [_ [_ U1]].
    destruct (digits_bounds (Zpos m2) ltac:(lia)) as [_ [L2 _]].
    rewrite D2 in L2; change (2 ^ (53 - 1)) with (2 ^ 52) in L2.
    assert (U : Zpos m1 < 2 ^ 53).
    { eapply Z.lt_le_trans; [exact U1|].
      apply Z.pow_le_mono_r; lia. }
    assert (P : 2 ^ 1 <= 2 ^ (e2 - e1)) by (apply Z.pow_le_mono_r; lia).
    change (2 ^ 1) with 2 in P.
    change (2 ^ 53) with (2 ^ 52 * 2) in U.
    apply (vle_intro e1); try lia.
    rewrite Z.sub_diag, Z.pow_0_r, Z.mul_1_r; nia.
Qed.

Lemma nonneg_is_finite_sample (x : float) :
  nonneg_sample x = true -> finite_sample x = true.
Proof.
  unfold nonneg_sample, finite_sample; intros H.
  apply andb_true_iff in H; tauto.
Qed.

(** The difference has the sign the comparison of the bands tells. *)
Lemma sub_sign (red nir : float) :
  nonneg_sample red = true -> nonneg_sample nir = true ->
  (leb red nir = true -> leb zero (sub nir red) = true) /\
  (leb nir red = true -> leb (sub nir red) zero = true).
Proof.
  destruct red as [sr|sr| |sr mr er], nir as [sn|sn| |sn mn en];
    try discriminate; intros Hr Hn.
  - destruct sr, sn; split; reflexivity.
  - apply nonneg_finite_inv in Hn; destruct Hn as [-> _].
    split; [reflexivity | discriminate].
  - apply nonneg_finite_inv in Hr; destruct Hr as [-> _].
    split; [discriminate | reflexivity].
  - apply nonneg_finite_inv in Hr; destruct Hr as [-> [Cr Br]].
    apply nonneg_finite_inv in Hn; destruct Hn as [-> [Cn Bn]].
    destruct (canonical_digits _ _ Cr) as [_ Er].
    destruct (canonical_digits _ _ Cn) as [_ En].
    rewrite sub_finite; cbn [cond_Zopp].
    split; intros L.
    + apply normalize_nonneg; [lia|].
      pose proof (leb_finite_vle _ _ _ _ Cr Cn L (Z.min en er)
                    ltac:(lia) ltac:(lia)) as V.
      unfold aligned; lia.
    + apply normalize_nonpos; [lia|].
      pose proof (leb_finite_vle _ _ _ _ Cn Cr L (Z.min en er)
                    ltac:(lia) ltac:(lia)) as V.
      unfold aligned; lia.
Qed.

(** The sum of two samples that are not negative is zero only when both
    are, and is positive otherwise. *)
Lemma add_zero_inv (red nir : float) :
  nonneg_sample red = true -> nonneg_sample nir = true ->
  eqb (add nir red) zero = true ->
  eqb red zero = true /\ eqb nir zero = true.
Proof.
  destruct red as [sr|sr| |sr mr er], nir as [sn|sn| |sn mn en];
    try discriminate; intros Hr Hn.
  - intros _; split; reflexivity.
  - apply nonneg_finite_inv in Hn; destruct Hn as [-> _]; discriminate.
  - apply nonneg_finite_inv in Hr; destruct Hr as [-> _]; discriminate.
  - apply nonneg_finite_inv in Hr; destruct Hr as [-> [Cr Br]].
    apply nonneg_finite_inv in Hn; destruct Hn as [-> [Cn Bn]].
    destruct (canonical_digits _ _ Cr) as [_ Er].
    destruct (canonical_digits _ _ Cn) as [_ En].
    rewrite add_finite; cbn [cond_Zopp].
    pose proof (aligned_pos mn en (Z.min en er) ltac:(lia)) as Pn.
    pose proof (aligned_pos mr er (Z.min en er) ltac:(lia)) as Pr.
    assert (A : above (binary_normalize prec emax
                         (aligned mn en (Z.min en er)
                          + aligned mr er (Z.min en er))
                         (Z.min en er) false) (Zpos mn) en).
    { apply normalize_above; try lia; auto.
      fold (aligned mn en (Z.min en er)); lia. }
    destruct (above_not_zero _ _ _ A) as [_ E]; rewrite E; discriminate.
Qed.

Lemma add_positive (red nir : float) :
  nonneg_sample red = true -> nonneg_sample nir = true ->
  eqb (add nir red) zero = false ->
  ltb zero (add nir red) = true.
Proof.
  destruct red as [sr|sr| |sr mr er], nir as [sn|sn| |sn mn en];
    try discriminate; intros Hr Hn.
  - destruct sr, sn; discriminate.
  - apply nonneg_finite_inv in Hn; destruct Hn as [-> _]; reflexivity.
  - apply nonneg_finite_inv in Hr; destruct Hr as [-> _]; reflexivity.
  - apply nonneg_finite_inv in Hr; destruct Hr as [-> [Cr Br]].
    apply nonneg_finite_inv in Hn; destruct Hn as [-> [Cn Bn]].
    destruct (canonical_digits _ _ Cr) as [_ Er].
    destruct (canonical_digits _ _ Cn) as [_ En].
    rewrite add_finite; cbn [cond_Zopp].
    pose proof (aligned_pos mn en (Z.min en er) ltac:(lia)) as Pn.
    pose proof (aligned_pos mr er (Z.min en er) ltac:(lia)) as Pr.
    destruct (aligned mn en (Z.min en er) + aligned mr er (Z.min en er))
      as [|p|p] eqn:Ep; try lia.
    intros _; simpl binary_normalize.
    destruct (binary_round_spec false p (Z.min en er) ltac:(lia))
      as [m [t [V [-> _]]]].
    destruct (t <=? 971); reflexivity.
Qed.

Lemma round_aux_sign s m e l :
  0 <= m ->
  (s = false -> leb zero (binary_round_aux prec emax s m e l) = true) /\
  (s = true -> leb (binary_round_aux prec emax s m e l) zero = true).
Proof.
  intros Hm.
  destruct (binary_round_aux_spec s m e l Hm) as [m1 [Hb [_ [_ ->]]]].
  set (t := Z.max e (fexp (digits m + e))) in *.
  set (t2 := Z.max t (fexp (digits m1 + t))).
  assert (0 <= m / 2 ^ (t - e))
    by (apply Z.div_pos; [lia | apply Z.pow_pos_nonneg; unfold t; lia]).
  assert (0 <= m1 / 2 ^ (t2 - t))
    by (apply Z.div_pos; [lia | apply Z.pow_pos_nonneg; unfold t2; lia]).
  destruct (m1 / 2 ^ (t2 - t)) as [|p|p]; try lia;
    split; intros ->; try reflexivity;
    destruct (t2 <=? F64.emax - F64.prec); reflexivity.
Qed.

(** A quotient by a positive number keeps the sign of the dividend. *)
Lemma div_sign (x y : float) :
  is_nan (div x y) = false -> ltb zero y = true ->
  (leb zero x = true -> leb zero (div x y) = true) /\
  (leb x zero = true -> leb (div x y) zero = true).
Proof.
  destruct x as [sx|sx| |sx mx ex], y as [sy|sy| |sy my ey];
    try discriminate; intros N P;
    try (destruct sy; try discriminate);
    try (destruct sx; split; (reflexivity || discriminate)).
  unfold div, SFdiv.
  rewrite SFdiv_core_binary_spec by lia.
  match goal with
  | |- context [binary_round_aux _ _ ?s ?m ?e ?l] =>
      assert (Hm : 0 <= m)
        by (apply Z.div_pos; [| lia];
            apply Z.mul_nonneg_nonneg; [lia | apply Z.pow_nonneg; lia]);
      destruct (round_aux_sign s m e l Hm) as [A B]
  end.
  destruct sx; split; intros H; try discriminate;
    [apply B | apply A]; reflexivity.
Qed.

Lemma ndvi_pixel_sign (red nir : float) :
  nonneg_sample red = true -> nonneg_sample nir = true ->
  eqb (add nir red) zero = false ->
  (leb red nir = true -> leb zero (ndvi_pixel red nir) = true) /\
  (leb nir red = true -> leb (ndvi_pixel red nir) zero = true).
Proof.
  intros Hr Hn Hs.
  pose proof (ndvi_pixel_not_nan red nir (nonneg_is_finite_sample _ Hr)
                (nonneg_is_finite_sample _ Hn) Hs) as N.
  destruct (sub_sign red nir Hr Hn) as [S1 S2].
  destruct (div_sign _ _ N (add_positive red nir Hr Hn Hs)) as [D1 D2].
  split; intros L; [apply D1, S1 | apply D2, S2]; exact L.
Qed.

(** With samples that are not negative the index is not a number exactly
    where both bands are zero, and lies in [-1, 1] everywhere else. *)
Lemma ndvi_pixel_nonneg (red nir : float) :
  nonneg_sample red = true -> nonneg_sample nir = true ->
  (is_nan (ndvi_pixel red nir) = true
   <-> eqb red zero = true /\ eqb nir zero = true) /\
  (is_nan (ndvi_pixel red nir) = false ->
   in_unit_interval (ndvi_pixel red nir) = true) /\
  is_inf (ndvi_pixel red nir) = false.
Proof.
  intros Hr Hn.
  destruct (eqb (add nir red) zero) eqn:Hs.
  - destruct (add_zero_inv red nir Hr Hn Hs) as [Zr Zn].
    destruct (eqb_zero_inv _ Zr) as [sr ->].
    destruct (eqb_zero_inv _ Zn) as [sn ->].
    destruct sr, sn; repeat split; auto; discriminate.
  - pose proof (ndvi_pixel_le_one red nir Hr Hn Hs) as L.
    pose proof (ndvi_pixel_not_nan red nir (nonneg_is_finite_sample _ Hr)
                  (nonneg_is_finite_sample _ Hn) Hs) as N.
    split; [| split].
    + split; [rewrite N; discriminate|].
      intros [Zr Zn].
      destruct (eqb_zero_inv _ Zr) as [sr ->].
      destruct (eqb_zero_inv _ Zn) as [sn ->].
      destruct sr, sn; discriminate.
    + intros _; apply le_one_in_unit_interval; exact L.
    + destruct (ndvi_pixel red nir); simpl in L; try tauto; reflexivity.
Qed.

End Signs.

(** ** compute_ndvi: failures, stretched grids, integer rasters *)

Lemma nth_tabulate {A} (d : A) r c (f : nat -> nat -> A) i j :
  i < r -> j < c -> nth (i * c + j) (tabulate r c f) d = f i j.
Proof.
  revert f i; induction r as [|r IH]; intros f i Hi Hj; [lia|].
  rewrite tabulate_S; destruct i as [|i].
  - rewrite app_nth1 by (rewrite length_map, length_seq; exact Hj).
    simpl; rewrite (nth_indep _ d (f 0 0))
      by (rewrite length_map, length_seq; exact Hj).
    rewrite map_nth, seq_nth by exact Hj; reflexivity.
  - rewrite app_nth2 by (rewrite length_map, length_seq; simpl; lia).
    rewrite length_map, length_seq.
    replace (S i * c + j - c) with (i * c + j) by (simpl; lia).
    apply (IH (fun i => f (S i))); lia.
Qed.

Lemma broadcast_dim_stretch n m r i :
  broadcast_dim n m = Some r -> i < r ->
  stretch n i < n /\ stretch m i < m.
Proof.
  unfold broadcast_dim, stretch.
  destruct (Nat.eqb_spec n m), (Nat.eqb_spec n 1), (Nat.eqb_spec m 1);
    intros [= <-] Hi; try discriminate; lia.
Qed.

Lemma zip_with_map {A B A' B' C} (f : A' -> B' -> C) (g : A -> A')
    (h : B -> B') (l : list A) (m : list B) :
  zip_with f (map g l) (map h m) = zip_with (fun x y => f (g x) (h y)) l m.
Proof.
  revert m; induction l as [|x l IH]; intros [|y m]; simpl; auto.
  now rewrite IH.
Qed.

Lemma zip_with_ext_Forall {A B C} (P : A -> Prop) (Q : B -> Prop)
    (f g : A -> B -> C) (l : list A) (m : list B) :
  (forall x y, P x -> Q y -> f x y = g x y) ->
  Forall P l -> Forall Q m -> zip_with f l m = zip_with g l m.
Proof.
  intros E Hl; revert m; induction Hl as [|x l Hx Hl IH];
    intros m Hm; [reflexivity|].
  destruct Hm as [|y m Hy Hm]; [reflexivity|].
  simpl; rewrite (E x y Hx Hy), (IH m Hm); reflexivity.
Qed.

Lemma map_inj_Forall {A B} (P : A -> Prop) (f : A -> B) (l m : list A) :
  (forall x y, P x -> P y -> f x = f y -> x = y) ->
  Forall P l -> Forall P m -> map f l = map f m -> l = m.
Proof.
  intros I Hl; revert m; induction Hl as [|x l Hx Hl IH];
    intros m Hm E; destruct Hm as [|y m Hy Hm]; try discriminate; auto.
  simpl in E; injection E as E1 E2.
  rewrite (I x y Hx Hy E1), (IH m Hm E2); reflexivity.
Qed.

(** A path that names no raster: the call raises the error of
    [rasterio.open] and creates no array. *)
Theorem compute_ndvi_missing_file image_path (w : world) :
  lookup_file image_path (files w) = None ->
  compute_ndvi image_path w = (Err RasterioIOError, w).
Proof.
  intros H; rewrite compute_ndvi_effects; unfold ndvi_effects; rewrite H.
  simpl; rewrite app_nil_r; destruct w; reflexivity.
Qed.

Lemma compute_ndvi_missing_file_witness :
  compute_ndvi "east_campus.tif" sample_world
  = (Err RasterioIOError, sample_world).
Proof.
  apply (compute_ndvi_missing_file "east_campus.tif" sample_world).
  reflexivity.
Defined.

(** A raster with fewer than four bands: the call raises IndexError and
    leaves the files as they are.  With fewer than three bands the failing
    read is the first one and nothing is created; with exactly three, the
    red band has already been converted when the read of band 4 fails. *)
Theorem compute_ndvi_too_few_bands image_path (w : world) src :
  lookup_file image_path (files w) = Some src ->
  List.length (bands src) < 4 ->
  fst (compute_ndvi image_path w) = Err IndexError /\
  outcome image_path w = Err IndexError /\
  files (snd (compute_ndvi image_path w)) = files w /\
  (List.length (bands src) < 3 -> snd (compute_ndvi image_path w) = w) /\
  (forall b3, nth_error (bands src) 2 = Some b3 ->
     heap (snd (compute_ndvi image_path w)) = heap w ++ [astype_float b3]).
Proof.
  intros Hf Hn.
  assert (N4 : nth_error (bands src) 3 = None)
    by (apply nth_error_None; lia).
  rewrite outcome_effects, compute_ndvi_effects; unfold ndvi_effects.
  rewrite Hf; unfold read; rewrite N4.
  destruct (nth_error (bands src) 2) as [b|] eqn:E3; simpl.
  - repeat split; auto.
    + intros L.
      assert (nth_error (bands src) 2 = None)
        by (apply nth_error_None; lia).
      congruence.
    + now intros b3 [= ->].
  - repeat split; auto.
    + intros _; rewrite app_nil_r; destruct w; reflexivity.
    + discriminate.
Qed.

Lemma compute_ndvi_too_few_bands_witness :
  let src := mk_dataset 2 2
               [IntBand nir_2x2; IntBand nir_2x2; IntBand red_2x2] in
  let w := mk_world [("rgb.tif"%string, src)] [] in
  fst (compute_ndvi "rgb.tif" w) = Err IndexError /\
  heap (snd (compute_ndvi "rgb.tif" w)) = [red_2x2_f].
Proof.
  intros src w.
  destruct (compute_ndvi_too_few_bands "rgb.tif" w src eq_refl
              ltac:(simpl; lia)) as [H1 [_ [_ [_ H5]]]].
  split; [exact H1 | exact (H5 (IntBand red_2x2) eq_refl)].
Defined.

Lemma zip_with_app {A B C} (f : A -> B -> C) l1 l2 m1 m2 :
  List.length l1 = List.length m1 ->
  zip_with f (l1 ++ l2) (m1 ++ m2) = zip_with f l1 m1 ++ zip_with f l2 m2.
Proof.
  revert m1; induction l1 as [|x l1 IH]; intros [|y m1] H;
    try discriminate; simpl; auto.
  rewrite IH; auto.
Qed.

Lemma zip_with_tabulate {A B C} (f : A -> B -> C) r c
    (g : nat -> nat -> A) (h : nat -> nat -> B) :
  zip_with f (tabulate r c g) (tabulate r c h)
  = tabulate r c (fun i j => f (g i j) (h i j)).
Proof.
  revert g h; induction r as [|r IH]; intros g h; [reflexivity|].
  rewrite !tabulate_S, zip_with_app by (now rewrite !length_map).
  rewrite IH; f_equal.
  rewrite zip_with_map; generalize (seq 0 c); intros l.
  induction l as [|x l IHl]; simpl; congruence.
Qed.

(** What an element-wise operation computes, pixel by pixel. *)
Lemma binop_items f (a b out : ndarray float) :
  binop f a b = Ok out ->
  exists r c,
    broadcast_dim (rows a) (rows b) = Some r /\
    broadcast_dim (cols a) (cols b) = Some c /\
    out = mk_ndarray (r, c)
            (tabulate r c (fun i j =>
               f (item F64.nan a (stretch (rows a) i) (stretch (cols a) j))
                 (item F64.nan b (stretch (rows b) i) (stretch (cols b) j)))).
Proof.
  unfold binop, broadcast_shapes, rows, cols.
  destruct (broadcast_dim (fst (shape a)) (fst (shape b))) as [r|];
    [| discriminate].
  destruct (broadcast_dim (snd (shape a)) (snd (shape b))) as [c|];
    [| discriminate].
  intros [= <-]; exists r, c; split; [reflexivity|]; split; [reflexivity|].
  unfold broadcast_to; cbn [data fst snd].
  rewrite zip_with_tabulate; reflexivity.
Qed.

Lemma item_tabulate {A} (d : A) r c (f : nat -> nat -> A) i j :
  i < r -> j < c -> item d (mk_ndarray (r, c) (tabulate r c f)) i j = f i j.
Proof. intros Hi Hj; unfold item, cols; simpl; now apply nth_tabulate. Qed.

(** Whatever the two shapes, each pixel of a result is the formula applied
    to one pixel of each operand, and that pixel exists: along an axis
    of length one it is the only one, otherwise the one at the same
    index. *)
Theorem ndvi_arrays_broadcast_items (red nir out : ndarray float) i j :
  ndvi_arrays red nir = Ok out ->
  i < rows out -> j < cols out ->
  item F64.nan out i j
  = ndvi_pixel
      (item F64.nan red (stretch (rows red) i) (stretch (cols red) j))
      (item F64.nan nir (stretch (rows nir) i) (stretch (cols nir) j)) /\
  stretch (rows red) i < rows red /\ stretch (cols red) j < cols red /\
  stretch (rows nir) i < rows nir /\ stretch (cols nir) j < cols nir.
Proof.
  unfold ndvi_arrays.
  destruct (binop F64.sub nir red) as [d|] eqn:Ed; [| discriminate].
  destruct (binop F64.add nir red) as [s|] eqn:Es; [| discriminate].
  cbn [rbind]; intros Eo.
  destruct (binop_items _ _ _ _ Ed) as [r [c [Hr [Hc ->]]]].
  destruct (binop_items _ _ _ _ Es) as [r' [c' [Hr' [Hc' ->]]]].
  assert (r' = r) by congruence; assert (c' = c) by congruence; subst r' c'.
  destruct (binop_items _ _ _ _ Eo) as [r2 [c2 [Hr2 [Hc2 ->]]]].
  unfold rows, cols in Hr2, Hc2; cbn [shape fst snd] in Hr2, Hc2.
  rewrite broadcast_dim_same in Hr2, Hc2.
  injection Hr2 as <-; injection Hc2 as <-.
  unfold rows at 1, cols at 1; cbn [shape fst snd]; intros Hi Hj.
  destruct (broadcast_dim_stretch _ _ _ i Hr Hi) as [Rn Rr].
  destruct (broadcast_dim_stretch _ _ _ j Hc Hj) as [Cn Cr].
  split; [| tauto].
  rewrite item_tabulate by assumption.
  cbn [rows cols shape fst snd].
  rewrite !(stretch_id r i Hi), !(stretch_id c j Hj).
  rewrite !item_tabulate by assumption.
  reflexivity.
Qed.

Lemma ndvi_arrays_broadcast_items_witness :
  item F64.nan (of_rows 2 [[one_third; F64.zero]; [F64.zero; one_third]]) 1 0
  = ndvi_pixel (item F64.nan red_1x2_f 0 0) (item F64.nan nir_2x2_f 1 0).
Proof.
  apply (ndvi_arrays_broadcast_items red_1x2_f nir_2x2_f
           (of_rows 2 [[one_third; F64.zero]; [F64.zero; one_third]]) 1 0).
  - vm_compute; reflexivity.
  - vm_compute; lia.
  - vm_compute; lia.
Defined.

(** Integer samples below 2^52 in magnitude: the difference and the sum
    are computed without any rounding, so that each pixel is the quotient,
    rounded once, of the integers [nir - red] and [nir + red]. *)
Theorem integer_bands_rounded_once (red nir : ndarray Z) :
  wf_array red -> wf_array nir -> shape red = shape nir ->
  Forall (fun z => (Z.abs z < 2 ^ 52)%Z) (data red) ->
  Forall (fun z => (Z.abs z < 2 ^ 52)%Z) (data nir) ->
  ndvi_arrays (astype_float (IntBand red)) (astype_float (IntBand nir))
  = Ok (mk_ndarray (shape red)
          (zip_with (fun r n => F64.div (F64.of_Z (n - r)) (F64.of_Z (n + r)))
                    (data red) (data nir))).
Proof.
  intros Wr Wn E Fr Fn.
  destruct (wf_astype_float (fst (shape red)) (snd (shape red)) (IntBand red))
    as [Wr' Sr'].
  { split; [simpl; now destruct (shape red) | exact Wr]. }
  destruct (wf_astype_float (fst (shape red)) (snd (shape red)) (IntBand nir))
    as [Wn' Sn'].
  { split; [simpl; rewrite <- E; now destruct (shape red) | exact Wn]. }
  rewrite ndvi_arrays_same_shape by (auto; congruence).
  unfold astype_float, amap; cbn [shape data]; f_equal; f_equal.
  rewrite zip_with_map.
  apply (zip_with_ext_Forall (fun z => (Z.abs z < 2 ^ 52)%Z)
           (fun z => (Z.abs z < 2 ^ 52)%Z)); auto.
  intros r n Hr Hn; unfold ndvi_pixel.
  rewrite (Exact.sub_of_Z n r Hn Hr), (Exact.add_of_Z n r Hn Hr).
  reflexivity.
Qed.

Lemma integer_bands_rounded_once_witness :
  ndvi_arrays red_2x2_f nir_2x2_f
  = Ok (mk_ndarray (2, 2)
          [F64.div (F64.of_Z 100) (F64.of_Z 300);
           F64.div (F64.of_Z 0) (F64.of_Z 100);
           F64.div (F64.of_Z 100) (F64.of_Z 100);
           F64.div (F64.of_Z 0) (F64.of_Z 200)]).
Proof.
  apply (integer_bands_rounded_once red_2x2 nir_2x2);
    try reflexivity; repeat constructor.
Defined.

(** [astype(float)] keeps integer bands apart as long as the samples are
    below 2^53 in magnitude: two such bands that differ convert to arrays
    that differ. *)
Theorem astype_float_injective (a b : ndarray Z) :
  Forall (fun z => (Z.abs z < 2 ^ 53)%Z) (data a) ->
  Forall (fun z => (Z.abs z < 2 ^ 53)%Z) (data b) ->
  a <> b -> astype_float (IntBand a) <> astype_float (IntBand b).
Proof.
  intros Fa Fb N; unfold astype_float, amap; intros [= Es Ed]; apply N.
  destruct a as [sa da], b as [sb db]; cbn [shape data] in *.
  f_equal; [exact Es|].
  apply (map_inj_Forall _ F64.of_Z da db
           (fun x y => Exact.of_Z_inj x y) Fa Fb Ed).
Qed.

Lemma astype_float_injective_witness : red_2x2_f <> nir_2x2_f.
Proof.
  apply (astype_float_injective red_2x2 nir_2x2);
    [repeat constructor | repeat constructor | discriminate].
Defined.

(** On grids of identical dimensions, at every pixel whose samples are
    finite, not negative and not both zero, the sign of the index tells
    which band is the stronger: it is not negative where red <= nir and
    not positive where nir <= red. *)
Theorem ndvi_sign_follows_bands (red nir : ndarray float) :
  wf_array red -> wf_array nir -> shape red = shape nir ->
  exists out : ndarray float,
    ndvi_arrays red nir = Ok out /\
    forall i j, i < rows red -> j < cols red ->
      let r := item F64.nan red i j in
      let n := item F64.nan nir i j in
      let v := item F64.nan out i j in
      pixel_in_domain r n ->
      (F64.leb r n = true -> F64.leb F64.zero v = true) /\
      (F64.leb n r = true -> F64.leb v F64.zero = true).
Proof.
  intros Hr Hn E.
  destruct (ndvi_arrays_ok _ _ Hr Hn E) as [out [Ho _]].
  exists out; split; [exact Ho|].
  intros i j Hi Hj r n v [Dr [Dn Ds]]; unfold v.
  rewrite (item_ndvi _ _ _ _ _ Hr Hn E Ho Hi Hj).
  apply Signs.ndvi_pixel_sign; assumption.
Qed.

Lemma ndvi_sign_follows_bands_witness :
  exists out : ndarray float,
    ndvi_arrays red_2x2_f nir_2x2_f = Ok out /\
    F64.leb F64.zero (item F64.nan out 0 0) = true.
Proof.
  destruct (ndvi_sign_follows_bands red_2x2_f nir_2x2_f
              eq_refl eq_refl eq_refl) as [out [Ho H]].
  exists out; split; [exact Ho|].
  assert (Hi : 0 < rows red_2x2_f) by (vm_compute; lia).
  assert (Hj : 0 < cols red_2x2_f) by (vm_compute; lia).
  refine (proj1 (H 0 0 Hi Hj _) _).
  - repeat split; reflexivity.
  - reflexivity.
Defined.

(** On grids of identical dimensions, at every pixel whose samples are
    finite and not negative the index is never infinite: it is not a
    number exactly where both bands are zero, and lies in [-1, 1]
    everywhere else. *)
Theorem nonneg_samples_nan_or_unit (red nir : ndarray float) :
  wf_array red -> wf_array nir -> shape red = shape nir ->
  exists out : ndarray float,
    ndvi_arrays red nir = Ok out /\
    forall i j, i < rows red -> j < cols red ->
      let r := item F64.nan red i j in
      let n := item F64.nan nir i j in
      let v := item F64.nan out i j in
      F64.nonneg_sample r = true -> F64.nonneg_sample n = true ->
      (F64.is_nan v = true
       <-> F64.eqb r F64.zero = true /\ F64.eqb n F64.zero = true) /\
      (F64.is_nan v = false -> F64.in_unit_interval v = true) /\
      F64.is_inf v = false.
Proof.
  intros Hr Hn E.
  destruct (ndvi_arrays_ok _ _ Hr Hn E) as [out [Ho _]].
  exists out; split; [exact Ho|].
  intros i j Hi Hj r n v Dr Dn; unfold v.
  rewrite (item_ndvi _ _ _ _ _ Hr Hn E Ho Hi Hj).
  apply Signs.ndvi_pixel_nonneg; assumption.
Qed.

Lemma nonneg_samples_nan_or_unit_witness :
  exists out : ndarray float,
    ndvi_arrays red_2x2_f nir_2x2_f = Ok out /\
    F64.in_unit_interval (item F64.nan out 1 0) = true /\
    F64.is_inf (item F64.nan out 1 0) = false.
Proof.
  destruct (nonneg_samples_nan_or_unit red_2x2_f nir_2x2_f
              eq_refl eq_refl eq_refl) as [out [Ho H]].
  exists out; split; [exact Ho|].
  assert (Hi : 1 < rows red_2x2_f) by (vm_compute; lia).
  assert (Hj : 0 < cols red_2x2_f) by (vm_compute; lia).
  destruct (H 1 0 Hi Hj eq_refl eq_refl) as [N [U I]].
  split; [| exact I].
  apply U.
  destruct (F64.is_nan (item F64.nan out 1 0)) eqn:Z; [| reflexivity].
  destruct (proj1 N eq_refl) as [_ X]; discriminate X.
Defined.

(** ** Stacks of bands *)

Lemma tabulate3_S {A} n0 n1 n2 (f : nat -> nat -> nat -> A) :
  tabulate3 (S n0) n1 n2 f
  = tabulate n1 n2 (f 0) ++ tabulate3 n0 n1 n2 (fun i => f (S i)).
Proof.
  unfold tabulate3; simpl; f_equal.
  rewrite <- seq_shift, !flat_map_concat_map, map_map; reflexivity.
Qed.

Lemma tabulate3_length {A} n0 n1 n2 (f : nat -> nat -> nat -> A) :
  List.length (tabulate3 n0 n1 n2 f) = n0 * (n1 * n2).
Proof.
  revert f; induction n0 as [|n0 IH]; intros f; [reflexivity|].
  rewrite tabulate3_S, length_app, tabulate_length, IH; lia.
Qed.

Lemma tabulate3_ext {A} n0 n1 n2 (f g : nat -> nat -> nat -> A) :
  (forall i j k, i < n0 -> j < n1 -> k < n2 -> f i j k = g i j k) ->
  tabulate3 n0 n1 n2 f = tabulate3 n0 n1 n2 g.
Proof.
  revert f g; induction n0 as [|n0 IH]; intros f g H; [reflexivity|].
  rewrite !tabulate3_S; f_equal.
  - apply tabulate_ext; intros; apply H; lia.
  - apply IH; intros; apply H; lia.
Qed.

Lemma nth_tabulate3 {A} (d : A) n0 n1 n2 (f : nat -> nat -> nat -> A) i j k :
  i < n0 -> j < n1 -> k < n2 ->
  nth ((i * n1 + j) * n2 + k) (tabulate3 n0 n1 n2 f) d = f i j k.
Proof.
  revert f i; induction n0 as [|n0 IH]; intros f i Hi Hj Hk; [lia|].
  rewrite tabulate3_S; destruct i as [|i].
  - rewrite app_nth1 by (rewrite tabulate_length; simpl; nia).
    simpl; now apply nth_tabulate.
  - rewrite app_nth2 by (rewrite tabulate_length; nia).
    rewrite tabulate_length.
    replace ((S i * n1 + j) * n2 + k - n1 * n2)
      with ((i * n1 + j) * n2 + k) by nia.
    apply (IH (fun i => f (S i))); lia.
Qed.

Lemma item3_tabulate3 {A} (d : A) n0 n1 n2 (f : nat -> nat -> nat -> A) i j k :
  i < n0 -> j < n1 -> k < n2 ->
  item3 d (mk_ndarray3 (n0, n1, n2) (tabulate3 n0 n1 n2 f)) i j k = f i j k.
Proof. intros; unfold item3; simpl; now apply nth_tabulate3. Qed.

(** The [k]-th block of a concatenation of blocks of one length. *)
Lemma nth_flat_map_blocks {A B} (g : A -> list B) (d : B) (a0 : A) L bs k x :
  Forall (fun b => List.length (g b) = L) bs ->
  k < List.length bs -> x < L ->
  nth (k * L + x) (flat_map g bs) d = nth x (g (nth k bs a0)) d.
Proof.
  intros H; revert k; induction H as [|b bs Hb H IH]; intros k Hk Hx;
    [simpl in Hk; lia|].
  destruct k as [|k]; simpl flat_map.
  - rewrite app_nth1 by (rewrite Hb; simpl; lia); reflexivity.
  - rewrite app_nth2 by (rewrite Hb; simpl; lia).
    rewrite Hb; replace (S k * L + x - L) with (k * L + x) by (simpl; lia).
    simpl in Hk; simpl nth at 2; apply IH; lia.
Qed.

Lemma read_each_spec src indexes bs :
  read_each src indexes = Ok bs ->
  Forall2 (fun i b => read src i = Ok b) indexes bs.
Proof.
  revert bs; induction indexes as [|i rest IH]; intros bs; simpl.
  - intros [= <-]; constructor.
  - destruct (read src i) as [b|] eqn:Ei; [| discriminate].
    destruct (read_each src rest) as [bs'|]; [| discriminate].
    cbn [rbind]; intros [= <-]; constructor; auto.
Qed.

Lemma wf_band_samples h w b :
  wf_band h w b ->
  shape (band_samples b) = (h, w) /\
  List.length (data (band_samples b)) = h * w.
Proof.
  intros [Hs Hw]; destruct b as [a|a]; unfold wf_array, rows, cols in Hw;
    simpl in *; rewrite length_map, Hw, Hs; auto.
Qed.

Lemma Forall2_wf_read src indexes bs :
  wf_dataset src ->
  Forall2 (fun i b => read src i = Ok b) indexes bs ->
  Forall (wf_band (height src) (width src)) bs.
Proof.
  intros Hwf H; induction H as [|i b indexes bs Hi H IH]; constructor; auto.
  apply (wf_read _ _ _ Hwf Hi).
Qed.

Lemma forallb_shape_eqb h w (bs : list band) :
  Forall (wf_band h w) bs ->
  forallb (fun b => shape_eqb (shape b) (h, w)) (map band_samples bs) = true.
Proof.
  intros H; induction H as [|b bs Hb H IH]; [reflexivity|].
  simpl; rewrite IH, andb_true_r.
  destruct (wf_band_samples _ _ _ Hb) as [-> _].
  unfold shape_eqb; simpl; now rewrite !Nat.eqb_refl.
Qed.

(** Stacking bands of one shape along a last axis: the shape of the
    result and its items. *)
Lemma np_stack_last_bands h w (bs : list band) :
  Forall (wf_band h w) bs -> bs <> [] ->
  exists img,
    np_stack_last (map band_samples bs) = Ok img /\
    shape3 img = (h, w, List.length bs) /\
    forall i j k, i < h -> j < w -> k < List.length bs ->
      item3 no_sample img i j k
      = item no_sample (band_samples (nth k bs (IntBand (mk_ndarray (0, 0) []))))
             i j.
Proof.
  intros H N; destruct bs as [|b bs]; [contradiction|].
  inversion H as [|b' bs' Hb Hbs]; subst.
  destruct (wf_band_samples _ _ _ Hb) as [Sb Lb].
  unfold np_stack_last; cbn [map].
  rewrite Sb, (forallb_shape_eqb _ _ _ Hbs).
  unfold rows, cols; rewrite Sb; cbn [fst snd].
  eexists; split; [reflexivity|]; cbn [shape3].
  rewrite length_cons, length_map; split; [reflexivity|].
  intros i j k Hi Hj Hk.
  rewrite item3_tabulate3 by (simpl in Hk; simpl; lia).
  rewrite <- map_cons.
  rewrite (nth_indep _ (band_samples b)
             (band_samples (IntBand (mk_ndarray (0, 0) []))))
    by (rewrite length_map; exact Hk).
  rewrite map_nth; reflexivity.
Qed.

(** Reading a list of bands and moving the band axis to the end gives
    what stacking the bands, read one by one, along a last axis gives. *)
Lemma transpose_read_bands src indexes a :
  wf_dataset src -> indexes <> [] ->
  read_bands src indexes = Ok a ->
  exists bs,
    Forall2 (fun i b => read src i = Ok b) indexes bs /\
    np_stack_last (map band_samples bs) = Ok (transpose_1_2_0 a).
Proof.
  intros Hwf N; unfold read_bands.
  destruct (read_each src indexes) as [bs|] eqn:E; [| discriminate].
  cbn [rbind]; intros [= <-].
  pose proof (read_each_spec _ _ _ E) as F.
  pose proof (Forall2_wf_read _ _ _ Hwf F) as W.
  pose proof (Forall2_length F) as Len.
  exists bs; split; [exact F|].
  destruct bs as [|b bs]; [destruct indexes; [contradiction | discriminate]|].
  inversion W as [|b' bs' Hb Hbs]; subst.
  destruct (wf_band_samples _ _ _ Hb) as [Sb Lb].
  unfold np_stack_last; cbn [map].
  rewrite Sb, (forallb_shape_eqb _ _ _ Hbs).
  unfold rows, cols; rewrite Sb; cbn [fst snd].
  unfold transpose_1_2_0; cbn [shape3].
  rewrite length_cons, length_map, Len, length_cons.
  f_equal; f_equal.
  apply tabulate3_ext; intros i j k Hi Hj Hk.
  unfold item3; cbn [shape3 data3].
  replace ((k * height src + i) * width src + j)
    with (k * (height src * width src) + (i * width src + j))
    by (rewrite Nat.mul_add_distr_r, Nat.mul_assoc; lia).
  rewrite <- map_cons.
  rewrite (nth_flat_map_blocks _ no_sample b (height src * width src))
    by (try nia; try (simpl; lia);
        apply Forall_forall; intros x Hx;
        rewrite Forall_forall in W;
        apply (wf_band_samples _ _ _ (W x Hx))).
  rewrite map_nth; unfold item, cols.
  assert (Wk : wf_band (height src) (width src) (nth k (b :: bs) b)).
  { rewrite Forall_forall in W; apply W, nth_In; simpl; lia. }
  destruct (wf_band_samples _ _ _ Wk) as [-> _]; reflexivity.
Qed.

(** ** Running the display functions *)

Lemma session_eta (s : session) : mk_session (store s) (calls s) = s.
Proof. destruct s; reflexivity. Qed.

Lemma from_M_open image_path (s : session) :
  from_M (rasterio_open image_path) s
  = match lookup_file image_path (files (store s)) with
    | Some d => (Ok d, s)
    | None => (Err RasterioIOError, s)
    end.
Proof.
  unfold from_M, rasterio_open.
  destruct (lookup_file _ _); now rewrite session_eta.
Qed.

(** *** Calls that raise and calls that return *)

Lemma call_error_range {E : pyplot_env} c e :
  call_error c = Some e -> e = ValueError \/ e = OSError.
Proof.
  destruct c as [| | |img [|name|]| | | | | |path|]; simpl; try discriminate.
  - destruct (builtin_cmap name || registered_cmap name);
      [discriminate | intros [= <-]; now left].
  - destruct (plain_png path); [discriminate|].
    destruct (savefig_outcome path); [discriminate | |];
      intros [= <-]; [now left | now right].
Qed.

Lemma call_error_plain_png {E : pyplot_env} path :
  plain_png path = true -> call_error (PltSavefig path) = None.
Proof. intros H; simpl; now rewrite H. Qed.


Lemma sbind_emit_ok {E : pyplot_env} {B} c (k : unit -> Script B)
    (s : session) :
  call_error c = None ->
  sbind (emit c) k s = k tt (mk_session (store s) (calls s ++ [c])).
Proof. intros H; unfold sbind, emit; now rewrite H. Qed.

Lemma sbind_emit_err {E : pyplot_env} {B} c (k : unit -> Script B)
    (s : session) e :
  call_error c = Some e -> sbind (emit c) k s = (Err e, s).
Proof. intros H; unfold sbind, emit; now rewrite H. Qed.

Lemma emit_ok {E : pyplot_env} c (s : session) :
  call_error c = None ->
  emit c s = (Ok tt, mk_session (store s) (calls s ++ [c])).
Proof. intros H; unfold emit; now rewrite H. Qed.

Lemma sbind_slift {A B} (r : result A) (k : A -> Script B) (s : session) :
  sbind (slift r) k s = match r with Ok a => k a s | Err e => (Err e, s) end.
Proof. unfold sbind, slift; destruct r; reflexivity. Qed.

(** A list of calls none of which raises. *)
Lemma emit_all_run {E : pyplot_env} cs (s : session) :
  Forall (fun c => call_error c = None) cs ->
  emit_all cs s = (Ok tt, mk_session (store s) (calls s ++ cs)).
Proof.
  intros H; revert s; induction H as [|c cs Hc H IH]; intros s; simpl.
  - unfold sret; now rewrite app_nil_r, session_eta.
  - rewrite (sbind_emit_ok _ _ _ Hc), IH; simpl; now rewrite <- app_assoc.
Qed.

Ltac emits :=
  repeat (rewrite sbind_emit_ok by reflexivity; cbn [store calls]).

Lemma display_original_image_run {E : pyplot_env}
    image_path save_path (s : session) :
  display_original_image image_path save_path s
  = match lookup_file image_path (files (store s)) with
    | None => (Err RasterioIOError, s)
    | Some src =>
        match read_bands src [1; 2; 3] with
        | Err e =>
            (Err e, mk_session (store s) (calls s ++ [PltFigure (8, 8)%Z]))
        | Ok a =>
            let drawn :=
              [PltFigure (8, 8)%Z;
               PltImshow (Image3 (transpose_1_2_0 a)) CmapDefault None None;
               PltAxisOff;
               PltTitle "Original Image"] in
            match call_error (PltSavefig save_path) with
            | Some e => (Err e, mk_session (store s) (calls s ++ drawn))
            | None =>
                (Ok tt,
                 mk_session (store s)
                   (calls s ++ drawn ++ [PltSavefig save_path; PltShow]))
            end
        end
    end.
Proof.
  unfold display_original_image, sbind at 1; rewrite from_M_open.
  destruct (lookup_file _ _) as [src|]; [| reflexivity].
  emits; rewrite sbind_slift.
  destruct (read_bands src [1; 2; 3]) as [a|]; [| reflexivity].
  emits; cbv zeta.
  destruct (call_error (PltSavefig save_path)) as [e|] eqn:Es.
  - rewrite (sbind_emit_err _ _ _ _ Es), <- !app_assoc; reflexivity.
  - rewrite (sbind_emit_ok _ _ _ Es), emit_ok by reflexivity.
    cbn [store calls]; rewrite <- !app_assoc; reflexivity.
Qed.

Lemma display_false_color_image_run {E : pyplot_env}
    image_path save_path (s : session) :
  display_false_color_image image_path save_path s
  = match lookup_file image_path (files (store s)) with
    | None => (Err RasterioIOError, s)
    | Some src =>
        match
          rbind (read src 4) (fun red =>
          rbind (read src 3) (fun green =>
          rbind (read src 2) (fun blue =>
          np_stack_last
            [band_samples red; band_samples green; band_samples blue])))
        with
        | Err e => (Err e, s)
        | Ok img =>
            let drawn :=
              [PltFigure (8, 8)%Z;
               PltImshow (Image3 img) CmapDefault None None;
               PltAxisOff;
               PltTitle "False Color Image"] in
            match call_error (PltSavefig save_path) with
            | Some e => (Err e, mk_session (store s) (calls s ++ drawn))
            | None =>
                (Ok tt,
                 mk_session (store s)
                   (calls s ++ drawn ++ [PltSavefig save_path; PltShow]))
            end
        end
    end.
Proof.
  unfold display_false_color_image, sbind at 1; rewrite from_M_open.
  destruct (lookup_file _ _) as [src|]; [| reflexivity].
  rewrite sbind_slift; destruct (read src 4) as [red|]; [| reflexivity].
  rewrite sbind_slift; destruct (read src 3) as [green|]; [| reflexivity].
  rewrite sbind_slift; destruct (read src 2) as [blue|]; [| reflexivity].
  rewrite sbind_slift; cbn [rbind].
  destruct (np_stack_last _) as [img|]; [| reflexivity].
  emits; cbv zeta.
  destruct (call_error (PltSavefig save_path)) as [e|] eqn:Es.
  - rewrite (sbind_emit_err _ _ _ _ Es), <- !app_assoc; reflexivity.
  - rewrite (sbind_emit_ok _ _ _ Es), emit_ok by reflexivity.
    cbn [store calls]; rewrite <- !app_assoc; reflexivity.
Qed.

Lemma display_ndvi_run {E : pyplot_env} ndvi save_path cmap (s : session) :
  display_ndvi ndvi save_path cmap s
  = let name := match cmap with Some c => c | None => "RdYlGn"%string end in
    let shown := PltImshow (Image2 (FloatBand ndvi)) (CmapName name)
                   None None in
    match call_error shown with
    | Some e =>
        (Err e, mk_session (store s) (calls s ++ [PltFigure (8, 8)%Z]))
    | None =>
        let drawn :=
          [PltFigure (8, 8)%Z; shown; PltColorbar "NDVI"; PltAxisOff;
           PltTitle "NDVI Visualization"] in
        match call_error (PltSavefig save_path) with
        | Some e => (Err e, mk_session (store s) (calls s ++ drawn))
        | None =>
            (Ok tt,
             mk_session (store s)
               (calls s ++ drawn ++ [PltSavefig save_path; PltShow]))
        end
    end.
Proof.
  unfold display_ndvi; cbv zeta.
  set (name := match cmap with Some c => c | None => "RdYlGn"%string end).
  rewrite sbind_emit_ok by reflexivity; cbn [store calls].
  destruct (call_error (PltImshow (Image2 (FloatBand ndvi)) (CmapName name)
                          None None)) as [e|] eqn:Ei.
  - rewrite (sbind_emit_err _ _ _ _ Ei); reflexivity.
  - rewrite (sbind_emit_ok _ _ _ Ei); cbn [store calls].
    emits.
    destruct (call_error (PltSavefig save_path)) as [e|] eqn:Es.
    + rewrite (sbind_emit_err _ _ _ _ Es), <- !app_assoc; reflexivity.
    + rewrite (sbind_emit_ok _ _ _ Es), emit_ok by reflexivity.
      cbn [store calls]; rewrite <- !app_assoc; reflexivity.
Qed.

Lemma apply_ndvi_threshold_calls_run {E : pyplot_env}
    ndvi threshold save_path (s : session) :
  emit_all (apply_ndvi_threshold_calls ndvi threshold save_path) s
  = let drawn :=
      [PltFigure (8, 8)%Z;
       PltSetBad "gray";
       PltImshow (Image2 (FloatBand ndvi)) CmapBwr (Some (-1)%Z) (Some 1%Z);
       PltColorbar "NDVI";
       PltAxisOff;
       PltTitle "NDVI Threshold";
       PltAxhline F64.half "black" "--"] in
    match call_error (PltSavefig save_path) with
    | Some e => (Err e, mk_session (store s) (calls s ++ drawn))
    | None =>
        (Ok tt,
         mk_session (store s)
           (calls s ++ drawn ++ [PltSavefig save_path; PltShow]))
    end.
Proof.
  unfold apply_ndvi_threshold_calls; cbn [emit_all]; emits; cbv zeta.
  destruct (call_error (PltSavefig save_path)) as [e|] eqn:Es.
  - rewrite (sbind_emit_err _ _ _ _ Es), <- !app_assoc; reflexivity.
  - rewrite (sbind_emit_ok _ _ _ Es), sbind_emit_ok by reflexivity.
    unfold sret; cbn [store calls]; rewrite <- !app_assoc; reflexivity.
Qed.

Lemma skipn_nth_error {A} (l : list A) a :
  skipn a l = match nth_error l a with
              | Some x => x :: skipn (S a) l
              | None => []
              end.
Proof.
  revert l; induction a as [|a IH]; intros [|x l]; try reflexivity.
  simpl skipn at 1; rewrite IH; reflexivity.
Qed.


(** The loop over the channels, started at any band: it draws a panel per
    band that exists and, when bands are missing, stops in the panel it has
    just selected for the first missing one.  None of its calls on pyplot
    raises. *)
Lemma channels_loop {E : pyplot_env} src len : forall a (s : session),
  for_each (seq (S a) len) (fun i =>
    (emit (PltSubplot 2 2 i) ;;
     b <- slift (read src i) ;;
     emit (PltImshow (Image2 b) (CmapName "gray") None None) ;;
     emit (PltTitle ("Channel " ++ str_nat i)) ;;
     emit PltAxisOff)%script) s
  = let bs := skipn a (bands src) in
    (if len <=? List.length bs then Ok tt else Err IndexError,
     mk_session (store s)
       (calls s
        ++ flat_map (fun p => panel_calls (fst p) (snd p))
             (combine (seq (S a) len) bs)
        ++ (if len <=? List.length bs then []
            else [PltSubplot 2 2 (S a + List.length bs)]))).
Proof.
  induction len as [|len IH]; intros a s; cbv zeta.
  - simpl; unfold sret; now rewrite app_nil_r, session_eta.
  - cbn [seq for_each]; unfold sbind at 1.
    rewrite sbind_emit_ok by reflexivity; cbn [store calls].
    rewrite sbind_slift; unfold read.
    rewrite (skipn_nth_error (bands src) a).
    destruct (nth_error (bands src) a) as [b|].
    + emits; rewrite emit_ok by reflexivity; cbn [store calls].
      rewrite IH; cbv zeta; cbn [store calls List.length combine flat_map].
      change (S len <=? S (List.length (skipn (S a) (bands src))))
        with (len <=? List.length (skipn (S a) (bands src))).
      f_equal. f_equal.
      unfold panel_calls at 2; cbn [fst snd].
      rewrite <- !app_assoc; cbn [app].
      replace (S a + S (List.length (skipn (S a) (bands src))))
        with (S (S a) + List.length (skipn (S a) (bands src))) by lia.
      reflexivity.
    + cbn [List.length combine flat_map app].
      change (S len <=? 0) with false; cbv iota.
      now rewrite Nat.add_0_r.
Qed.

Lemma display_color_channels_run {E : pyplot_env}
    image_path save_path (s : session) :
  display_color_channels image_path save_path s
  = match lookup_file image_path (files (store s)) with
    | None => (Err RasterioIOError, s)
    | Some src =>
        let n := List.length (bands src) in
        let panels :=
          PltFigure (12, 8)%Z
          :: flat_map (fun p => panel_calls (fst p) (snd p))
               (combine (seq 1 4) (bands src)) in
        if 4 <=? n then
          match call_error (PltSavefig save_path) with
          | Some e =>
              (Err e,
               mk_session (store s)
                 (calls s ++ panels ++ [PltSuptitle "Color Channels"]))
          | None =>
              (Ok tt,
               mk_session (store s)
                 (calls s ++ panels
                  ++ [PltSuptitle "Color Channels";
                      PltSavefig save_path; PltShow]))
          end
        else
          (Err IndexError,
           mk_session (store s)
             (calls s ++ panels ++ [PltSubplot 2 2 (S n)]))
    end.
Proof.
  unfold display_color_channels, sbind at 1; rewrite from_M_open.
  destruct (lookup_file _ _) as [src|]; [| reflexivity].
  rewrite sbind_emit_ok by reflexivity; cbn [store calls].
  unfold sbind at 1.
  rewrite (channels_loop src 4 0); cbv zeta; cbn [skipn store calls].
  destruct (4 <=? List.length (bands src)).
  - rewrite sbind_emit_ok by reflexivity; cbn [store calls].
    destruct (call_error (PltSavefig save_path)) as [e|] eqn:Es.
    + rewrite (sbind_emit_err _ _ _ _ Es).
      rewrite <- !app_assoc; cbn [app]; rewrite ?app_nil_r; reflexivity.
    + rewrite (sbind_emit_ok _ _ _ Es), emit_ok by reflexivity.
      cbn [store calls].
      rewrite <- !app_assoc; cbn [app]; rewrite ?app_nil_r; reflexivity.
  - rewrite <- ?app_assoc; reflexivity.
Qed.

Lemma read_bands_123 src b1 b2 b3 rest :
  bands src = b1 :: b2 :: b3 :: rest ->
  read_bands src [1; 2; 3]
  = Ok (mk_ndarray3 (3, height src, width src)
          (flat_map (fun b => data (band_samples b)) [b1; b2; b3])).
Proof. intros Hb; unfold read_bands, read_each, read; now rewrite Hb. Qed.

Lemma read_bands_short src :
  List.length (bands src) < 3 -> read_bands src [1; 2; 3] = Err IndexError.
Proof.
  intros H; unfold read_bands, read_each, read.
  destruct (bands src) as [|b1 [|b2 [|b3 rest]]]; try reflexivity.
  simpl in H; lia.
Qed.

Lemma saved_paths_app cs ds :
  saved_paths (cs ++ ds) = saved_paths cs ++ saved_paths ds.
Proof. apply flat_map_app. Qed.

Lemma shown_images_app cs ds :
  shown_images (cs ++ ds) = shown_images cs ++ shown_images ds.
Proof. apply flat_map_app. Qed.

Lemma panels_quiet (l : list (nat * band)) :
  let cs := flat_map (fun p => panel_calls (fst p) (snd p)) l in
  saved_paths cs = [] /\ filter is_figure cs = [] /\ filter is_show cs = [].
Proof.
  induction l as [|p l IH]; [repeat split|].
  cbv zeta in *; cbn [flat_map].
  rewrite saved_paths_app, !filter_app; tauto.
Qed.

Lemma panels_images (l : list (nat * band)) :
  shown_images (flat_map (fun p => panel_calls (fst p) (snd p)) l)
  = map (fun p => Image2 (snd p)) l.
Proof.
  induction l as [|p l IH]; [reflexivity|].
  cbn [flat_map map]; rewrite shown_images_app, IH; reflexivity.
Qed.

Lemma panels_titles (l : list (nat * band)) :
  titles (flat_map (fun p => panel_calls (fst p) (snd p)) l)
  = map (fun p => ("Channel " ++ str_nat (fst p))%string) l.
Proof.
  induction l as [|p l IH]; [reflexivity|].
  cbn [flat_map map]; unfold titles in *; rewrite flat_map_app, IH.
  reflexivity.
Qed.

Lemma combine_seq_snd {A} (l : list A) len : forall a,
  map snd (combine (seq a len) l) = firstn len l.
Proof.
  revert l; induction len as [|len IH]; intros l a; [reflexivity|].
  destruct l as [|x l]; [reflexivity|]; simpl; now rewrite IH.
Qed.

Lemma combine_seq_fst {A} (l : list A) len : forall a,
  map fst (combine (seq a len) l) = seq a (Nat.min len (List.length l)).
Proof.
  revert l; induction len as [|len IH]; intros l a; [reflexivity|].
  destruct l as [|x l]; [reflexivity|]; simpl; now rewrite IH.
Qed.

Lemma Forall2_read_inv src b1 b2 b3 rest bs :
  bands src = b1 :: b2 :: b3 :: rest ->
  Forall2 (fun i b => read src i = Ok b) [1; 2; 3] bs ->
  bs = [b1; b2; b3].
Proof.
  intros Hb H.
  inversion H as [|? x ? l1 H1 T1]; subst; clear H.
  inversion T1 as [|? y ? l2 H2 T2]; subst; clear T1.
  inversion T2 as [|? z ? l3 H3 T3]; subst; clear T2.
  inversion T3; subst.
  unfold read in H1, H2, H3; rewrite Hb in H1, H2, H3; simpl in *.
  congruence.
Qed.

(** [src.read(indexes).transpose(1, 2, 0)] is [np.stack] along the last
    axis of the bands read one by one: on a raster whose bands have the
    raster's height and width, for any list of band numbers that is not
    empty.  The array has shape height x width x number of bands, and its
    channel [k] is, pixel by pixel, the band read for the [k]-th number. *)
Theorem read_transpose_is_stack src indexes a :
  wf_dataset src -> indexes <> [] ->
  read_bands src indexes = Ok a ->
  exists bs,
    Forall2 (fun i b => read src i = Ok b) indexes bs /\
    np_stack_last (map band_samples bs) = Ok (transpose_1_2_0 a) /\
    shape3 (transpose_1_2_0 a)
    = (height src, width src, List.length indexes) /\
    forall i j k, i < height src -> j < width src ->
      k < List.length indexes ->
      item3 no_sample (transpose_1_2_0 a) i j k
      = item no_sample
          (band_samples (nth k bs (IntBand (mk_ndarray (0, 0) [])))) i j.
Proof.
  intros Hwf N Ha.
  destruct (transpose_read_bands _ _ _ Hwf N Ha) as [bs [F S]].
  pose proof (Forall2_wf_read _ _ _ Hwf F) as W.
  pose proof (Forall2_length F) as Len.
  assert (Nb : bs <> []).
  { intros ->; destruct indexes; [contradiction | discriminate]. }
  destruct (np_stack_last_bands _ _ _ W Nb) as [img [Ei [Si Ii]]].
  rewrite S in Ei; injection Ei as <-.
  exists bs; split; [exact F|]; split; [exact S|].
  rewrite Len; split; [exact Si|].
  intros i j k Hi Hj Hk; now apply Ii.
Qed.

Lemma read_transpose_is_stack_witness :
  exists a bs,
    read_bands sample_dataset [1; 2; 3] = Ok a /\
    Forall2 (fun i b => read sample_dataset i = Ok b) [1; 2; 3] bs /\
    np_stack_last (map band_samples bs) = Ok (transpose_1_2_0 a) /\
    shape3 (transpose_1_2_0 a) = (2, 2, 3).
Proof.
  eexists.
  assert (N : [1; 2; 3] <> []) by discriminate.
  destruct (read_transpose_is_stack sample_dataset [1; 2; 3] _
              wf_sample_dataset N eq_refl) as [bs [F [S [H _]]]].
  exists bs; split; [reflexivity | split; [exact F | split; [exact S|]]].
  exact H.
Defined.

Lemma wf_first_three src b1 b2 b3 rest :
  wf_dataset src -> bands src = b1 :: b2 :: b3 :: rest ->
  Forall (wf_band (height src) (width src)) [b1; b2; b3].
Proof.
  unfold wf_dataset; intros Hwf Hb; rewrite Hb in Hwf.
  inversion Hwf as [|? ? W1 T1]; subst.
  inversion T1 as [|? ? W2 T2]; subst.
  inversion T2 as [|? ? W3 T3]; subst.
  auto.
Qed.

(** On a raster with three bands or more, [display_original_image] draws
    one figure holding one image of shape height x width x 3 whose
    channels are bands 1, 2 and 3 in this order, and leaves the store as
    it was.  Whether it returns is what [plt.savefig] does with
    [save_path]: when that call returns, the function returns, having saved
    the figure and then shown it; when that call raises, the function
    raises the same error, the figure drawn but neither saved nor shown. *)
Theorem display_original_image_shows_rgb {E : pyplot_env}
    image_path save_path (s : session) src b1 b2 b3 rest :
  lookup_file image_path (files (store s)) = Some src ->
  wf_dataset src ->
  bands src = b1 :: b2 :: b3 :: rest ->
  exists rgb,
    let drawn :=
      [PltFigure (8, 8)%Z;
       PltImshow (Image3 rgb) CmapDefault None None;
       PltAxisOff;
       PltTitle "Original Image"] in
    (call_error (PltSavefig save_path) = None ->
     display_original_image image_path save_path s
     = (Ok tt,
        mk_session (store s)
          (calls s ++ drawn ++ [PltSavefig save_path; PltShow]))) /\
    (forall e, call_error (PltSavefig save_path) = Some e ->
     display_original_image image_path save_path s
     = (Err e, mk_session (store s) (calls s ++ drawn))) /\
    shape3 rgb = (height src, width src, 3) /\
    forall i j, i < height src -> j < width src ->
      item3 no_sample rgb i j 0 = item no_sample (band_samples b1) i j /\
      item3 no_sample rgb i j 1 = item no_sample (band_samples b2) i j /\
      item3 no_sample rgb i j 2 = item no_sample (band_samples b3) i j.
Proof.
  intros Hf Hwf Hb.
  rewrite display_original_image_run, Hf.
  pose proof (read_bands_123 src b1 b2 b3 rest Hb) as Ha.
  rewrite Ha.
  assert (N : [1; 2; 3] <> []) by discriminate.
  destruct (transpose_read_bands _ _ _ Hwf N Ha) as [bs [F S]].
  rewrite (Forall2_read_inv _ _ _ _ _ _ Hb F) in S.
  pose proof (wf_first_three _ _ _ _ _ Hwf Hb) as W.
  assert (N3 : [b1; b2; b3] <> []) by discriminate.
  destruct (np_stack_last_bands _ _ _ W N3) as [img [Ei [Si Ii]]].
  rewrite S in Ei; injection Ei as <-.
  eexists; cbv zeta; split; [| split; [| split; [exact Si|]]].
  - intros ->; reflexivity.
  - intros e ->; reflexivity.
  - intros i j Hi Hj; repeat split.
    + apply (Ii i j 0 Hi Hj); simpl; lia.
    + apply (Ii i j 1 Hi Hj); simpl; lia.
    + apply (Ii i j 2 Hi Hj); simpl; lia.
Qed.

Lemma display_original_image_shows_rgb_witness :
  exists rgb,
    fst (display_original_image (E := bare_env) "west_campus.tif"
           "original_image.png" (mk_session sample_world []))
    = Ok tt /\
    saved_paths
      (calls (snd (display_original_image (E := bare_env) "west_campus.tif"
                     "original_image.png" (mk_session sample_world []))))
    = ["original_image.png"%string] /\
    display_original_image (E := bare_env) "west_campus.tif"
      "/no/such/dir/out.xyz" (mk_session sample_world [])
    = (Err ValueError,
       mk_session sample_world
         [PltFigure (8, 8)%Z;
          PltImshow (Image3 rgb) CmapDefault None None;
          PltAxisOff;
          PltTitle "Original Image"]) /\
    item3 no_sample rgb 0 0 0 = IntSample 200 /\
    item3 no_sample rgb 0 0 1 = IntSample 100.
Proof.
  destruct (display_original_image_shows_rgb (E := bare_env)
              "west_campus.tif" "original_image.png"
              (mk_session sample_world [])
              sample_dataset (IntBand nir_2x2) (IntBand red_2x2)
              (IntBand red_2x2) [IntBand nir_2x2]
              eq_refl wf_sample_dataset eq_refl) as [rgb [R [_ [_ I]]]].
  destruct (display_original_image_shows_rgb (E := bare_env)
              "west_campus.tif" "/no/such/dir/out.xyz"
              (mk_session sample_world [])
              sample_dataset (IntBand nir_2x2) (IntBand red_2x2)
              (IntBand red_2x2) [IntBand nir_2x2]
              eq_refl wf_sample_dataset eq_refl) as [rgb' [_ [R' _]]].
  exists rgb'.
  cbv zeta in R, R'; rewrite (R eq_refl), (R' ValueError eq_refl).
  split; [reflexivity|]; split; [reflexivity|]; split; [reflexivity|].
  assert (Hi : 0 < height sample_dataset) by (simpl; lia).
  assert (Hj : 0 < width sample_dataset) by (simpl; lia).
  assert (X : Image3 rgb' = Image3 rgb).
  { pose proof (R eq_refl) as A; pose proof (R' ValueError eq_refl) as B.
    rewrite display_original_image_run in A, B; simpl in A, B.
    congruence. }
  injection X as ->.
  destruct (I 0 0 Hi Hj) as [I0 [I1 _]].
  rewrite I0, I1; split; reflexivity.
Defined.

(** When [display_original_image] fails, nothing has been saved or shown:
    without the file no call has been made on pyplot, and on a raster with
    fewer than three bands the figure has been opened and is left empty. *)
Theorem display_original_image_failure {E : pyplot_env}
    image_path save_path (s : session) :
  (lookup_file image_path (files (store s)) = None ->
   display_original_image image_path save_path s
   = (Err RasterioIOError, s)) /\
  (forall src,
     lookup_file image_path (files (store s)) = Some src ->
     List.length (bands src) < 3 ->
     display_original_image image_path save_path s
     = (Err IndexError,
        mk_session (store s) (calls s ++ [PltFigure (8, 8)%Z]))).
Proof.
  split.
  - intros Hf; now rewrite display_original_image_run, Hf.
  - intros src Hf Hn.
    now rewrite display_original_image_run, Hf, (read_bands_short _ Hn).
Qed.

Lemma display_original_image_failure_witness :
  let two := mk_dataset 2 2 [IntBand nir_2x2; IntBand red_2x2] in
  let s := mk_session (mk_world [("pair.tif"%string, two)] []) [] in
  display_original_image (E := bare_env) "none.tif" "out.png" s
  = (Err RasterioIOError, s) /\
  display_original_image (E := bare_env) "pair.tif" "out.png" s
  = (Err IndexError, mk_session (store s) [PltFigure (8, 8)%Z]).
Proof.
  intros two s; split.
  - apply (proj1 (display_original_image_failure (E := bare_env)
                    "none.tif" "out.png" s)).
    reflexivity.
  - apply (proj2 (display_original_image_failure (E := bare_env)
                    "pair.tif" "out.png" s) two).
    + reflexivity.
    + simpl; lia.
Defined.

(** [display_color_channels] on a raster of [n] bands.  It returns exactly
    when [n >= 4] and [plt.savefig] returns for [save_path]; it raises
    IndexError exactly when [n < 4], and the error of [plt.savefig] when
    [n >= 4] and that call raises.  In every case it leaves the store as
    it is and has drawn the first four bands, or all of them when there are
    fewer, each once and in order, band [i] under the title "Channel i".
    The figure is saved only when the function returns.  When bands are
    missing, the last call that returned is the selection of the panel of
    the first missing band. *)
Theorem display_color_channels_panels {E : pyplot_env}
    image_path save_path (s : session) src :
  lookup_file image_path (files (store s)) = Some src ->
  let n := List.length (bands src) in
  let r := display_color_channels image_path save_path s in
  (fst r = Ok tt <-> 4 <= n /\ call_error (PltSavefig save_path) = None) /\
  (fst r = Err IndexError <-> n < 4) /\
  (forall e, 4 <= n -> call_error (PltSavefig save_path) = Some e ->
             fst r = Err e) /\
  store (snd r) = store s /\
  exists new,
    calls (snd r) = calls s ++ new /\
    shown_images new = map Image2 (firstn 4 (bands src)) /\
    titles new
    = map (fun i => ("Channel " ++ str_nat i)%string) (seq 1 (Nat.min 4 n)) /\
    (4 <= n ->
     titles new = ["Channel 1"; "Channel 2"; "Channel 3"; "Channel 4"]%string) /\
    saved_paths new
    = match fst r with Ok _ => [save_path] | Err _ => [] end /\
    (n < 4 -> last new PltShow = PltSubplot 2 2 (S n)).
Proof.
  intros Hf n r; unfold r; rewrite display_color_channels_run, Hf.
  cbv zeta; fold n.
  set (P := flat_map (fun p => panel_calls (fst p) (snd p))
              (combine (seq 1 4) (bands src))).
  assert (T : titles P
              = map (fun i => ("Channel " ++ str_nat i)%string)
                    (seq 1 (Nat.min 4 n))).
  { unfold P, n; rewrite panels_titles, <- (combine_seq_fst (bands src) 4 1).
    now rewrite map_map. }
  assert (I : shown_images P = map Image2 (firstn 4 (bands src))).
  { unfold P; rewrite panels_images, <- (combine_seq_snd (bands src) 4 1).
    now rewrite map_map. }
  destruct (panels_quiet (combine (seq 1 4) (bands src))) as [Q _].
  fold P in Q.
  assert (T' : forall tl, titles tl = [] ->
                 titles ((PltFigure (12, 8)%Z :: P) ++ tl) = titles P).
  { intros tl Htl; unfold titles in *; cbn [flat_map app].
    rewrite flat_map_app, Htl; simpl; now rewrite app_nil_r. }
  assert (I' : forall tl, shown_images tl = [] ->
                 shown_images ((PltFigure (12, 8)%Z :: P) ++ tl)
                 = map Image2 (firstn 4 (bands src))).
  { intros tl Htl; rewrite shown_images_app, Htl, app_nil_r.
    exact I. }
  assert (S' : forall tl,
                 saved_paths ((PltFigure (12, 8)%Z :: P) ++ tl)
                 = saved_paths tl).
  { intros tl; rewrite saved_paths_app.
    change (saved_paths (PltFigure (12, 8)%Z :: P)) with (saved_paths P).
    now rewrite Q. }
  destruct (Nat.leb_spec 4 n) as [L|L].
  - destruct (call_error (PltSavefig save_path)) as [e|] eqn:Es;
      cbn [fst snd store calls].
    + split; [split; [discriminate | intros [_ X]; discriminate X]|].
      split; [split; [| lia]|].
      { intros [= ->].
        destruct (call_error_range _ _ Es); discriminate. }
      split; [now intros e' _ [= ->]|].
      split; [reflexivity|].
      eexists; split; [reflexivity|].
      split; [now apply I'|].
      split; [now rewrite T'|].
      split; [intros _; rewrite T', T by reflexivity;
              replace (Nat.min 4 n) with 4 by lia; reflexivity|].
      split; [now rewrite S' | lia].
    + split; [split; auto|].
      split; [split; [discriminate | lia]|].
      split; [discriminate|].
      split; [reflexivity|].
      eexists; split; [reflexivity|].
      split; [now apply I'|].
      split; [now rewrite T'|].
      split; [intros _; rewrite T', T by reflexivity;
              replace (Nat.min 4 n) with 4 by lia; reflexivity|].
      split; [now rewrite S' | lia].
  - cbn [fst snd store calls].
    split; [split; [discriminate | lia]|].
    split; [split; auto|].
    split; [intros; lia|].
    split; [reflexivity|].
    eexists; split; [reflexivity|].
    split; [now apply I'|].
    split; [now rewrite T'|].
    split; [lia|].
    split; [now rewrite S'|].
    intros _; apply last_last.
Qed.

Lemma display_color_channels_panels_witness :
  let r := display_color_channels (E := bare_env) "west_campus.tif"
             "color_channels.png" (mk_session rgb_world []) in
  let r4 := display_color_channels (E := bare_env) "west_campus.tif"
              "color_channels.png" (mk_session sample_world []) in
  let r4' := display_color_channels (E := bare_env) "west_campus.tif"
               "/no/such/dir/out.xyz" (mk_session sample_world []) in
  fst r = Err IndexError /\
  shown_images (calls (snd r))
  = [Image2 (IntBand nir_2x2); Image2 (IntBand red_2x2);
     Image2 (IntBand red_2x2)] /\
  saved_paths (calls (snd r)) = [] /\
  fst r4 = Ok tt /\
  fst r4' = Err ValueError.
Proof.
  intros r r4 r4'.
  destruct (display_color_channels_panels (E := bare_env) "west_campus.tif"
              "color_channels.png" (mk_session rgb_world []) rgb_dataset
              eq_refl) as [_ [X [_ [_ [new [C [I [_ [_ [S _]]]]]]]]]].
  destruct (display_color_channels_panels (E := bare_env) "west_campus.tif"
              "color_channels.png" (mk_session sample_world [])
              sample_dataset eq_refl) as [Y _].
  destruct (display_color_channels_panels (E := bare_env) "west_campus.tif"
              "/no/such/dir/out.xyz" (mk_session sample_world [])
              sample_dataset eq_refl) as [_ [_ [Z _]]].
  fold r in X, C, S; change (calls (snd r) = new) in C.
  split; [| split; [| split; [| split]]].
  - apply (proj2 X); simpl; lia.
  - rewrite C, I; reflexivity.
  - rewrite C, S; reflexivity.
  - apply (proj2 Y); split; [simpl; lia | reflexivity].
  - apply (Z ValueError); [simpl; lia | reflexivity].
Defined.

Lemma wf_bands_4_3_2 src b1 b2 b3 b4 rest :
  wf_dataset src -> bands src = b1 :: b2 :: b3 :: b4 :: rest ->
  Forall (wf_band (height src) (width src)) [b4; b3; b2].
Proof.
  unfold wf_dataset; intros Hwf Hb; rewrite Hb in Hwf.
  inversion Hwf as [|? ? W1 T1]; subst.
  inversion T1 as [|? ? W2 T2]; subst.
  inversion T2 as [|? ? W3 T3]; subst.
  inversion T3 as [|? ? W4 T4]; subst.
  auto.
Qed.

(** On a raster with four bands or more, the image
    [display_false_color_image] draws has the near-infrared band 4 as its
    first channel, band 3 as the second and band 2 as the third; the store
    is left as it was.  Whether the function returns is what [plt.savefig]
    does with [save_path]: when that call returns, the function returns,
    having saved the figure and then shown it; when that call raises, the
    function raises the same error, the figure drawn but neither saved nor
    shown. *)
Theorem display_false_color_image_channels {E : pyplot_env}
    image_path save_path (s : session) src b1 b2 b3 b4 rest :
  lookup_file image_path (files (store s)) = Some src ->
  wf_dataset src ->
  bands src = b1 :: b2 :: b3 :: b4 :: rest ->
  exists fc,
    let drawn :=
      [PltFigure (8, 8)%Z;
       PltImshow (Image3 fc) CmapDefault None None;
       PltAxisOff;
       PltTitle "False Color Image"] in
    (call_error (PltSavefig save_path) = None ->
     display_false_color_image image_path save_path s
     = (Ok tt,
        mk_session (store s)
          (calls s ++ drawn ++ [PltSavefig save_path; PltShow]))) /\
    (forall e, call_error (PltSavefig save_path) = Some e ->
     display_false_color_image image_path save_path s
     = (Err e, mk_session (store s) (calls s ++ drawn))) /\
    shape3 fc = (height src, width src, 3) /\
    forall i j, i < height src -> j < width src ->
      item3 no_sample fc i j 0 = item no_sample (band_samples b4) i j /\
      item3 no_sample fc i j 1 = item no_sample (band_samples b3) i j /\
      item3 no_sample fc i j 2 = item no_sample (band_samples b2) i j.
Proof.
  intros Hf Hwf Hb.
  rewrite display_false_color_image_run, Hf.
  unfold read; rewrite Hb; cbn [nth_error rbind].
  pose proof (wf_bands_4_3_2 _ _ _ _ _ _ Hwf Hb) as W.
  assert (N3 : [b4; b3; b2] <> []) by discriminate.
  destruct (np_stack_last_bands _ _ _ W N3) as [img [Ei [Si Ii]]].
  cbn [map] in Ei; rewrite Ei.
  exists img; cbv zeta; split; [| split; [| split; [exact Si|]]].
  - intros ->; reflexivity.
  - intros e ->; reflexivity.
  - intros i j Hi Hj; repeat split.
    + apply (Ii i j 0 Hi Hj); simpl; lia.
    + apply (Ii i j 1 Hi Hj); simpl; lia.
    + apply (Ii i j 2 Hi Hj); simpl; lia.
Qed.

Lemma display_false_color_image_channels_witness :
  exists fc,
    display_false_color_image (E := bare_env) "west_campus.tif"
      "/no/such/dir/out.png" (mk_session sample_world [])
    = (Err OSError,
       mk_session sample_world
         [PltFigure (8, 8)%Z;
          PltImshow (Image3 fc) CmapDefault None None;
          PltAxisOff;
          PltTitle "False Color Image"]) /\
    item3 no_sample fc 0 0 0 = IntSample 200 /\
    item3 no_sample fc 0 0 1 = IntSample 100 /\
    item3 no_sample fc 0 0 2 = IntSample 100.
Proof.
  destruct (display_false_color_image_channels (E := bare_env)
              "west_campus.tif" "/no/such/dir/out.png"
              (mk_session sample_world [])
              sample_dataset (IntBand nir_2x2) (IntBand red_2x2)
              (IntBand red_2x2) (IntBand nir_2x2) []
              eq_refl wf_sample_dataset eq_refl) as [fc [_ [R [_ I]]]].
  exists fc; split; [exact (R OSError eq_refl)|].
  assert (Hi : 0 < height sample_dataset) by (simpl; lia).
  assert (Hj : 0 < width sample_dataset) by (simpl; lia).
  destruct (I 0 0 Hi Hj) as [I0 [I1 I2]].
  rewrite I0, I1, I2; repeat split.
Defined.

(** [display_false_color_image] reads its three bands and stacks them
    before it touches pyplot.  A failure to open the raster or to read a
    band (RasterioIOError, IndexError) therefore leaves no call behind: the
    session is the one the function was given.  The only failure that
    leaves calls behind is one of [plt.savefig], raised after the figure
    has been drawn, and then the store is as it was and nothing has been
    saved or shown. *)
Theorem display_false_color_image_failure {E : pyplot_env}
    image_path save_path (s s' : session) e :
  display_false_color_image image_path save_path s = (Err e, s') ->
  (e = RasterioIOError \/ e = IndexError -> s' = s) /\
  (s' = s \/
   call_error (PltSavefig save_path) = Some e /\
   store s' = store s /\
   exists fc,
     calls s' = calls s ++
                [PltFigure (8, 8)%Z;
                 PltImshow (Image3 fc) CmapDefault None None;
                 PltAxisOff;
                 PltTitle "False Color Image"]).
Proof.
  rewrite display_false_color_image_run.
  destruct (lookup_file _ _) as [src|];
    [| intros [= _ <-]; split; [reflexivity | now left]].
  destruct (rbind _ _) as [img|];
    [| intros [= _ <-]; split; [reflexivity | now left]].
  cbv zeta.
  destruct (call_error (PltSavefig save_path)) as [e'|] eqn:Es;
    [| discriminate].
  intros [= <- <-]; split.
  - intros [X|X]; subst e';
      destruct (call_error_range _ _ Es); discriminate.
  - right; split; [reflexivity|]; split; [reflexivity|].
    now exists img.
Qed.

Lemma display_false_color_image_failure_witness :
  snd (display_false_color_image (E := bare_env) "west_campus.tif"
         "false_color_image.png" (mk_session rgb_world [PltShow]))
  = mk_session rgb_world [PltShow] /\
  exists fc,
    calls (snd (display_false_color_image (E := bare_env) "west_campus.tif"
                  "/no/such/dir/out.png" (mk_session sample_world [])))
    = [PltFigure (8, 8)%Z;
       PltImshow (Image3 fc) CmapDefault None None;
       PltAxisOff;
       PltTitle "False Color Image"].
Proof.
  split.
  - apply (proj1 (display_false_color_image_failure (E := bare_env)
                    "west_campus.tif" "false_color_image.png"
                    (mk_session rgb_world [PltShow]) _ IndexError eq_refl)).
    now right.
  - destruct (proj2 (display_false_color_image_failure (E := bare_env)
                       "west_campus.tif" "/no/such/dir/out.png"
                       (mk_session sample_world []) _ OSError eq_refl))
      as [X|[_ [_ [fc C]]]].
    + apply (f_equal calls) in X; vm_compute in X; discriminate X.
    + exists fc; exact C.
Defined.

(** Every function of the script that draws keeps to one discipline.  It
    leaves the store as it is.  When it returns, it has opened one figure,
    drawn on it, saved it under [save_path] and then shown it, once each
    and in this order.  When it fails, nothing has been saved or shown. *)
Theorem display_functions_render_once {E : pyplot_env}
    image_path save_path ndvi cmap threshold (s : session) :
  let disciplined (r : result unit * session) :=
    store (snd r) = store s /\
    exists new,
      calls (snd r) = calls s ++ new /\
      match fst r with
      | Ok _ => renders_once save_path new
      | Err _ => saved_paths new = [] /\ filter is_show new = []
      end in
  disciplined (display_original_image image_path save_path s) /\
  disciplined (display_color_channels image_path save_path s) /\
  disciplined (display_false_color_image image_path save_path s) /\
  disciplined (display_ndvi ndvi save_path cmap s) /\
  disciplined
    (emit_all (apply_ndvi_threshold_calls ndvi threshold save_path) s).
Proof.
  cbv zeta.
  assert (Nil : forall t : session,
            store t = store t /\
            exists new, calls t = calls t ++ new /\
                        saved_paths new = [] /\ filter is_show new = []).
  { intros t; split; [reflexivity|]; exists []; rewrite app_nil_r.
    repeat split. }
  split; [| split; [| split; [| split]]].
  - rewrite display_original_image_run.
    destruct (lookup_file _ _) as [src|]; [| apply Nil].
    destruct (read_bands src [1; 2; 3]); cbv zeta;
      [destruct (call_error (PltSavefig save_path)) |];
      cbn [fst snd store calls];
      (split; [reflexivity|]); eexists; (split; [reflexivity|]).
    + repeat split.
    + eexists _, [_; _; _]; repeat split.
    + repeat split.
  - rewrite display_color_channels_run.
    destruct (lookup_file _ _) as [src|]; [| apply Nil].
    cbv zeta.
    destruct (panels_quiet (combine (seq 1 4) (bands src))) as [Q1 [Q2 Q3]].
    cbv zeta in Q1, Q2, Q3.
    destruct (4 <=? List.length (bands src));
      [destruct (call_error (PltSavefig save_path)) |];
      cbn [fst snd store calls];
      (split; [reflexivity|]); eexists; (split; [reflexivity|]).
    + cbn [app].
      change (saved_paths (?a :: ?l)) with (saved_paths l).
      change (filter is_show (PltFigure ?a :: ?l)) with (filter is_show l).
      rewrite saved_paths_app, filter_app, Q1, Q3; repeat split.
    + eexists _, (_ ++ [PltSuptitle "Color Channels"]).
      rewrite <- app_assoc; split; [reflexivity|].
      rewrite saved_paths_app, !filter_app, Q1, Q2, Q3; repeat split.
    + cbn [app].
      change (saved_paths (?a :: ?l)) with (saved_paths l).
      change (filter is_show (PltFigure ?a :: ?l)) with (filter is_show l).
      rewrite saved_paths_app, filter_app, Q1, Q3; repeat split.
  - rewrite display_false_color_image_run.
    destruct (lookup_file _ _) as [src|]; [| apply Nil].
    destruct (rbind _ _); [| apply Nil].
    cbv zeta; destruct (call_error (PltSavefig save_path));
      cbn [fst snd store calls];
      (split; [reflexivity|]); eexists; (split; [reflexivity|]).
    + repeat split.
    + eexists _, [_; _; _]; repeat split.
  - rewrite display_ndvi_run; cbv zeta.
    destruct (call_error (PltImshow _ _ _ _));
      [| destruct (call_error (PltSavefig save_path))];
      cbn [fst snd store calls];
      (split; [reflexivity|]); eexists; (split; [reflexivity|]).
    + repeat split.
    + repeat split.
    + eexists _, [_; _; _; _]; repeat split.
  - rewrite apply_ndvi_threshold_calls_run; cbv zeta.
    destruct (call_error (PltSavefig save_path));
      cbn [fst snd store calls];
      (split; [reflexivity|]); eexists; (split; [reflexivity|]).
    + repeat split.
    + eexists _, [_; _; _; _; _; _]; repeat split.
Qed.
(** ** The script as a whole *)


Lemma world_eta (w : world) : mk_world (files w) (heap w) = w.
Proof. destruct w; reflexivity. Qed.

(** The calls of [apply_ndvi_threshold], applied one by one to a pyplot
    state, build the very figure the state model of the function builds. *)
Lemma apply_ndvi_threshold_calls_replay ndvi threshold save_path p :
  replay (apply_ndvi_threshold_calls ndvi threshold save_path) p
  = Some (apply_ndvi_threshold ndvi threshold save_path p).
Proof. reflexivity. Qed.

(** The script stops at its first call when the raster is missing: no
    call is made on pyplot and the store is untouched. *)

(** The script stops at its first call when the raster is missing: no
    call is made on pyplot and the store is untouched. *)
Theorem main_missing_file {E : pyplot_env} (s : session) :
  lookup_file "west_campus.tif" (files (store s)) = None ->
  main s = (Err RasterioIOError, s).
Proof.
  intros Hf; unfold main; cbv zeta; unfold sbind at 1.
  now rewrite display_original_image_run, Hf.
Qed.

Lemma main_missing_file_witness :
  main (E := bare_env) (mk_session (mk_world [] []) [])
  = (Err RasterioIOError, mk_session (mk_world [] []) []).
Proof.
  apply (main_missing_file (E := bare_env) (mk_session (mk_world [] []) [])).
  reflexivity.
Defined.





